(** * Customer support agent: text analysis, article search, ticket search
      and response composition.

    A shallow embedding of the Python sources

      - [src/utils/text_processing.py]          (module [TextProcessor])
      - [src/knowledge_base/knowledge_base.py]  (module [KnowledgeBase])
      - [src/ticket_system/ticket_retriever.py] (module [TicketRetriever])
      - [src/agent/customer_support_agent.py]   (module [CustomerSupportAgent]:
        the composition of the response text, [process_query] and the
        conversation history)
      - [config/config.py]                      (record [Config])

    Modelling conventions.

    - A Python [str] is a [string]; the model is faithful on ASCII text.
      Characters with code 128 and above are carried along unchanged: they
      have no case and are neither word characters nor whitespace, where
      [str.lower], [str.upper] and [\w] follow Unicode.  A statement about
      upper case is made for ASCII text ([ascii_text]).
    - A Python [float] score is an exact rational ([Q]); IEEE rounding is not
      modelled.  All scores of the program are small sums of small
      fractions; two of them that are equal as rationals can still be
      computed as doubles that differ in the last place, and the program
      orders such a pair by its doubles.
    - A Python [int] argument is a [Z]; an argument that defaults to [None]
      is an [option].
    - A [dict] holding an article or a ticket is a record whose fields are
      optional, read with the default of the corresponding [.get(key, dflt)].
    - [list.sort(key=..., reverse=True)] and [sorted(..., reverse=True)] are
      the stable descending sort [sort_desc]. *)

From Stdlib Require Import QArith Lqa.
From stdpp Require Import gmap strings list pretty.
From Stdlib Require Import Ascii Sorting.Sorted Permutation Lia.

Local Open Scope Z_scope.

(** ** Stable descending sort *)

Section StableSort.
Context {A : Type}.
(** [lt x y]: the sort key of [x] is strictly below the key of [y]. *)
Variable lt : A -> A -> bool.

(** [insert_desc x l] puts [x] after the elements whose key is strictly
    greater and before the first element whose key is not. *)
Fixpoint insert_desc (x : A) (l : list A) : list A :=
  match l with
  | [] => [x]
  | y :: l' => if lt x y then y :: insert_desc x l' else x :: y :: l'
  end.

Definition sort_desc (l : list A) : list A := foldr insert_desc [] l.

(** Two elements tie when neither key is below the other. *)
Definition tieb (x y : A) : bool := negb (lt x y) && negb (lt y x).

(** [x] may stand before [y]: the key of [x] is not below the key of [y]. *)
Definition geq (x y : A) : Prop := lt x y = false.
End StableSort.

(** ** Text analysis *)

Module TextProcessor.

Definition code (c : ascii) : N := N_of_ascii c.

Definition is_upper (c : ascii) : bool := (65 <=? code c)%N && (code c <=? 90)%N.
Definition is_lower (c : ascii) : bool := (97 <=? code c)%N && (code c <=? 122)%N.
Definition is_digit (c : ascii) : bool := (48 <=? code c)%N && (code c <=? 57)%N.
Definition is_alpha (c : ascii) : bool := is_upper c || is_lower c.

(** [\w] on ASCII text: letters, digits and the underscore. *)
Definition is_word (c : ascii) : bool :=
  is_alpha c || is_digit c || (code c =? 95)%N.

(** [\s] and [str.isspace] on ASCII text: tab, newline, vertical tab, form
    feed, carriage return, the four separators 28..31 and the space. *)
Definition is_space (c : ascii) : bool :=
  ((9 <=? code c)%N && (code c <=? 13)%N)
  || ((28 <=? code c)%N && (code c <=? 32)%N).

Definition lower_char (c : ascii) : ascii :=
  if is_upper c then ascii_of_N (code c + 32) else c.
Definition upper_char (c : ascii) : ascii :=
  if is_lower c then ascii_of_N (code c - 32) else c.

(** [s.lower()] and [s.upper()]. *)
Fixpoint lower (s : string) : string :=
  match s with
  | EmptyString => EmptyString
  | String c s' => String (lower_char c) (lower s')
  end.
Fixpoint upper (s : string) : string :=
  match s with
  | EmptyString => EmptyString
  | String c s' => String (upper_char c) (upper s')
  end.

Definition len (s : string) : nat := String.length s.

(** [needle in hay]: [needle] occurs as a contiguous substring of [hay]. *)
Fixpoint contains (needle hay : string) : bool :=
  String.prefix needle hay
  || match hay with
     | EmptyString => false
     | String _ hay' => contains needle hay'
     end.

(** [sep.join(parts)]. *)
Definition join (sep : string) (parts : list string) : string :=
  String.concat sep parts.

(** [s.replace(c, '')] for a one-character pattern. *)
Fixpoint remove_char (c : ascii) (s : string) : string :=
  match s with
  | EmptyString => EmptyString
  | String d s' =>
      if Ascii.eqb d c then remove_char c s' else String d (remove_char c s')
  end.

(** *** [re.findall(r'\b\w+\b', text)]

    The matches are the maximal runs of word characters, left to right.
    [cur] is the run being read. *)
Definition flush (cur : string) : list string :=
  match cur with
  | EmptyString => []
  | _ => [cur]
  end.

Fixpoint findall_go (cur : string) (s : string) : list string :=
  match s with
  | EmptyString => flush cur
  | String c s' =>
      if is_word c then findall_go (cur +:+ String c EmptyString) s'
      else flush cur ++ findall_go EmptyString s'
  end.

Definition findall_words (s : string) : list string := findall_go EmptyString s.

Definition stop_words : list string :=
  ["the"; "is"; "at"; "which"; "on"; "a"; "an"; "as"; "are";
   "was"; "were"; "been"; "be"; "have"; "has"; "had"; "do";
   "does"; "did"; "will"; "would"; "should"; "could"; "may";
   "might"; "must"; "can"; "this"; "that"; "these"; "those"].

Definition is_stop_word (w : string) : bool :=
  existsb (String.eqb w) stop_words.

(** *** [collections.Counter]

    A [Counter] is a dict: it keeps its keys in first-insertion order, which
    [most_common] relies on to break ties. *)
Fixpoint counter_incr (w : string) (c : list (string * nat)) : list (string * nat) :=
  match c with
  | [] => [(w, 1%nat)]
  | (k, n) :: c' =>
      if String.eqb k w then (k, S n) :: c' else (k, n) :: counter_incr w c'
  end.

Definition Counter (ws : list string) : list (string * nat) :=
  fold_left (fun c w => counter_incr w c) ws [].

Definition count_lt (x y : string * nat) : bool := (x.2 <? y.2)%nat.

(** [Counter.most_common()] is [sorted(items, key=count, reverse=True)]. *)
Definition most_common (c : list (string * nat)) : list (string * nat) :=
  sort_desc count_lt c.

(** [TextProcessor.extract_keywords(text, min_length)]. *)
Definition keep_word (min_length : Z) (w : string) : bool :=
  (min_length <=? Z.of_nat (len w)) && negb (is_stop_word w).

Definition extract_keywords (text : string) (min_length : Z) : list string :=
  let words := findall_words (lower text) in
  let keywords := List.filter (keep_word min_length) words in
  let keyword_counts := Counter keywords in
  map fst (most_common keyword_counts).

(** The default [min_length=3]. *)
Definition keywords_of (text : string) : list string := extract_keywords text 3.

(** [TextProcessor.calculate_similarity(text1, text2)]; the quotient of the
    two [int] sizes is a [float], here a rational. *)
Definition calculate_similarity (text1 text2 : string) : Q :=
  let words1 : gset string := list_to_set (keywords_of text1) in
  let words2 : gset string := list_to_set (keywords_of text2) in
  if bool_decide (words1 = ∅) || bool_decide (words2 = ∅) then 0%Q
  else
    let intersection := words1 ∩ words2 in
    let union := words1 ∪ words2 in
    if bool_decide (union = ∅) then 0%Q
    else (inject_Z (Z.of_nat (size intersection))
          / inject_Z (Z.of_nat (size union)))%Q.

(** *** [TextProcessor.clean_text] *)

(** [re.sub(r'\s+', ' ', text)]; [in_run] tells that the previous character
    was whitespace, already replaced. *)
Fixpoint collapse_ws (in_run : bool) (s : string) : string :=
  match s with
  | EmptyString => EmptyString
  | String c s' =>
      if is_space c then
        if in_run then collapse_ws true s'
        else String " " (collapse_ws true s')
      else String c (collapse_ws false s')
  end.

Fixpoint lstrip (s : string) : string :=
  match s with
  | EmptyString => EmptyString
  | String c s' => if is_space c then lstrip s' else s
  end.

Fixpoint rstrip (s : string) : string :=
  match s with
  | EmptyString => EmptyString
  | String c s' =>
      match rstrip s' with
      | EmptyString => if is_space c then EmptyString else String c EmptyString
      | r => String c r
      end
  end.

(** [s.strip()]. *)
Definition strip (s : string) : string := rstrip (lstrip s).

Definition clean_text (text : string) : string :=
  match text with
  | EmptyString => EmptyString
  | _ => strip (collapse_ws false text)
  end.

(** [s[:n]]. *)
Definition take_str (n : nat) (s : string) : string := String.substring 0 n s.

(** [s[:stop]] for an [int] stop: a negative stop counts from the end. *)
Definition slice_str (stop : Z) (s : string) : string :=
  if 0 <=? stop then take_str (Z.to_nat stop) s
  else take_str (len s - Z.to_nat (- stop)) s.

(** [TextProcessor.format_response(response, max_length)]. *)
Definition format_response (response : string) (max_length : Z) : string :=
  let response := clean_text response in
  if max_length <? Z.of_nat (len response)
  then slice_str max_length response +:+ "..."
  else response.

(** *** The regular expressions of [extract_ticket_reference]

    The four patterns are sequences of single characters and of greedy
    repetitions [x+] of a character class, matched with [re.IGNORECASE]. *)
Inductive atom : Type :=
| Lit (c : ascii)   (* a literal character *)
| Letter            (* [A-Z] *)
| Digit.            (* \d *)

Inductive item : Type :=
| One (a : atom)    (* x *)
| Many1 (a : atom). (* x+ *)

Definition regex : Type := list item.

(** One character against one atom, case-insensitively. *)
Definition atom_matches (a : atom) (c : ascii) : bool :=
  match a with
  | Lit d => Ascii.eqb (lower_char c) (lower_char d)
  | Letter => is_alpha c
  | Digit => is_digit c
  end.

(** [match_here r s]: the text matched by [r] at the start of [s], as the
    backtracking matcher finds it: [x+] first takes as many characters as
    it can and gives them back one by one while the rest fails. *)
Fixpoint match_here (r : regex) : string -> option string :=
  match r with
  | [] => fun _ => Some EmptyString
  | One a :: r' => fun s =>
      match s with
      | String c s' =>
          if atom_matches a c then String c <$> match_here r' s' else None
      | EmptyString => None
      end
  | Many1 a :: r' =>
      fix many (s : string) : option string :=
        match s with
        | String c s' =>
            if atom_matches a c then
              match many s' with
              | Some m => Some (String c m)
              | None => String c <$> match_here r' s'
              end
            else None
        | EmptyString => None
        end
  end.

(** [re.search(r, s, re.IGNORECASE).group(0)]: the match at the leftmost
    position that has one. *)
Fixpoint search (r : regex) (s : string) : option string :=
  match match_here r s with
  | Some m => Some m
  | None =>
      match s with
      | EmptyString => None
      | String _ s' => search r s'
      end
  end.

Definition lits (s : string) : regex :=
  map (fun c => One (Lit c)) (String.list_ascii_of_string s).

Definition pat_jira : regex := [Many1 Letter; One (Lit "-"); Many1 Digit].
Definition pat_hash_jira : regex := One (Lit "#") :: pat_jira.
Definition pat_ticket : regex := lits "TICKET-" ++ [Many1 Digit].
Definition pat_hash_number : regex := [One (Lit "#"); Many1 Digit].

Definition patterns : list regex :=
  [pat_jira; pat_hash_jira; pat_ticket; pat_hash_number].

(** The loop over [patterns], returning from inside at the first match. *)
Fixpoint extract_loop (ps : list regex) (text : string) : string :=
  match ps with
  | [] => EmptyString
  | pattern :: ps' =>
      match search pattern text with
      | Some m =>
          let ticket_ref := remove_char "#" m in
          upper ticket_ref
      | None => extract_loop ps' text
      end
  end.

(** [TextProcessor.extract_ticket_reference(text)]. *)
Definition extract_ticket_reference (text : string) : string :=
  extract_loop patterns text.

End TextProcessor.

(** ** Python helpers shared by the stores *)

(** [l[:stop]] for an [int] stop: a negative stop counts from the end. *)
Definition slice_to {A : Type} (stop : Z) (l : list A) : list A :=
  if 0 <=? stop then take (Z.to_nat stop) l
  else take (length l - Z.to_nat (- stop)) l.

(** [x or dflt] for an optional [int]: [None] and [0] are both falsy. *)
Definition int_or (x : option Z) (dflt : Z) : Z :=
  match x with
  | Some n => if n =? 0 then dflt else n
  | None => dflt
  end.

Definition Qltb (x y : Q) : bool := negb (Qle_bool y x).

(** The order of two entries by a rational sort key. *)
Definition key_lt {A : Type} (key : A -> Q) (a b : A) : bool :=
  Qltb (key a) (key b).

(** ** Configuration ([config/config.py]) *)

Record Config : Type := {
  TICKET_SYSTEM_URL : string;
  TICKET_SYSTEM_USERNAME : option string;
  TICKET_SYSTEM_API_TOKEN : option string;
  MAX_SEARCH_RESULTS : Z;
  SIMILARITY_THRESHOLD : Q
}.

(** The values taken when the environment sets none of the variables. *)
Definition default_config : Config := {|
  TICKET_SYSTEM_URL := "https://api.jira.com";
  TICKET_SYSTEM_USERNAME := None;
  TICKET_SYSTEM_API_TOKEN := None;
  MAX_SEARCH_RESULTS := 5;
  SIMILARITY_THRESHOLD := 7 # 10
|}.

(** ** Logging and exceptions

    The code that fetches a ticket, loads the article files or processes a
    query writes log lines and may raise; it is written in a monad that
    threads the log and stops at a raised exception.  The logger calls of the
    two search functions, of [add_article] and of
    [clear_conversation_history] do not influence any result and are left
    out. *)

Inductive level : Type := DEBUG | INFO | WARNING | ERROR.

Inductive exn : Type :=
| RequestException (msg : string)   (* requests.exceptions.RequestException *)
| OtherException (msg : string).    (* anything else *)

Inductive outcome (A : Type) : Type :=
| Returned (a : A)
| Raised (e : exn).
Arguments Returned {A} a.
Arguments Raised {A} e.

Definition M (A : Type) : Type :=
  list (level * string) -> outcome A * list (level * string).

Global Instance M_ret : MRet M := fun A a log => (Returned a, log).
Global Instance M_bind : MBind M := fun A B k m log =>
  match m log with
  | (Returned a, log') => k a log'
  | (Raised e, log') => (Raised e, log')
  end.

(** [logger.<level>(msg)]. *)
Definition logger (l : level) (msg : string) : M unit :=
  fun log => (Returned tt, log ++ [(l, msg)]).

(** Running a computation whose outcome is known. *)
Definition lift {A : Type} (o : outcome A) : M A := fun log => (o, log).

(** [try: body  except requests.exceptions.RequestException as e: handler]. *)
Definition try_except {A : Type} (body : M A) (handler : string -> M A) : M A :=
  fun log =>
    match body log with
    | (Raised (RequestException e), log') => handler e log'
    | r => r
    end.

(** [try: body  except Exception as e: handler]. *)
Definition try_except_all {A : Type} (body : M A) (handler : string -> M A) : M A :=
  fun log =>
    match body log with
    | (Raised (RequestException e), log') => handler e log'
    | (Raised (OtherException e), log') => handler e log'
    | r => r
    end.

(** Sequencing of computations that only return or raise. *)
Global Instance outcome_ret : MRet outcome := fun A a => Returned a.
Global Instance outcome_bind : MBind outcome := fun A B k o =>
  match o with
  | Returned a => k a
  | Raised e => Raised e
  end.

(** ** Article store *)

Module KnowledgeBase.
Import TextProcessor.

(** An article [dict].  [relevance_score] is the key that [search] adds to
    the copies it returns. *)
Record article : Type := {
  ident : option string;            (* "id" *)
  title : option string;
  content : option string;
  category : option string;
  tags : option (list string);
  keywords : option (list string);
  relevance_score : option Q
}.

Definition set_relevance_score (a : article) (score : Q) : article :=
  {| ident := ident a; title := title a; content := content a;
     category := category a; tags := tags a; keywords := keywords a;
     relevance_score := Some score |}.

(** The sort key [x.get("relevance_score", 0)]. *)
Definition score_of (a : article) : Q := default 0%Q (relevance_score a).
Definition score_lt (a b : article) : bool := Qltb (score_of a) (score_of b).

(** ["KB-<n>"]. *)
Definition kb_id (n : nat) : string := "KB-" +:+ pretty n.

(** The [dict] built by [add_article]; [count] is [len(self._articles)].
    [tags or []] turns an absent or empty argument into a new empty list. *)
Definition new_article (count : nat) (title_ content_ category_ : string)
    (tags_ : option (list string)) : article :=
  {| ident := Some (kb_id (count + 1));
     title := Some title_;
     content := Some content_;
     category := Some category_;
     tags := Some (default [] tags_);
     keywords := Some (keywords_of (title_ +:+ " " +:+ content_));
     relevance_score := None |}.

(** The body of the loop of [search]: the score of one article. *)
Definition article_score (query : string) (a : article) : Q :=
  let query_lower := lower query in
  let query_keywords : gset string := list_to_set (keywords_of query) in
  let score := 0%Q in
  (* Exact title match *)
  let score :=
    if contains query_lower (lower (default "" (title a)))
    then (score + 10)%Q else score in
  (* Content similarity *)
  let content_sim :=
    calculate_similarity query
      (default "" (title a) +:+ " " +:+ default "" (content a)) in
  let score := (score + content_sim * 5)%Q in
  (* Keyword matching *)
  let article_keywords : gset string := list_to_set (default [] (keywords a)) in
  let score :=
    if negb (bool_decide (query_keywords = ∅))
       && negb (bool_decide (article_keywords = ∅))
    then
      let keyword_overlap := size (query_keywords ∩ article_keywords) in
      let keyword_score :=
        (inject_Z (Z.of_nat keyword_overlap)
         / inject_Z (Z.of_nat (Nat.max (size query_keywords) 1)))%Q in
      (score + keyword_score * 3)%Q
    else score in
  (* Tag matching *)
  let article_tags := map lower (default [] (tags a)) in
  let score :=
    if contains query_lower (join " " article_tags)
    then (score + 2)%Q else score in
  (* Category matching *)
  let score :=
    if contains query_lower (lower (default "" (category a)))
    then (score + 1)%Q else score in
  score.

(** *** The store as values

    [self._articles] as the list of its articles, in insertion order, and
    the results as the list of the scored copies. *)

Definition add_article (articles : list article)
    (title_ content_ : string) (category_ : string)
    (tags_ : option (list string)) : list article :=
  articles ++ [new_article (length articles) title_ content_ category_ tags_].

(** The loop of [search]: the scored copies of the articles whose score is
    positive, in the order of the store. *)
Fixpoint scored_copies (query : string) (articles : list article) : list article :=
  match articles with
  | [] => []
  | a :: rest =>
      let score := article_score query a in
      if Qltb 0 score
      then set_relevance_score a score :: scored_copies query rest
      else scored_copies query rest
  end.

Definition search (cfg : Config) (articles : list article)
    (query : string) (max_results : option Z) : list article :=
  match query with
  | EmptyString => []
  | _ =>
      let max_results := int_or max_results (MAX_SEARCH_RESULTS cfg) in
      let results := scored_copies query articles in
      let results := sort_desc score_lt results in
      let threshold := SIMILARITY_THRESHOLD cfg in
      let filtered_results :=
        List.filter (fun r => Qle_bool threshold (score_of r)) results in
      slice_to max_results filtered_results
  end.

Fixpoint get_article_by_id (articles : list article) (article_id : string)
    : option article :=
  match articles with
  | [] => None
  | a :: rest =>
      if bool_decide (ident a = Some article_id) then Some a
      else get_article_by_id rest article_id
  end.

(** *** The store as objects

    Python lists and dicts are objects with an identity: [self._articles]
    is a reference to a list object whose items are references to dict
    objects, [article.copy()] and [self._articles.copy()] allocate new
    objects, and a result of [search] is a list of references.  The lists
    under ["tags"] and ["keywords"] are kept as values: the shallow copy
    shares them with the stored article, and no operation of the store
    writes to them. *)

Definition loc : Type := positive.

Inductive obj : Type :=
| DictObj (d : article)
| ListObj (items : list loc).

Definition alloc (h : gmap loc obj) (o : obj) : loc * gmap loc obj :=
  let l := fresh (dom h) in (l, <[l := o]> h).

Definition items_of (h : gmap loc obj) (l : loc) : list loc :=
  match h !! l with
  | Some (ListObj items) => items
  | _ => []
  end.

Definition dict_of (h : gmap loc obj) (l : loc) : option article :=
  match h !! l with
  | Some (DictObj d) => Some d
  | _ => None
  end.

(** The articles a list object refers to, read through the heap. *)
Definition dicts_of (h : gmap loc obj) (ls : list loc) : list article :=
  omap (dict_of h) ls.

Definition score_at (h : gmap loc obj) (l : loc) : Q :=
  match dict_of h l with
  | Some d => score_of d
  | None => 0%Q
  end.

(** A [KnowledgeBase] object: the heap and the reference held in
    [self._articles]. *)
Record kb : Type := {
  heap : gmap loc obj;
  _articles : loc
}.

Definition stored (s : kb) : list article :=
  dicts_of (heap s) (items_of (heap s) (_articles s)).

(** [self._articles.append(article)] on a new dict object. *)
Definition add_article_obj (s : kb) (title_ content_ category_ : string)
    (tags_ : option (list string)) : kb :=
  let items := items_of (heap s) (_articles s) in
  let article := new_article (length items) title_ content_ category_ tags_ in
  let '(l, h) := alloc (heap s) (DictObj article) in
  {| heap := <[_articles s := ListObj (items ++ [l])]> h;
     _articles := _articles s |}.

(** The loop of [search] on objects: each [article.copy()] is a new dict
    object, which receives the key ["relevance_score"]. *)
Fixpoint copy_loop (query : string) (h : gmap loc obj) (items : list loc)
    : gmap loc obj * list loc :=
  match items with
  | [] => (h, [])
  | l :: rest =>
      match dict_of h l with
      | Some article =>
          let score := article_score query article in
          if Qltb 0 score then
            let '(article_copy, h) := alloc h (DictObj article) in
            let h := <[article_copy := DictObj (set_relevance_score article score)]> h in
            let '(h, results) := copy_loop query h rest in
            (h, article_copy :: results)
          else copy_loop query h rest
      | None => copy_loop query h rest
      end
  end.

(** [search] on objects returns the new heap and the references of the
    result list. *)
Definition search_obj (cfg : Config) (s : kb)
    (query : string) (max_results : option Z) : kb * list loc :=
  match query with
  | EmptyString => (s, [])
  | _ =>
      let max_results := int_or max_results (MAX_SEARCH_RESULTS cfg) in
      let '(h, results) :=
        copy_loop query (heap s) (items_of (heap s) (_articles s)) in
      let results :=
        sort_desc (fun x y => Qltb (score_at h x) (score_at h y)) results in
      let threshold := SIMILARITY_THRESHOLD cfg in
      let filtered_results :=
        List.filter (fun r => Qle_bool threshold (score_at h r)) results in
      ({| heap := h; _articles := _articles s |},
       slice_to max_results filtered_results)
  end.

(** [get_all_articles]: [self._articles.copy()], a new list object with the
    same items. *)
Definition get_all_articles (s : kb) : kb * loc :=
  let '(l, h) := alloc (heap s) (ListObj (items_of (heap s) (_articles s))) in
  ({| heap := h; _articles := _articles s |}, l).

(** What a caller can do to a list it holds: any replacement of its items
    ([append], [sort], [reverse], [del], item assignment, ...). *)
Definition mutate_list (s : kb) (l : loc) (f : list loc -> list loc) : kb :=
  match heap s !! l with
  | Some (ListObj items) =>
      {| heap := <[l := ListObj (f items)]> (heap s); _articles := _articles s |}
  | _ => s
  end.


(** *** Loading the store

    A [*.json] file of the knowledge-base directory as [open] and
    [json.load] find it; the elements of an array and an object are taken
    to be article dicts. *)
Inductive json_file : Type :=
| Unparseable (err : string)              (* [open] or [json.load] raises *)
| ArticleList (articles : list article)   (* a JSON array *)
| ArticleDict (a : article)               (* a JSON object *)
| OtherJson.                              (* a number, a string, [null], ... *)

(** The body of the loop of [_load_articles] for one file: what
    [self._articles] becomes. *)
Definition load_file (acc : list article) (path : string) (content : json_file)
    : M (list article) :=
  match content with
  | Unparseable e =>
      logger ERROR ("Error loading " +:+ path +:+ ": " +:+ e);;
      mret acc
  | ArticleList articles =>
      logger DEBUG ("Loaded articles from " +:+ path);;
      mret (acc ++ articles)
  | ArticleDict a =>
      logger DEBUG ("Loaded articles from " +:+ path);;
      mret (acc ++ [a])
  | OtherJson =>
      logger DEBUG ("Loaded articles from " +:+ path);;
      mret acc
  end.

Fixpoint load_loop (acc : list article) (files : list (string * json_file))
    : M (list article) :=
  match files with
  | [] => mret acc
  | (path, content) :: rest =>
      acc ← load_file acc path content;
      load_loop acc rest
  end.

(** [_load_articles]; [files] are the files that [glob("*.json")] yields, in
    the order in which it yields them. *)
Definition _load_articles (files : list (string * json_file)) : M (list article) :=
  load_loop [] files.

End KnowledgeBase.

(** ** Ticket store *)

Module TicketRetriever.
Import TextProcessor.

Record comment : Type := {
  author : option string;
  body : option string;
  comment_created_date : option string   (* "created_date" *)
}.

(** A ticket [dict].  [match_score] is the key that [search_tickets] adds to
    the copies it returns. *)
Record ticket : Type := {
  ident : option string;                  (* "id" *)
  title : option string;
  description : option string;
  status : option string;
  priority : option string;
  assignee : option string;
  reporter : option string;
  created_date : option string;
  updated_date : option string;
  comments : option (list comment);
  match_score : option Q
}.

Definition set_match_score (t : ticket) (score : Q) : ticket :=
  {| ident := ident t; title := title t; description := description t;
     status := status t; priority := priority t; assignee := assignee t;
     reporter := reporter t; created_date := created_date t;
     updated_date := updated_date t; comments := comments t;
     match_score := Some score |}.

(** The sort key [x.get("match_score", 0)]. *)
Definition score_of (t : ticket) : Q := default 0%Q (match_score t).
Definition score_lt (a b : ticket) : bool := Qltb (score_of a) (score_of b).

(** A dict is falsy when it has no key at all. *)
Definition is_empty_dict (t : ticket) : bool :=
  match ident t, title t, description t, status t, priority t, assignee t,
        reporter t, created_date t, updated_date t, comments t, match_score t with
  | None, None, None, None, None, None, None, None, None, None, None => true
  | _, _, _, _, _, _, _, _, _, _, _ => false
  end.

(** [if ticket:] for an [Optional[Dict]]. *)
Definition truthy (t : option ticket) : bool :=
  match t with
  | Some d => negb (is_empty_dict d)
  | None => false
  end.

(** [not s] for an optional string: [None] and [""] are falsy. *)
Definition falsy_str (s : option string) : bool :=
  match s with
  | None | Some EmptyString => true
  | Some _ => false
  end.

(** [data/tickets.json] as [open] and [json.load] find it. *)
Inductive tickets_file : Type :=
| Missing                            (* the file does not exist *)
| Unreadable (err : string)          (* [open] or [json.load] raises *)
| Stored (tickets : list ticket).

(** What [requests.get] gives back.  [json_ticket] stands for
    [self._transform_jira_response(response.json())], which is evaluated
    only for status 200 and may itself raise. *)
Record response : Type := {
  status_code : Z;
  json_ticket : outcome ticket
}.

(** A [TicketRetriever] object; [requests_get] is the remote system, called
    with the URL. *)
Record retriever : Type := {
  api_url : string;
  username : option string;
  api_token : option string;
  file : tickets_file;
  requests_get : string -> outcome response
}.

Definition ticket_1001 : ticket :=
  {| ident := Some "PROJ-1001";
     title := Some "Unable to login to application";
     description := Some "User is experiencing login issues with error message 'Invalid credentials'";
     status := Some "Open"; priority := Some "High";
     assignee := Some "support-team"; reporter := Some "customer@example.com";
     created_date := Some "2024-01-15T10:30:00Z";
     updated_date := Some "2024-01-15T14:20:00Z";
     comments := Some [ {| author := Some "support-team";
                           body := Some "Please check if you're using the correct password";
                           comment_created_date := Some "2024-01-15T11:00:00Z" |} ];
     match_score := None |}.

Definition ticket_1002 : ticket :=
  {| ident := Some "PROJ-1002";
     title := Some "Feature request: Add dark mode";
     description := Some "Customer requests dark mode theme for better visibility";
     status := Some "In Progress"; priority := Some "Medium";
     assignee := Some "dev-team"; reporter := Some "user@example.com";
     created_date := Some "2024-01-14T09:15:00Z";
     updated_date := Some "2024-01-16T08:45:00Z";
     comments := Some [ {| author := Some "dev-team";
                           body := Some "Dark mode is planned for Q2 release";
                           comment_created_date := Some "2024-01-14T16:30:00Z" |} ];
     match_score := None |}.

Definition ticket_1003 : ticket :=
  {| ident := Some "PROJ-1003";
     title := Some "Payment processing error";
     description := Some "Transaction failed with error code 500. Customer unable to complete purchase.";
     status := Some "Resolved"; priority := Some "Critical";
     assignee := Some "payment-team"; reporter := Some "merchant@example.com";
     created_date := Some "2024-01-13T15:20:00Z";
     updated_date := Some "2024-01-14T10:10:00Z";
     comments := Some [ {| author := Some "payment-team";
                           body := Some "Issue resolved. Was a temporary service outage.";
                           comment_created_date := Some "2024-01-14T10:10:00Z" |} ];
     match_score := None |}.

Definition sample_tickets : list ticket :=
  [ticket_1001; ticket_1002; ticket_1003].

(** The loop of [_get_ticket_from_local]. *)
Fixpoint find_local (tickets : list ticket) (ticket_id : string) : option ticket :=
  match tickets with
  | [] => None
  | t :: rest =>
      if String.eqb (upper (default "" (ident t))) ticket_id then Some t
      else find_local rest ticket_id
  end.

Definition _get_ticket_from_local (self : retriever) (ticket_id : string)
    : M (option ticket) :=
  match file self with
  | Missing => mret None
  | Unreadable e =>
      logger ERROR ("Error reading local tickets: " +:+ e);;
      mret None
  | Stored tickets => mret (find_local tickets ticket_id)
  end.

Definition _fetch_ticket_from_api (self : retriever) (ticket_id : string)
    : M (option ticket) :=
  if falsy_str (username self) || falsy_str (api_token self) then
    logger WARNING "API credentials not configured. Using local tickets only.";;
    mret None
  else
    try_except
      (let url := api_url self +:+ "/rest/api/2/issue/" +:+ ticket_id in
       response ← lift (requests_get self url);
       if status_code response =? 200 then
         data ← lift (json_ticket response);
         mret (Some data)
       else
         logger ERROR ("API request failed with status "
                       +:+ pretty (status_code response));;
         mret None)
      (fun e =>
         logger ERROR ("Error fetching ticket from API: " +:+ e);;
         mret None).

Definition get_ticket (self : retriever) (ticket_id : string)
    : M (option ticket) :=
  (* Clean ticket ID *)
  let ticket_id := upper (clean_text ticket_id) in
  (* Try to fetch from local storage first *)
  ticket ← _get_ticket_from_local self ticket_id;
  if truthy ticket then
    logger INFO ("Retrieved ticket " +:+ ticket_id +:+ " from local storage");;
    mret ticket
  else
    (* In production, fetch from actual API *)
    ticket ← _fetch_ticket_from_api self ticket_id;
    if truthy ticket then
      logger INFO ("Retrieved ticket " +:+ ticket_id +:+ " from API");;
      mret ticket
    else
      logger WARNING ("Ticket " +:+ ticket_id +:+ " not found");;
      mret None.

(** The body of the loop of [search_tickets]: the score of one ticket. *)
Definition ticket_score (query : string) (t : ticket) : Q :=
  let query_lower := lower query in
  let score := 0%Q in
  let title := lower (default "" (title t)) in
  let description := lower (default "" (description t)) in
  let ticket_id := lower (default "" (ident t)) in
  (* Check if query matches ticket ID *)
  let score := if contains query_lower ticket_id then (score + 10)%Q else score in
  (* Check title match *)
  let score := if contains query_lower title then (score + 5)%Q else score in
  (* Check description match *)
  let score := if contains query_lower description then (score + 2)%Q else score in
  (* Calculate similarity *)
  let text_content := title +:+ " " +:+ description in
  let similarity := calculate_similarity query text_content in
  (score + similarity * 3)%Q.

Fixpoint matching_copies (query : string) (tickets : list ticket) : list ticket :=
  match tickets with
  | [] => []
  | t :: rest =>
      let score := ticket_score query t in
      if Qltb 0 score
      then set_match_score t score :: matching_copies query rest
      else matching_copies query rest
  end.

(** [search_tickets] on the tickets read from the file. *)
Definition search_stored (tickets : list ticket) (query : string)
    (max_results : Z) : list ticket :=
  let matching_tickets := matching_copies query tickets in
  let matching_tickets := sort_desc score_lt matching_tickets in
  slice_to max_results matching_tickets.

(** [search_tickets(query, max_results)]; the default is [max_results=10]. *)
Definition search_tickets (self : retriever) (query : string)
    (max_results : Z) : list ticket :=
  match file self with
  | Stored tickets => search_stored tickets query max_results
  | Missing | Unreadable _ => []
  end.


(** *** The remote schema

    A key of a JSON object is absent, holds [null], or holds a value.  The
    keys that hold text are either absent or hold a string: a text key that
    holds [null] is outside the model (the program stores [None] for it,
    and a later slice of that value raises a [TypeError]). *)
Inductive json_field (A : Type) : Type :=
| Absent
| Null
| Value (a : A).
Arguments Absent {A}.
Arguments Null {A}.
Arguments Value {A} a.

Record jira_name : Type := { name : option string }.
Record jira_user : Type := { displayName : option string }.

Record jira_comment : Type := {
  jira_comment_author : json_field jira_user;     (* "author" *)
  jira_comment_body : option string;              (* "body" *)
  jira_comment_created : option string            (* "created" *)
}.

Record jira_comment_page : Type := {
  jira_comments : json_field (list jira_comment)  (* "comments" *)
}.

Record jira_fields : Type := {
  jira_summary : option string;
  jira_description : option string;
  jira_status : json_field jira_name;
  jira_priority : json_field jira_name;
  jira_assignee : json_field jira_user;
  jira_reporter : json_field jira_user;
  jira_created : option string;
  jira_updated : option string;
  jira_comment_field : json_field jira_comment_page   (* "comment" *)
}.

Record jira_issue : Type := {
  jira_key : option string;                 (* "key" *)
  jira_issue_fields : json_field jira_fields      (* "fields" *)
}.

Definition attribute_error : exn :=
  OtherException "AttributeError: 'NoneType' object has no attribute 'get'".
Definition type_error : exn :=
  OtherException "TypeError: 'NoneType' object is not iterable".

(** [d.get(key, {})] as the receiver of a further [.get]: the default for an
    absent key, an [AttributeError] for [None]. *)
Definition get_object {A : Type} (f : json_field A) (dflt : A) : outcome A :=
  match f with
  | Absent => Returned dflt
  | Null => Raised attribute_error
  | Value a => Returned a
  end.

(** [d.get("comments", [])] as the sequence of a comprehension: a
    [TypeError] for [None]. *)
Definition get_iterable {A : Type} (f : json_field (list A)) : outcome (list A) :=
  match f with
  | Absent => Returned []
  | Null => Raised type_error
  | Value l => Returned l
  end.

Definition no_name : jira_name := {| name := None |}.
Definition no_user : jira_user := {| displayName := None |}.
Definition no_comment_page : jira_comment_page := {| jira_comments := Absent |}.
Definition no_fields : jira_fields :=
  {| jira_summary := None; jira_description := None; jira_status := Absent;
     jira_priority := Absent; jira_assignee := Absent; jira_reporter := Absent;
     jira_created := None; jira_updated := None;
     jira_comment_field := Absent |}.

(** One element of the comprehension over the comments. *)
Definition transform_comment (c : jira_comment) : outcome comment :=
  author_ ← get_object (jira_comment_author c) no_user;
  mret {| author := Some (default "" (displayName author_));
          body := Some (default "" (jira_comment_body c));
          comment_created_date := Some (default "" (jira_comment_created c)) |}.

Fixpoint transform_comments (cs : list jira_comment) : outcome (list comment) :=
  match cs with
  | [] => mret []
  | c :: rest =>
      c' ← transform_comment c;
      rest' ← transform_comments rest;
      mret (c' :: rest')
  end.

(** [_transform_jira_response(jira_data)]; the values of the dict display
    are evaluated in the order in which they are written. *)
Definition _transform_jira_response (jira_data : jira_issue) : outcome ticket :=
  fields ← get_object (jira_issue_fields jira_data) no_fields;
  status_ ← get_object (jira_status fields) no_name;
  priority_ ← get_object (jira_priority fields) no_name;
  assignee_ ← get_object (jira_assignee fields) no_user;
  reporter_ ← get_object (jira_reporter fields) no_user;
  page ← get_object (jira_comment_field fields) no_comment_page;
  raw_comments ← get_iterable (jira_comments page);
  comments_ ← transform_comments raw_comments;
  mret {| ident := Some (default "" (jira_key jira_data));
          title := Some (default "" (jira_summary fields));
          description := Some (default "" (jira_description fields));
          status := Some (default "" (name status_));
          priority := Some (default "" (name priority_));
          assignee := Some (default "" (displayName assignee_));
          reporter := Some (default "" (displayName reporter_));
          created_date := Some (default "" (jira_created fields));
          updated_date := Some (default "" (jira_updated fields));
          comments := Some comments_;
          match_score := None |}.

(** The response object of a request that was answered: its status and its
    body as [response.json()] decodes it. *)
Definition jira_response (status : Z) (body : outcome jira_issue) : response :=
  {| status_code := status;
     json_ticket := body ≫= _transform_jira_response |}.

End TicketRetriever.

(** ** Response composer *)

Module CustomerSupportAgent.
Import TextProcessor.
Module KB := KnowledgeBase.
Module TR := TicketRetriever.

Definition nl : string := String "010"%char EmptyString.

(** [l[-n:]]. *)
Definition last_n {A : Type} (n : nat) (l : list A) : list A :=
  drop (length l - n) l.

(** The lines of the "Ticket Information" block. *)
Definition ticket_block (ticket_details : TR.ticket) : list string :=
  let head :=
    [ "**Ticket Information:**";
      "📋 **Ticket ID:** " +:+ default "N/A" (TR.ident ticket_details);
      "📌 **Title:** " +:+ default "N/A" (TR.title ticket_details);
      "📊 **Status:** " +:+ default "N/A" (TR.status ticket_details);
      "⚡ **Priority:** " +:+ default "N/A" (TR.priority ticket_details) ] in
  let description := default "" (TR.description ticket_details) in
  let descr_part :=
    match description with
    | EmptyString => []
    | _ => [nl +:+ "**Description:** " +:+ description]
    end in
  (* Include recent comments if available *)
  let comments := default [] (TR.comments ticket_details) in
  let comment_part :=
    match comments with
    | [] => []
    | _ =>
        (nl +:+ "**Latest Updates:**")
        :: map (fun comment =>
                  let author := default "N/A" (TR.author comment) in
                  let body := take_str 200 (default "" (TR.body comment)) in
                  "  - " +:+ author +:+ ": " +:+ body)
               (last_n 2 comments)
    end in
  head ++ descr_part ++ comment_part ++ [""].

(** The lines that one article contributes to the "Relevant Information"
    block; [idx] counts from 1. *)
Definition article_lines (idx : nat) (kb_article : KB.article) : list string :=
  let title := default "Untitled" (KB.title kb_article) in
  let content := take_str 300 (default "" (KB.content kb_article)) in
  let category := default "general" (KB.category kb_article) in
  [ nl +:+ pretty idx +:+ ". **" +:+ title +:+ "** (" +:+ category +:+ ")";
    "   " +:+ content ]
  ++ (if (300 <=? len content)%nat then ["   ..."] else []).

(** [for idx, kb_article in enumerate(articles, start)]. *)
Fixpoint articles_lines (start : nat) (articles : list KB.article) : list string :=
  match articles with
  | [] => []
  | a :: rest => article_lines start a ++ articles_lines (S start) rest
  end.

Definition knowledge_block (knowledge_results : list KB.article) : list string :=
  match knowledge_results with
  | [] => []
  | _ =>
      ["**Relevant Information:**"]
      ++ articles_lines 1 (take 3 knowledge_results)
      ++ [""]
  end.

Definition _create_contextual_response (user_query : string)
    (ticket_details : option TR.ticket)
    (knowledge_results : list KB.article) : string :=
  let query_lower := lower user_query in
  let generic :=
    match knowledge_results with
    | _ :: _ =>
        "I've found some relevant information above that might help address your concern. "
        +:+ "Please review the details and let me know if you need further assistance."
    | [] => ""
    end in
  let error_rule :=
    match ticket_details with
    | Some t =>
        if (contains "error" query_lower || contains "issue" query_lower)
           && TR.truthy ticket_details
        then "I see you're experiencing an issue. Your ticket describes: "
             +:+ take_str 200 (default "" (TR.description t))
        else generic
    | None => generic
    end in
  let resolve_rule :=
    if contains "resolve" query_lower || contains "fix" query_lower then
      match knowledge_results with
      | top_result :: _ =>
          "Based on our knowledge base, here's a potential solution: "
          +:+ take_str 200 (default "" (KB.content top_result))
      | [] =>
          "I'm looking into solutions for you. Please check the relevant information above."
      end
    else error_rule in
  let progress_rule :=
    match ticket_details with
    | Some t =>
        if contains "progress" query_lower && TR.truthy ticket_details then
          match last (default [] (TR.comments t)) with
          | Some latest =>
              "Latest update on your ticket: "
              +:+ take_str 200 (default "" (TR.body latest))
          | None => resolve_rule
          end
        else resolve_rule
    | None => resolve_rule
    end in
  match ticket_details with
  | Some t =>
      if contains "status" query_lower && TR.truthy ticket_details
      then "Your ticket is currently **"
           +:+ default "Unknown" (TR.status t) +:+ "**. "
      else progress_rule
  | None => progress_rule
  end.

(** [_generate_response]; [history] is [len(self.conversation_history)]. *)
Definition response_parts (history : nat) (user_query : string)
    (ticket_details : option TR.ticket)
    (knowledge_results : list KB.article) : list string :=
  (* Start with greeting if this is beginning of conversation *)
  (if (history =? 0)%nat
   then ["Hello! I'm your customer support agent. How can I help you today?"; ""]
   else [])
  (* Include ticket information if available *)
  ++ match ticket_details with
     | Some t => if TR.truthy ticket_details then ticket_block t else []
     | None => []
     end
  (* Include relevant knowledge base information *)
  ++ knowledge_block knowledge_results
  ++ (let contextual_response :=
        _create_contextual_response user_query ticket_details knowledge_results in
      match contextual_response with
      | EmptyString => []
      | _ => ["**Based on your query:**"; contextual_response]
      end)
  (* If no relevant information found *)
  ++ (if negb (TR.truthy ticket_details)
         && match knowledge_results with [] => true | _ => false end
      then ["I couldn't find specific information related to your query. "
            +:+ "Could you please provide more details or a ticket reference? "
            +:+ "I'm here to help you!"]
      else [])
  (* Add closing statement *)
  ++ [nl +:+ "---"; "Is there anything else I can help you with?"].

Definition _generate_response (history : nat) (user_query : string)
    (ticket_details : option TR.ticket)
    (knowledge_results : list KB.article) : string :=
  join nl (response_parts history user_query ticket_details knowledge_results).


(** *** Queries and the conversation history *)

(** An entry of [self.conversation_history]. *)
Record conversation_entry : Type := {
  timestamp : string;
  user_query : string;
  agent_response : string;
  ticket_reference : string;
  conversation_id : string
}.

(** An element of ["sources"]. *)
Record source : Type := {
  source_type : string;     (* "type" *)
  source_id : string;       (* "id" *)
  source_title : string     (* "title" *)
}.

(** The dict returned by [process_query]. *)
Record response_data : Type := {
  response : string;
  ticket_details : option TR.ticket;
  knowledge_base_results : list KB.article;
  response_conversation_id : string;     (* "conversation_id" *)
  response_timestamp : string;           (* "timestamp" *)
  sources : list source
}.

(** A [CustomerSupportAgent] object.  The knowledge base is held as the list
    of its articles: [search] does not change it. *)
Record agent : Type := {
  knowledge_base : list KB.article;
  ticket_retriever : TR.retriever;
  conversation_history : list conversation_entry
}.

(** What the two calls of [datetime.now()] give during one call of
    [process_query]. *)
Record clock : Type := {
  now_timestamp : string;   (* str(datetime.now().timestamp()) *)
  now_isoformat : string    (* datetime.now().isoformat() *)
}.

(** [conversation_id or f"conv-{datetime.now().timestamp()}"]. *)
Definition conversation_id_or (conversation_id_ : option string) (now : clock)
    : string :=
  match conversation_id_ with
  | Some (String c s) => String c s
  | _ => "conv-" +:+ now_timestamp now
  end.

Definition kb_source (kb_result : KB.article) : source :=
  {| source_type := "knowledge_base";
     source_id := default "" (KB.ident kb_result);
     source_title := default "" (KB.title kb_result) |}.

(** Step 1 of [process_query]: the ticket and the source that goes with it. *)
Definition retrieve_ticket (self : agent) (ticket_ref : string)
    : M (option TR.ticket * list source) :=
  match ticket_ref with
  | EmptyString => mret (None, [])
  | _ =>
      logger INFO ("Extracted ticket reference: " +:+ ticket_ref);;
      ticket_details_ ← TR.get_ticket (ticket_retriever self) ticket_ref;
      match ticket_details_ with
      | Some t =>
          if TR.truthy ticket_details_ then
            mret (ticket_details_,
                  [ {| source_type := "ticket";
                       source_id := ticket_ref;
                       source_title := default "" (TR.title t) |} ])
          else
            logger WARNING ("Ticket " +:+ ticket_ref +:+ " not found");;
            mret (ticket_details_, [])
      | None =>
          logger WARNING ("Ticket " +:+ ticket_ref +:+ " not found");;
          mret (ticket_details_, [])
      end
  end.

(** [process_query(user_query, conversation_id)]: the dict returned and the
    agent afterwards. *)
Definition process_query (cfg : Config) (now : clock) (self : agent)
    (user_query_ : string) (conversation_id_ : option string)
    : M (response_data * agent) :=
  logger INFO ("Processing query: " +:+ take_str 100 user_query_ +:+ "...");;
  (* Extract ticket reference if present *)
  let ticket_ref := extract_ticket_reference user_query_ in
  let conversation_id_ := conversation_id_or conversation_id_ now in
  let timestamp_ := now_isoformat now in
  (* Step 1: Retrieve ticket details if reference provided *)
  '(ticket_details_, ticket_sources) ← retrieve_ticket self ticket_ref;
  (* Step 2: Search knowledge base for relevant information *)
  let knowledge_results := KB.search cfg (knowledge_base self) user_query_ None in
  let sources_ := ticket_sources ++ map kb_source (take 3 knowledge_results) in
  (* Step 3: Generate comprehensive response *)
  let response_ :=
    _generate_response (length (conversation_history self)) user_query_
                       ticket_details_ knowledge_results in
  (* Step 4: Store conversation history *)
  let entry :=
    {| timestamp := timestamp_;
       user_query := user_query_;
       agent_response := response_;
       ticket_reference := ticket_ref;
       conversation_id := conversation_id_ |} in
  logger INFO "Generated response for query";;
  mret ({| response := response_;
           ticket_details := ticket_details_;
           knowledge_base_results := take 3 knowledge_results;
           response_conversation_id := conversation_id_;
           response_timestamp := timestamp_;
           sources := sources_ |},
        {| knowledge_base := knowledge_base self;
           ticket_retriever := ticket_retriever self;
           conversation_history := conversation_history self ++ [entry] |}).

(** [get_conversation_history(conversation_id)]: [None] and [""] are falsy. *)
Definition get_conversation_history (self : agent)
    (conversation_id_ : option string) : list conversation_entry :=
  match conversation_id_ with
  | Some (String c s) =>
      List.filter (fun entry => String.eqb (conversation_id entry) (String c s))
                  (conversation_history self)
  | _ => conversation_history self
  end.

Definition clear_conversation_history (self : agent) : agent :=
  {| knowledge_base := knowledge_base self;
     ticket_retriever := ticket_retriever self;
     conversation_history := [] |}.

End CustomerSupportAgent.

(** * Specification vocabulary *)

(** [Before x y l]: [x] occurs in [l] at an earlier position than [y]. *)
Definition Before {A : Type} (x y : A) (l : list A) : Prop :=
  [x; y] `sublist_of` l.

(** All characters of a string satisfy [p]. *)
Fixpoint all_chars (p : ascii -> bool) (s : string) : bool :=
  match s with
  | EmptyString => true
  | String c s' => p c && all_chars p s'
  end.

Definition not_upper (c : ascii) : bool := negb (TextProcessor.is_upper c).

(** A token: a non-empty run of word characters. *)
Definition is_token (w : string) : Prop :=
  w <> "" /\ all_chars TextProcessor.is_word w = true.

(** The number of occurrences of [w] in [ws]. *)
Definition frequency (ws : list string) (w : string) : nat :=
  count_occ String.string_dec ws w.

(** The position of the first occurrence of [w] in [ws] ([length ws] when
    there is none). *)
Fixpoint first_index (w : string) (ws : list string) : nat :=
  match ws with
  | [] => 0
  | x :: rest => if String.eqb x w then 0 else S (first_index w rest)
  end.

(** The distinct elements of [ws], each at the place of its first
    occurrence. *)
Definition first_occurrences (ws : list string) : list string :=
  rev (nodup String.string_dec (rev ws)).

(** The Jaccard index of two sets of words: the size of the intersection
    over the size of the union. *)
Definition jaccard (A B : gset string) : Q :=
  (inject_Z (Z.of_nat (size (A ∩ B))) / inject_Z (Z.of_nat (size (A ∪ B))))%Q.

(** The deduplicated keyword set of a text. *)
Definition keyword_set (text : string) : gset string :=
  list_to_set (TextProcessor.keywords_of text).

(** [Matches r m]: the text [m] belongs to the language of the pattern [r],
    read case-insensitively. *)
Inductive Matches : TextProcessor.regex -> string -> Prop :=
| Matches_nil : Matches [] ""
| Matches_one a c r m :
    TextProcessor.atom_matches a c = true -> Matches r m ->
    Matches (TextProcessor.One a :: r) (String c m)
| Matches_many a w r m :
    w <> "" -> all_chars (TextProcessor.atom_matches a) w = true -> Matches r m ->
    Matches (TextProcessor.Many1 a :: r) (w +:+ m).

(** [MatchAt r text n m]: [m] matches [r] and occurs in [text] at offset
    [n]. *)
Definition MatchAt (r : TextProcessor.regex) (text : string) (n : nat) (m : string) : Prop :=
  exists pre post,
    text = pre +:+ m +:+ post /\ TextProcessor.len pre = n /\ Matches r m.

(** The pattern [r] matches somewhere in [text]. *)
Definition Occurs (r : TextProcessor.regex) (text : string) : Prop :=
  exists n m, MatchAt r text n m.


(** Atoms, items and characters that have nothing to do with ['#']. *)
Definition hash_free_atom (a : TextProcessor.atom) : bool :=
  negb (TextProcessor.atom_matches a "#").
Definition hash_free_item (i : TextProcessor.item) : bool :=
  match i with TextProcessor.One a | TextProcessor.Many1 a => hash_free_atom a end.
Definition not_hash (c : ascii) : bool := negb (Ascii.eqb c "#").


(** What the local store holds under a normalized id. *)
Definition local_lookup (self : TicketRetriever.retriever) (ticket_id : string)
    : option TicketRetriever.ticket :=
  match TicketRetriever.file self with
  | TicketRetriever.Stored tickets => TicketRetriever.find_local tickets ticket_id
  | _ => None
  end.

(** The URL of the single remote request. *)
Definition issue_url (self : TicketRetriever.retriever) (ticket_id : string) : string :=
  TicketRetriever.api_url self +:+ "/rest/api/2/issue/" +:+ ticket_id.

(** The three shapes of a remote failure: credentials are missing, the
    response has a status other than 200, or the request raises a
    [RequestException]. *)
Inductive remote_failure (self : TicketRetriever.retriever) (ticket_id : string) : Prop :=
| missing_credentials :
    TicketRetriever.falsy_str (TicketRetriever.username self)
    || TicketRetriever.falsy_str (TicketRetriever.api_token self) = true ->
    remote_failure self ticket_id
| non_200_response resp :
    TicketRetriever.requests_get self (issue_url self ticket_id) = Returned resp ->
    TicketRetriever.status_code resp <> 200 ->
    remote_failure self ticket_id
| transport_error e :
    TicketRetriever.requests_get self (issue_url self ticket_id)
    = Raised (RequestException e) ->
    remote_failure self ticket_id.

Definition warning_or_error (entry : level * string) : Prop :=
  entry.1 = WARNING \/ entry.1 = ERROR.

(** The dict without any key. *)
Definition empty_article : KnowledgeBase.article :=
  {| KnowledgeBase.ident := None; KnowledgeBase.title := None;
     KnowledgeBase.content := None; KnowledgeBase.category := None;
     KnowledgeBase.tags := None; KnowledgeBase.keywords := None;
     KnowledgeBase.relevance_score := None |}.

(** The dict that a reference leads to. *)
Definition deref (h : gmap KnowledgeBase.loc KnowledgeBase.obj)
    (l : KnowledgeBase.loc) : KnowledgeBase.article :=
  default empty_article (KnowledgeBase.dict_of h l).

(** Every reference held by the store leads to an object of the heap. *)
Definition no_dangling (s : KnowledgeBase.kb) : Prop :=
  KnowledgeBase._articles s ∈ dom (KnowledgeBase.heap s)
  /\ Forall (fun l => l ∈ dom (KnowledgeBase.heap s))
            (KnowledgeBase.items_of (KnowledgeBase.heap s)
                                    (KnowledgeBase._articles s)).

(** The string made of [n] times the character [c]. *)
Fixpoint repeat_char (n : nat) (c : ascii) : string :=
  match n with
  | O => EmptyString
  | S n' => String c (repeat_char n' c)
  end.

(** An article that has only a content. *)
Definition article_with_content (content_ : string) : KnowledgeBase.article :=
  {| KnowledgeBase.ident := None; KnowledgeBase.title := None;
     KnowledgeBase.content := Some content_; KnowledgeBase.category := None;
     KnowledgeBase.tags := None; KnowledgeBase.keywords := None;
     KnowledgeBase.relevance_score := None |}.

(** A retriever over the seeded local file, with the given credentials and
    remote system. *)
Definition seeded_retriever (user token : option string)
    (remote : string -> outcome TicketRetriever.response)
    : TicketRetriever.retriever :=
  {| TicketRetriever.api_url := TICKET_SYSTEM_URL default_config;
     TicketRetriever.username := user;
     TicketRetriever.api_token := token;
     TicketRetriever.file := TicketRetriever.Stored TicketRetriever.sample_tickets;
     TicketRetriever.requests_get := remote |}.

(** [spaced prev s]: every whitespace character of [s] is a blank that does
    not follow another one; [prev] tells that a blank stands before [s]. *)
Fixpoint spaced (prev : bool) (s : string) : bool :=
  match s with
  | EmptyString => true
  | String c s' =>
      if TextProcessor.is_space c
      then Ascii.eqb c " " && negb prev && spaced true s'
      else spaced false s'
  end.

Fixpoint last_is_space (s : string) : bool :=
  match s with
  | EmptyString => false
  | String c EmptyString => TextProcessor.is_space c
  | String _ s' => last_is_space s'
  end.

(** A cleaned text: words separated by single blanks, no whitespace at
    either end. *)
Definition is_clean (s : string) : bool :=
  spaced true s && negb (last_is_space s).

Definition not_space (c : ascii) : bool := negb (TextProcessor.is_space c).

(** The shape LETTERS-DIGITS in upper case. *)
Definition is_jira_reference (r : string) : Prop :=
  exists letters digits,
    r = letters +:+ "-" +:+ digits
    /\ letters <> "" /\ digits <> ""
    /\ all_chars TextProcessor.is_upper letters = true
    /\ all_chars TextProcessor.is_digit digits = true.

(** A bare number. *)
Definition is_number_reference (r : string) : Prop :=
  r <> "" /\ all_chars TextProcessor.is_digit r = true.

(** The arguments of one call of [add_article]. *)
Record article_spec : Type := {
  spec_title : string;
  spec_content : string;
  spec_category : string;
  spec_tags : option (list string)
}.

(** The store after the calls [add_article(...)] for [specs], in order, on
    the store [articles]. *)
Definition add_articles (articles : list KnowledgeBase.article)
    (specs : list article_spec) : list KnowledgeBase.article :=
  fold_left
    (fun store a =>
       KnowledgeBase.add_article store (spec_title a) (spec_content a)
                                 (spec_category a) (spec_tags a))
    specs articles.

(** What one file contributes to the loaded store, and the log line written
    for it. *)
Definition file_articles (content : KnowledgeBase.json_file)
    : list KnowledgeBase.article :=
  match content with
  | KnowledgeBase.ArticleList articles => articles
  | KnowledgeBase.ArticleDict a => [a]
  | _ => []
  end.

Definition file_log_entry (file : string * KnowledgeBase.json_file)
    : level * string :=
  match file.2 with
  | KnowledgeBase.Unparseable e =>
      (ERROR, "Error loading " +:+ file.1 +:+ ": " +:+ e)
  | _ => (DEBUG, "Loaded articles from " +:+ file.1)
  end.

Definition is_unparseable (content : KnowledgeBase.json_file) : bool :=
  match content with
  | KnowledgeBase.Unparseable _ => true
  | _ => false
  end.

(** A key that does not hold [null]. *)
Definition not_null {A : Type} (f : TicketRetriever.json_field A) : bool :=
  match f with
  | TicketRetriever.Null => false
  | _ => true
  end.

(** A remote issue in which no object read by the transformation is [null]:
    neither ["fields"], nor the status, priority, assignee, reporter and
    comment objects, nor the list of comments, nor the author of a
    comment. *)
Definition comments_ok
    (f : TicketRetriever.json_field (list TicketRetriever.jira_comment)) : bool :=
  match f with
  | TicketRetriever.Absent => true
  | TicketRetriever.Null => false
  | TicketRetriever.Value cs =>
      forallb (fun c => not_null (TicketRetriever.jira_comment_author c)) cs
  end.

Definition comment_page_ok
    (f : TicketRetriever.json_field TicketRetriever.jira_comment_page) : bool :=
  match f with
  | TicketRetriever.Absent => true
  | TicketRetriever.Null => false
  | TicketRetriever.Value page => comments_ok (TicketRetriever.jira_comments page)
  end.

Definition fields_ok (f : TicketRetriever.jira_fields) : bool :=
  not_null (TicketRetriever.jira_status f)
  && not_null (TicketRetriever.jira_priority f)
  && not_null (TicketRetriever.jira_assignee f)
  && not_null (TicketRetriever.jira_reporter f)
  && comment_page_ok (TicketRetriever.jira_comment_field f).

Definition issue_ok (d : TicketRetriever.jira_issue) : bool :=
  match TicketRetriever.jira_issue_fields d with
  | TicketRetriever.Absent => true
  | TicketRetriever.Null => false
  | TicketRetriever.Value f => fields_ok f
  end.

(** Every key of the internal ticket shape is present. *)
Definition complete_ticket (t : TicketRetriever.ticket) : Prop :=
  is_Some (TicketRetriever.ident t) /\ is_Some (TicketRetriever.title t)
  /\ is_Some (TicketRetriever.description t) /\ is_Some (TicketRetriever.status t)
  /\ is_Some (TicketRetriever.priority t) /\ is_Some (TicketRetriever.assignee t)
  /\ is_Some (TicketRetriever.reporter t) /\ is_Some (TicketRetriever.created_date t)
  /\ is_Some (TicketRetriever.updated_date t) /\ is_Some (TicketRetriever.comments t).

(** An unassigned issue as the remote system reports it. *)
Definition unassigned_issue : TicketRetriever.jira_issue :=
  {| TicketRetriever.jira_key := Some "PROJ-2001";
     TicketRetriever.jira_issue_fields :=
       TicketRetriever.Value
         {| TicketRetriever.jira_summary := Some "Printer on fire";
            TicketRetriever.jira_description := None;
            TicketRetriever.jira_status :=
              TicketRetriever.Value {| TicketRetriever.name := Some "Open" |};
            TicketRetriever.jira_priority := TicketRetriever.Absent;
            TicketRetriever.jira_assignee := TicketRetriever.Null;
            TicketRetriever.jira_reporter := TicketRetriever.Absent;
            TicketRetriever.jira_created := None;
            TicketRetriever.jira_updated := None;
            TicketRetriever.jira_comment_field := TicketRetriever.Absent |} |}.

(** Successive calls of [process_query] with the same conversation id
    argument, each with its clock and its query; the run stops at the first
    call that raises. *)
Fixpoint process_queries (cfg : Config) (self : CustomerSupportAgent.agent)
    (calls : list (CustomerSupportAgent.clock * string))
    (conversation_id_ : option string)
    : M CustomerSupportAgent.agent :=
  match calls with
  | [] => mret self
  | (now, query) :: rest =>
      r ← CustomerSupportAgent.process_query cfg now self query conversation_id_;
      process_queries cfg r.2 rest conversation_id_
  end.

Definition greeting : string :=
  "Hello! I'm your customer support agent. How can I help you today?".

Definition closing : string :=
  CustomerSupportAgent.nl +:+ "---" +:+ CustomerSupportAgent.nl
  +:+ "Is there anything else I can help you with?".

(** An agent over an empty knowledge base and the seeded tickets, without
    credentials. *)
Definition fresh_agent : CustomerSupportAgent.agent :=
  {| CustomerSupportAgent.knowledge_base := [];
     CustomerSupportAgent.ticket_retriever :=
       seeded_retriever None None (fun _ => Raised (RequestException "offline"));
     CustomerSupportAgent.conversation_history := [] |}.

Definition noon : CustomerSupportAgent.clock :=
  {| CustomerSupportAgent.now_timestamp := "1705314600.0";
     CustomerSupportAgent.now_isoformat := "2024-01-15T10:30:00" |}.

(** Text of ASCII characters, on which the case mappings of the model are
    those of [str.lower] and [str.upper]. *)
Definition is_ascii (c : ascii) : bool := (TextProcessor.code c <? 128)%N.
Definition ascii_text (s : string) : bool := all_chars is_ascii s.

(** The history entry that goes with a returned dict. *)
Definition entry_of (query : string) (r : CustomerSupportAgent.response_data)
    : CustomerSupportAgent.conversation_entry :=
  {| CustomerSupportAgent.timestamp := CustomerSupportAgent.response_timestamp r;
     CustomerSupportAgent.user_query := query;
     CustomerSupportAgent.agent_response := CustomerSupportAgent.response r;
     CustomerSupportAgent.ticket_reference :=
       TextProcessor.extract_ticket_reference query;
     CustomerSupportAgent.conversation_id :=
       CustomerSupportAgent.response_conversation_id r |}.

(** The source that a found ticket contributes. *)
Definition ticket_source (ticket_ref : string)
    (t : option TicketRetriever.ticket) : list CustomerSupportAgent.source :=
  match t with
  | Some d =>
      if TicketRetriever.truthy t
      then [ {| CustomerSupportAgent.source_type := "ticket";
                CustomerSupportAgent.source_id := ticket_ref;
                CustomerSupportAgent.source_title :=
                  default "" (TicketRetriever.title d) |} ]
      else []
  | None => []
  end.

(** An agent whose remote system answers every request with the unassigned
    issue. *)
Definition remote_agent : CustomerSupportAgent.agent :=
  {| CustomerSupportAgent.knowledge_base := [];
     CustomerSupportAgent.ticket_retriever :=
       seeded_retriever (Some "user") (Some "token")
         (fun _ => Returned (TicketRetriever.jira_response 200
                               (Returned unassigned_issue)));
     CustomerSupportAgent.conversation_history := [] |}.

(** The dict that [process_query] returns when step 1 ends with the ticket
    [t]. *)
Definition answer (cfg : Config) (now : CustomerSupportAgent.clock)
    (self : CustomerSupportAgent.agent) (query : string) (cid : option string)
    (t : option TicketRetriever.ticket) : CustomerSupportAgent.response_data :=
  let knowledge_results :=
    KnowledgeBase.search cfg (CustomerSupportAgent.knowledge_base self) query None in
  {| CustomerSupportAgent.response :=
       CustomerSupportAgent._generate_response
         (length (CustomerSupportAgent.conversation_history self)) query t
         knowledge_results;
     CustomerSupportAgent.ticket_details := t;
     CustomerSupportAgent.knowledge_base_results := take 3 knowledge_results;
     CustomerSupportAgent.response_conversation_id :=
       CustomerSupportAgent.conversation_id_or cid now;
     CustomerSupportAgent.response_timestamp :=
       CustomerSupportAgent.now_isoformat now;
     CustomerSupportAgent.sources :=
       ticket_source (TextProcessor.extract_ticket_reference query) t
       ++ map CustomerSupportAgent.kb_source (take 3 knowledge_results) |}.

(** * Properties *)

(** ** The stable descending sort *)

Section StableSortFacts.
Context {A : Type}.
Variable lt : A -> A -> bool.
Hypothesis lt_asym : forall x y, lt x y = true -> lt y x = false.
Hypothesis lt_negtrans :
  forall x y z, lt x y = false -> lt y z = false -> lt x z = false.

Lemma lt_trans_l x y z : lt x y = true -> lt z y = false -> lt x z = true.
Proof.
  intros Hxy Hzy. destruct (lt x z) eqn:E; [done|].
  rewrite (lt_negtrans x z y E Hzy) in Hxy. discriminate.
Qed.

Lemma insert_desc_perm x l : Permutation (insert_desc lt x l) (x :: l).
Proof.
  induction l as [|y l IH]; simpl; [done|].
  destruct (lt x y); [|done].
  rewrite IH. apply perm_swap.
Qed.

Lemma sort_desc_perm l : Permutation (sort_desc lt l) l.
Proof.
  induction l as [|x l IH]; simpl; [done|].
  rewrite insert_desc_perm. by constructor.
Qed.

Lemma sort_desc_In x l : In x (sort_desc lt l) <-> In x l.
Proof.
  split; apply Permutation_in; [|symmetry]; apply sort_desc_perm.
Qed.

Lemma sort_desc_length l : length (sort_desc lt l) = length l.
Proof. apply Permutation_length, sort_desc_perm. Qed.

Lemma insert_desc_sorted x l :
  StronglySorted (geq lt) l -> StronglySorted (geq lt) (insert_desc lt x l).
Proof.
  induction 1 as [|y l Hs IH Hall]; simpl.
  - repeat constructor.
  - destruct (lt x y) eqn:E.
    + constructor; [done|].
      apply List.Forall_forall. intros z Hz.
      apply (Permutation_in _ (insert_desc_perm x l)) in Hz as [<-|Hz].
      * by apply lt_asym.
      * rewrite List.Forall_forall in Hall. by apply Hall.
    + constructor; [by constructor|].
      constructor; [done|].
      eapply List.Forall_impl; [|exact Hall].
      intros z Hz. by apply (lt_negtrans x y z).
Qed.

Lemma sort_desc_sorted l : StronglySorted (geq lt) (sort_desc lt l).
Proof.
  induction l as [|x l IH]; simpl; [constructor|].
  by apply insert_desc_sorted.
Qed.

(** Ties are an equivalence. *)
Lemma tieb_trans x y z :
  tieb lt x y = true -> tieb lt y z = true -> tieb lt x z = true.
Proof.
  unfold tieb. rewrite !andb_true_iff, !negb_true_iff.
  intros [H1 H2] [H3 H4]. split; eauto.
Qed.

Lemma tieb_sym x y : tieb lt x y = tieb lt y x.
Proof. unfold tieb. apply andb_comm. Qed.

(** Inserting [x] leaves every class of ties in its order and puts [x] at
    the head of its own. *)
Lemma insert_desc_stable k x l :
  List.filter (tieb lt k) (insert_desc lt x l)
  = List.filter (tieb lt k) (x :: l).
Proof.
  induction l as [|y l IH]; [done|].
  cbn [insert_desc]. destruct (lt x y) eqn:E; [|done].
  cbn [List.filter] in *. rewrite IH.
  destruct (tieb lt k x) eqn:Ex; [|done].
  destruct (tieb lt k y) eqn:Ey; [|done].
  exfalso.
  rewrite tieb_sym in Ex.
  pose proof (tieb_trans _ _ _ Ex Ey) as Hxy.
  unfold tieb in Hxy. rewrite E in Hxy. discriminate.
Qed.

Lemma sort_desc_stable k l :
  List.filter (tieb lt k) (sort_desc lt l) = List.filter (tieb lt k) l.
Proof.
  induction l as [|x l IH]; [done|].
  cbn [sort_desc foldr]. rewrite insert_desc_stable.
  cbn [List.filter]. fold (sort_desc lt l). by rewrite IH.
Qed.

(** Inserting into the front part of a list, when the insertion stops
    there. *)
Lemma insert_desc_app_stop a s1 x s2 :
  lt a x = false ->
  insert_desc lt a (s1 ++ x :: s2) = insert_desc lt a s1 ++ x :: s2.
Proof.
  intros Hax. induction s1 as [|y s1 IH]; simpl.
  - by rewrite Hax.
  - destruct (lt a y); [by rewrite IH|done].
Qed.

Lemma insert_desc_app_skip a s1 x s2 :
  Forall (fun y => lt a y = true) s1 -> lt a x = true ->
  insert_desc lt a (s1 ++ x :: s2) = s1 ++ x :: insert_desc lt a s2.
Proof.
  intros Hall Hax. induction Hall as [|y s1 Hy _ IH]; simpl.
  - by rewrite Hax.
  - by rewrite Hy, IH.
Qed.

(** Where the last element of the input lands: after the elements it does
    not beat, before the elements it beats. *)
Lemma sort_desc_snoc l x :
  sort_desc lt (l ++ [x])
  = sort_desc lt (List.filter (fun a => negb (lt a x)) l)
    ++ x :: sort_desc lt (List.filter (fun a => lt a x) l).
Proof.
  induction l as [|a l IH]; [done|].
  cbn [app sort_desc foldr List.filter].
  fold (sort_desc lt (l ++ [x])). rewrite IH.
  destruct (lt a x) eqn:E; cbn [negb].
  - rewrite insert_desc_app_skip; [done| |done].
    apply List.Forall_forall. intros y Hy.
    apply sort_desc_In, filter_In in Hy as [_ Hy].
    apply negb_true_iff in Hy. by apply (lt_trans_l a x y).
  - by rewrite insert_desc_app_stop.
Qed.
End StableSortFacts.

(** Sorting commutes with a map that respects the keys. *)
Lemma sort_desc_map {A B : Type} (lt1 : A -> A -> bool) (lt2 : B -> B -> bool)
    (f : A -> B) (l : list A) :
  (forall a b, In a l -> In b l -> lt1 a b = lt2 (f a) (f b)) ->
  map f (sort_desc lt1 l) = sort_desc lt2 (map f l).
Proof.
  induction l as [|x l IH]; intros Hk; [done|].
  cbn [sort_desc foldr map].
  fold (sort_desc lt1 l). fold (sort_desc lt2 (map f l)).
  rewrite <- IH by (intros; apply Hk; by right).
  assert (Hin : forall y, In y (sort_desc lt1 l) -> In y l)
    by (intros y; apply sort_desc_In).
  revert Hin. generalize (sort_desc lt1 l).
  intros s. induction s as [|y s IHs]; intros Hin; [done|].
  cbn [insert_desc map].
  rewrite <- (Hk x y); [|by left|right; apply Hin; by left].
  destruct (lt1 x y); [|done].
  cbn [map]. rewrite IHs; [done|]. intros z Hz. apply Hin. by right.
Qed.

(** ** Strings *)

Section StringFacts.
Import TextProcessor.

Lemma app_cons c s t : String c s +:+ t = String c (s +:+ t).
Proof. reflexivity. Qed.

Lemma app_empty_l s : "" +:+ s = s.
Proof. reflexivity. Qed.

Lemma app_empty_r s : s +:+ "" = s.
Proof. induction s as [|c s IH]; [done|]. by rewrite app_cons, IH. Qed.

Lemma app_assoc_str s t u : (s +:+ t) +:+ u = s +:+ t +:+ u.
Proof. induction s as [|c s IH]; [done|]. by rewrite !app_cons, IH. Qed.

Lemma len_app s t : len (s +:+ t) = (len s + len t)%nat.
Proof.
  induction s as [|c s IH]; [done|].
  rewrite app_cons. unfold len in *. simpl. by rewrite IH.
Qed.

Lemma all_chars_app p s t :
  all_chars p (s +:+ t) = all_chars p s && all_chars p t.
Proof.
  induction s as [|c s IH]; [done|].
  rewrite app_cons. simpl. by rewrite IH, andb_assoc.
Qed.

Lemma all_chars_impl (p q : ascii -> bool) s :
  (forall c, p c = true -> q c = true) ->
  all_chars p s = true -> all_chars q s = true.
Proof.
  intros Hpq. induction s as [|c s IH]; [done|]. simpl.
  rewrite !andb_true_iff. intros [? ?]. auto.
Qed.

Lemma lower_char_not_upper c : not_upper (lower_char c) = true.
Proof. by destruct c as [[] [] [] [] [] [] [] []]. Qed.

Lemma lower_char_id c : not_upper c = true -> lower_char c = c.
Proof.
  unfold not_upper, lower_char. by destruct (is_upper c).
Qed.

Lemma lower_not_upper s : all_chars not_upper (lower s) = true.
Proof.
  induction s as [|c s IH]; [done|]. simpl.
  by rewrite lower_char_not_upper, IH.
Qed.

Lemma lower_id s : all_chars not_upper s = true -> lower s = s.
Proof.
  induction s as [|c s IH]; [done|]. simpl.
  rewrite andb_true_iff. intros [Hc Hs].
  by rewrite lower_char_id, IH.
Qed.

Lemma lower_idemp s : lower (lower s) = lower s.
Proof. apply lower_id, lower_not_upper. Qed.

Lemma lower_app s t : lower (s +:+ t) = lower s +:+ lower t.
Proof.
  induction s as [|c s IH]; [done|].
  rewrite app_cons. simpl. by rewrite IH.
Qed.


Lemma is_space_lower_char c : is_space (lower_char c) = is_space c.
Proof. by destruct c as [[] [] [] [] [] [] [] []]. Qed.

Lemma is_word_lower_char c : is_word (lower_char c) = is_word c.
Proof. by destruct c as [[] [] [] [] [] [] [] []]. Qed.

Lemma space_not_word c : is_space c = true -> is_word c = false.
Proof. by destruct c as [[] [] [] [] [] [] [] []]. Qed.

(** *** Tokens *)

Lemma flush_nonempty c s : flush (String c s) = [String c s].
Proof. reflexivity. Qed.

(** Reading a run of word characters only extends the current token. *)
Lemma findall_go_run cur w s :
  all_chars is_word w = true ->
  findall_go cur (w +:+ s) = findall_go (cur +:+ w) s.
Proof.
  revert cur. induction w as [|c w IH]; intros cur Hw.
  - by rewrite app_empty_l, app_empty_r.
  - simpl in Hw. apply andb_true_iff in Hw as [Hc Hw].
    rewrite app_cons. cbn [findall_go]. rewrite Hc, IH by done.
    by rewrite app_assoc_str.
Qed.

(** A character that is not a word character ends the current token. *)
Lemma findall_go_sep cur c s :
  is_word c = false ->
  findall_go cur (String c s) = flush cur ++ findall_words s.
Proof. intros Hc. cbn [findall_go]. by rewrite Hc. Qed.

Lemma findall_go_split cur a c b :
  is_word c = false ->
  findall_go cur (a +:+ String c b) = findall_go cur a ++ findall_words b.
Proof.
  intros Hc. revert cur. induction a as [|x a IH]; intros cur.
  - rewrite app_empty_l. by apply findall_go_sep.
  - rewrite app_cons. cbn [findall_go]. destruct (is_word x).
    + apply IH.
    + by rewrite IH, app_assoc.
Qed.

(** The tokens of two texts joined by a space are the tokens of the one
    followed by the tokens of the other. *)
Lemma findall_words_space a b :
  findall_words (a +:+ " " +:+ b) = findall_words a ++ findall_words b.
Proof. by apply findall_go_split. Qed.

Lemma findall_words_word w :
  w <> "" -> all_chars is_word w = true -> findall_words w = [w].
Proof.
  intros Hne Hw. unfold findall_words.
  rewrite <- (app_empty_r w) at 1. rewrite findall_go_run by done.
  rewrite app_empty_l. by destruct w.
Qed.

Lemma findall_words_join ws :
  Forall is_token ws -> findall_words (join " " ws) = ws.
Proof.
  induction 1 as [|w ws [Hne Hw] Hws IH]; [done|].
  destruct ws as [|w' ws].
  - by apply findall_words_word.
  - change (join " " (w :: w' :: ws)) with (w +:+ " " +:+ join " " (w' :: ws)).
    rewrite findall_words_space, IH. by rewrite findall_words_word.
Qed.

Lemma findall_go_tokens p cur s :
  all_chars is_word cur = true ->
  all_chars p cur = true -> all_chars p s = true ->
  Forall (fun w => is_token w /\ all_chars p w = true) (findall_go cur s).
Proof.
  revert cur. induction s as [|c s IH]; intros cur Hw Hp Hs.
  - destruct cur; [constructor|]. repeat constructor; done.
  - simpl in Hs. apply andb_true_iff in Hs as [Hc Hs].
    cbn [findall_go]. destruct (is_word c) eqn:Ec.
    + apply IH; [| |done]; rewrite all_chars_app; simpl;
        rewrite ?Hw, ?Hp, ?Hc, ?Ec; done.
    + apply Forall_app. split; [|by apply IH].
      destruct cur; [constructor|]. repeat constructor; done.
Qed.

Lemma findall_words_tokens p s :
  all_chars p s = true ->
  Forall (fun w => is_token w /\ all_chars p w = true) (findall_words s).
Proof. intros. by apply findall_go_tokens. Qed.

Lemma lower_join_space ws : lower (join " " ws) = join " " (map lower ws).
Proof.
  induction ws as [|w ws IH]; [done|].
  destruct ws as [|w' ws]; [done|].
  change (join " " (w :: w' :: ws)) with (w +:+ " " +:+ join " " (w' :: ws)).
  rewrite !lower_app, IH. reflexivity.
Qed.
End StringFacts.

(** ** Counters and keyword extraction *)

Section KeywordFacts.
Import TextProcessor.

Lemma List_filter_sublist {A} (p : A -> bool) l : List.filter p l `sublist_of` l.
Proof.
  induction l as [|x l IH]; simpl; [constructor|].
  destruct (p x); by constructor.
Qed.

Lemma sublist_List_filter {A} (p : A -> bool) l1 l2 :
  l1 `sublist_of` l2 -> List.filter p l1 `sublist_of` List.filter p l2.
Proof.
  induction 1 as [|x l1 l2 _ IH|x l1 l2 _ IH]; simpl.
  - constructor.
  - destruct (p x); [by constructor|done].
  - destruct (p x); [by constructor|done].
Qed.

Lemma Before_In {A} (x y : A) l : Before x y l -> In x l /\ In y l.
Proof.
  intros H. split; apply list_elem_of_In;
    eapply elem_of_sublist; try exact H; set_solver.
Qed.

Lemma Before_snoc {A} (x y z : A) l :
  Before x y (l ++ [z]) -> Before x y l \/ (In x l /\ y = z).
Proof.
  unfold Before. intros H.
  apply sublist_app_r in H as (k1 & k2 & Hk & H1 & H2).
  destruct k2 as [|a k2].
  - left. rewrite app_nil_r in Hk. by subst.
  - apply sublist_cons_l in H2 as (m1 & m2 & Hm & H2).
    destruct m1 as [|b m1]; [|by destruct m1].
    simpl in Hm. injection Hm as <- <-.
    apply sublist_nil_r in H2 as ->.
    destruct k1 as [|c k1]; [done|].
    destruct k1; [|by destruct k1].
    simpl in Hk. injection Hk as <- <-.
    right. split; [|done]. apply list_elem_of_In.
    eapply elem_of_sublist; [|exact H1]. set_solver.
Qed.

Lemma Before_fmap {A B} (f : A -> B) x y l :
  Before x y (map f l) ->
  exists a b, x = f a /\ y = f b /\ Before a b l.
Proof.
  unfold Before. induction l as [|c l IH]; simpl; intros H.
  - by apply sublist_nil_r in H.
  - apply sublist_cons_r in H as [H|(k & Hk & H)].
    + destruct (IH H) as (a & b & -> & -> & Hab).
      exists a, b. repeat split; try done. by constructor.
    + injection Hk as -> <-.
      apply singleton_sublist_l, list_elem_of_In, in_map_iff in H
        as (b & <- & Hb).
      exists c, b. repeat split; try done.
      constructor. apply singleton_sublist_l. by apply list_elem_of_In.
Qed.

(** *** [first_index] and [first_occurrences] *)

Lemma first_index_lt w ws : In w ws -> (first_index w ws < length ws)%nat.
Proof.
  induction ws as [|x ws IH]; simpl; [done|].
  intros Hin. destruct (String.eqb_spec x w); [lia|].
  destruct Hin; [done|]. specialize (IH H). lia.
Qed.

Lemma first_index_app_l w ws r :
  In w ws -> first_index w (ws ++ r) = first_index w ws.
Proof.
  induction ws as [|x ws IH]; simpl; [done|].
  intros Hin. destruct (String.eqb_spec x w); [done|].
  destruct Hin; [done|]. by rewrite IH.
Qed.

Lemma first_index_snoc_new w ws :
  ~ In w ws -> first_index w (ws ++ [w]) = length ws.
Proof.
  induction ws as [|x ws IH]; simpl.
  - by rewrite String.eqb_refl.
  - intros Hin. destruct (String.eqb_spec x w); [tauto|].
    rewrite IH; tauto.
Qed.

Lemma first_occurrences_snoc ws w :
  first_occurrences (ws ++ [w])
  = if in_dec String.string_dec w ws then first_occurrences ws
    else first_occurrences ws ++ [w].
Proof.
  unfold first_occurrences. rewrite rev_app_distr. simpl.
  destruct (in_dec String.string_dec w (rev ws)) as [Hin|Hin];
    destruct (in_dec String.string_dec w ws) as [Hin'|Hin']; try done.
  - by apply in_rev in Hin.
  - by apply in_rev in Hin'.
Qed.

Lemma first_occurrences_In w ws : In w (first_occurrences ws) <-> In w ws.
Proof.
  unfold first_occurrences.
  rewrite <- in_rev, nodup_In, <- in_rev. done.
Qed.

Lemma first_occurrences_NoDup ws : List.NoDup (first_occurrences ws).
Proof.
  unfold first_occurrences. apply NoDup_rev, NoDup_nodup.
Qed.

Lemma first_occurrences_fixed ws :
  List.NoDup ws -> first_occurrences ws = ws.
Proof.
  intros H. unfold first_occurrences.
  rewrite nodup_fixed_point by (by apply NoDup_rev).
  apply rev_involutive.
Qed.

Lemma first_occurrences_order ws k1 k2 :
  Before k1 k2 (first_occurrences ws) ->
  (first_index k1 ws < first_index k2 ws)%nat.
Proof.
  induction ws as [|w ws IH] using rev_ind; intros H.
  - by apply sublist_nil_r in H.
  - rewrite first_occurrences_snoc in H.
    destruct (in_dec String.string_dec w ws) as [Hin|Hin].
    + pose proof (Before_In _ _ _ H) as [H1 H2].
      rewrite first_occurrences_In in H1, H2.
      rewrite !first_index_app_l by done. by apply IH.
    + apply Before_snoc in H as [H|[H1 ->]].
      * pose proof (Before_In _ _ _ H) as [H1 H2].
        rewrite first_occurrences_In in H1, H2.
        rewrite !first_index_app_l by done. by apply IH.
      * rewrite first_occurrences_In in H1.
        rewrite first_index_app_l, first_index_snoc_new by done.
        by apply first_index_lt.
Qed.

(** *** [Counter] *)

Lemma Counter_snoc ws w : Counter (ws ++ [w]) = counter_incr w (Counter ws).
Proof. unfold Counter. by rewrite fold_left_app. Qed.

Lemma counter_incr_known (f : string -> nat) w us :
  List.NoDup us -> In w us ->
  counter_incr w (map (fun k => (k, f k)) us)
  = map (fun k => (k, if String.eqb k w then S (f k) else f k)) us.
Proof.
  induction 1 as [|k us Hk Hus IH]; [done|]. intros Hin.
  cbn [map counter_incr]. destruct (String.eqb_spec k w) as [->|Hne].
  - f_equal. apply map_ext_in. intros k Hkin.
    destruct (String.eqb_spec k w) as [->|]; done.
  - destruct Hin as [|Hin]; [done|]. by rewrite IH.
Qed.

Lemma counter_incr_new (f : string -> nat) w us :
  ~ In w us ->
  counter_incr w (map (fun k => (k, f k)) us)
  = map (fun k => (k, f k)) us ++ [(w, 1%nat)].
Proof.
  induction us as [|k us IH]; [done|]. intros Hin.
  cbn [map counter_incr]. destruct (String.eqb_spec k w) as [->|Hne].
  - exfalso. apply Hin. by left.
  - rewrite IH; [done|]. intros ?. apply Hin. by right.
Qed.

Lemma frequency_snoc ws w k :
  frequency (ws ++ [w]) k
  = if String.eqb k w then S (frequency ws k) else frequency ws k.
Proof.
  unfold frequency. rewrite count_occ_app. simpl.
  destruct (String.string_dec w k) as [->|Hne].
  - rewrite String.eqb_refl. lia.
  - destruct (String.eqb_spec k w); [congruence|lia].
Qed.

(** A [Counter] lists the distinct words in the order of their first
    occurrence, each with its number of occurrences. *)
Lemma Counter_spec ws :
  Counter ws = map (fun k => (k, frequency ws k)) (first_occurrences ws).
Proof.
  induction ws as [|w ws IH] using rev_ind; [done|].
  rewrite Counter_snoc, IH, first_occurrences_snoc.
  destruct (in_dec String.string_dec w ws) as [Hin|Hin].
  - rewrite counter_incr_known.
    + apply map_ext. intros k. by rewrite frequency_snoc.
    + apply first_occurrences_NoDup.
    + by apply first_occurrences_In.
  - rewrite counter_incr_new by (by rewrite first_occurrences_In).
    rewrite map_app. cbn [map]. f_equal.
    + apply map_ext_in. intros k Hk. rewrite frequency_snoc.
      destruct (String.eqb_spec k w) as [->|]; [|done].
      by rewrite first_occurrences_In in Hk.
    + rewrite frequency_snoc, String.eqb_refl.
      unfold frequency. by rewrite (proj1 (count_occ_not_In String.string_dec ws w) Hin).
Qed.

Lemma count_lt_asym x y : count_lt x y = true -> count_lt y x = false.
Proof.
  unfold count_lt. rewrite Nat.ltb_lt, Nat.ltb_ge. lia.
Qed.

Lemma count_lt_negtrans x y z :
  count_lt x y = false -> count_lt y z = false -> count_lt x z = false.
Proof. unfold count_lt. rewrite !Nat.ltb_ge. lia. Qed.

(** A list without two elements in strict order is already sorted. *)
Lemma sort_desc_all_tied {A} (lt : A -> A -> bool) l :
  (forall x y, In x l -> In y l -> lt x y = false) -> sort_desc lt l = l.
Proof.
  induction l as [|x l IH]; intros H; [done|].
  cbn [sort_desc foldr]. fold (sort_desc lt l).
  rewrite IH by (intros; apply H; by right).
  destruct l as [|y l]; [done|]. simpl.
  rewrite H; [done|by left|right; by left].
Qed.
End KeywordFacts.

Section KeywordTheorems.
Import TextProcessor.

Lemma sorted_Before {A} (R : A -> A -> Prop) x y l :
  StronglySorted R l -> Before x y l -> R x y.
Proof.
  unfold Before. induction 1 as [|a l Hs IH Hall]; intros H.
  - by apply sublist_nil_r in H.
  - apply sublist_cons_r in H as [H|(k & Hk & H)]; [by apply IH|].
    injection Hk as -> <-.
    apply singleton_sublist_l, list_elem_of_In in H.
    rewrite List.Forall_forall in Hall. by apply Hall.
Qed.

Lemma Before_List_filter {A} (p : A -> bool) x y l :
  Before x y l -> p x = true -> p y = true -> Before x y (List.filter p l).
Proof.
  unfold Before. intros H Hx Hy.
  apply (sublist_List_filter p) in H. simpl in H. by rewrite Hx, Hy in H.
Qed.

Lemma Before_of_List_filter {A} (p : A -> bool) x y l :
  Before x y (List.filter p l) -> Before x y l.
Proof.
  unfold Before. intros H. etransitivity; [exact H|].
  apply List_filter_sublist.
Qed.

Lemma List_filter_all {A} (p : A -> bool) l :
  (forall x, In x l -> p x = true) -> List.filter p l = l.
Proof.
  induction l as [|x l IH]; intros H; [done|]. simpl.
  rewrite H by (by left). f_equal. apply IH. intros. apply H. by right.
Qed.

(** The keyword occurrences of a text: its lowercase tokens that are long
    enough and are no stop words. *)
Lemma keywords_kept text min_length w :
  In w (List.filter (keep_word min_length) (findall_words (lower text))) ->
  is_token w /\ all_chars not_upper w = true
  /\ min_length <= Z.of_nat (len w) /\ is_stop_word w = false.
Proof.
  intros [Hin Hkeep]%filter_In.
  pose proof (findall_words_tokens not_upper (lower text)
                (lower_not_upper text)) as Htok.
  rewrite List.Forall_forall in Htok. destruct (Htok w Hin) as [? ?].
  unfold keep_word in Hkeep.
  apply andb_true_iff in Hkeep as [H1 H2].
  apply Z.leb_le in H1. apply negb_true_iff in H2. done.
Qed.

Lemma extract_keywords_members text min_length w :
  In w (extract_keywords text min_length)
  <-> In w (List.filter (keep_word min_length) (findall_words (lower text))).
Proof.
  unfold extract_keywords, most_common.
  set (kws := List.filter _ _).
  rewrite <- (first_occurrences_In w kws).
  assert (Permutation (map fst (sort_desc count_lt (Counter kws)))
                      (first_occurrences kws)) as HP.
  { rewrite sort_desc_perm, Counter_spec, map_map. simpl.
    by rewrite map_id. }
  split; apply Permutation_in; [done|by symmetry].
Qed.

Lemma extract_keywords_NoDup text min_length :
  List.NoDup (extract_keywords text min_length).
Proof.
  unfold extract_keywords, most_common.
  set (kws := List.filter _ _).
  eapply Permutation_NoDup; [|apply (first_occurrences_NoDup kws)].
  symmetry. rewrite sort_desc_perm, Counter_spec, map_map. simpl.
  by rewrite map_id.
Qed.

Lemma extract_keywords_order text min_length w1 w2 :
  let kws := List.filter (keep_word min_length) (findall_words (lower text)) in
  Before w1 w2 (extract_keywords text min_length) ->
  (frequency kws w2 <= frequency kws w1)%nat
  /\ (frequency kws w1 = frequency kws w2 ->
      (first_index w1 kws < first_index w2 kws)%nat).
Proof.
  intros kws. unfold extract_keywords, most_common. fold kws.
  intros (p1 & p2 & -> & -> & Hb)%Before_fmap.
  pose proof (Before_In _ _ _ Hb) as [Hi1 Hi2].
  rewrite sort_desc_In, Counter_spec in Hi1, Hi2.
  apply in_map_iff in Hi1 as (k1 & <- & Hk1).
  apply in_map_iff in Hi2 as (k2 & <- & Hk2).
  cbn [fst].
  pose proof (sorted_Before _ _ _ _
                (sort_desc_sorted count_lt count_lt_asym count_lt_negtrans _)
                Hb) as Hge.
  unfold geq, count_lt in Hge. cbn [snd] in Hge. apply Nat.ltb_ge in Hge.
  split; [done|]. intros Heq.
  apply first_occurrences_order.
  apply (Before_List_filter (tieb count_lt (k1, frequency kws k1))) in Hb.
  - rewrite (sort_desc_stable count_lt count_lt_negtrans) in Hb.
    apply Before_of_List_filter in Hb. rewrite Counter_spec in Hb.
    unfold Before in *.
    apply (fmap_sublist fst) in Hb.
    change (fst <$> ?l) with (map fst l) in Hb.
    rewrite map_map in Hb. simpl in Hb. by rewrite map_id in Hb.
  - unfold tieb, count_lt. cbn [snd]. by rewrite Nat.ltb_irrefl.
  - unfold tieb, count_lt. cbn [snd]. rewrite Heq. by rewrite Nat.ltb_irrefl.
Qed.

(** On a duplicate-free list of kept tokens, [extract_keywords] of the
    space-joined list is the list itself. *)
Lemma extract_keywords_join ws min_length :
  List.NoDup ws ->
  (forall w, In w ws ->
     is_token w /\ all_chars not_upper w = true
     /\ keep_word min_length w = true) ->
  extract_keywords (join " " ws) min_length = ws.
Proof.
  intros Hnd Hws. unfold extract_keywords, most_common.
  rewrite lower_join_space.
  assert (map lower ws = ws) as ->.
  { rewrite <- (map_id ws) at 2. apply map_ext_in.
    intros w Hw. apply lower_id. by apply Hws. }
  rewrite findall_words_join
    by (apply List.Forall_forall; intros w Hw; by apply Hws).
  rewrite List_filter_all by (intros w Hw; by apply Hws).
  rewrite Counter_spec, first_occurrences_fixed by done.
  rewrite sort_desc_all_tied.
  - rewrite map_map. simpl. by rewrite map_id.
  - intros [k1 n1] [k2 n2] (a & [= <- <-] & Ha)%in_map_iff
                            (b & [= <- <-] & Hb)%in_map_iff.
    unfold count_lt, frequency. cbn [snd].
    rewrite !(proj1 (NoDup_count_occ' String.string_dec ws) Hnd) by done.
    done.
Qed.
End KeywordTheorems.

(** C7.  [extract_keywords] is idempotent: applied to the space-joined output
    of [extract_keywords text min_length] it returns that output again, the
    same list and so the same set of tokens.  The output lists, without
    repetition, exactly the kept tokens of the text (lowercase tokens of
    length at least [min_length] that are no stop words), by descending
    frequency, tokens of equal frequency in the order of their first
    occurrence. *)
Theorem extract_keywords_idempotent (text : string) (min_length : Z) :
  let keywords :=
    List.filter (TextProcessor.keep_word min_length)
                (TextProcessor.findall_words (TextProcessor.lower text)) in
  let out := TextProcessor.extract_keywords text min_length in
  TextProcessor.extract_keywords (TextProcessor.join " " out) min_length = out
  /\ List.NoDup out
  /\ (forall w, In w out <-> In w keywords)
  /\ (forall w, In w out ->
        is_token w /\ all_chars not_upper w = true
        /\ min_length <= Z.of_nat (TextProcessor.len w)
        /\ TextProcessor.is_stop_word w = false)
  /\ (forall w1 w2, Before w1 w2 out ->
        (frequency keywords w2 <= frequency keywords w1)%nat
        /\ (frequency keywords w1 = frequency keywords w2 ->
            (first_index w1 keywords < first_index w2 keywords)%nat)).
Proof.
  intros keywords out.
  assert (Hprops : forall w, In w out ->
            is_token w /\ all_chars not_upper w = true
            /\ min_length <= Z.of_nat (TextProcessor.len w)
            /\ TextProcessor.is_stop_word w = false).
  { intros w Hw. apply extract_keywords_members in Hw.
    by apply keywords_kept in Hw. }
  split; [|split; [|split; [|split]]].
  - apply extract_keywords_join; [apply extract_keywords_NoDup|].
    intros w Hw. destruct (Hprops w Hw) as (? & ? & Hlen & Hstop).
    split; [done|]. split; [done|]. unfold TextProcessor.keep_word.
    apply Z.leb_le in Hlen. by rewrite Hlen, Hstop.
  - apply extract_keywords_NoDup.
  - intros w. apply extract_keywords_members.
  - exact Hprops.
  - intros w1 w2. apply extract_keywords_order.
Qed.

(** ** Similarity *)

Section SimilarityFacts.
Import TextProcessor.

Lemma ratio_bounds (n m : nat) :
  (n <= m)%nat -> (0 < m)%nat ->
  (0 <= inject_Z (Z.of_nat n) / inject_Z (Z.of_nat m)
   /\ inject_Z (Z.of_nat n) / inject_Z (Z.of_nat m) <= 1)%Q.
Proof.
  intros Hnm Hm.
  assert (0 < inject_Z (Z.of_nat m))%Q as Hpos.
  { change 0%Q with (inject_Z 0). rewrite <- Zlt_Qlt. lia. }
  split.
  - apply Qle_shift_div_l; [done|]. rewrite Qmult_0_l.
    change 0%Q with (inject_Z 0). rewrite <- Zle_Qle. lia.
  - apply Qle_shift_div_r; [done|]. rewrite Qmult_1_l.
    rewrite <- Zle_Qle. lia.
Qed.

Lemma ratio_self (n : nat) :
  (0 < n)%nat -> (inject_Z (Z.of_nat n) / inject_Z (Z.of_nat n) == 1)%Q.
Proof.
  intros Hn. apply Qmult_inv_r.
  change 0%Q with (inject_Z 0). rewrite inject_Z_injective. lia.
Qed.

Lemma ratio_zero (m : nat) :
  (inject_Z (Z.of_nat 0) / inject_Z (Z.of_nat m) == 0)%Q.
Proof. simpl. unfold Qdiv. by rewrite Qmult_0_l. Qed.

Lemma gset_size_pos (A : gset string) : A <> ∅ -> (0 < size A)%nat.
Proof.
  intros Hne. apply Nat.neq_0_lt_0, size_non_empty_iff.
  intros He. by apply leibniz_equiv in He.
Qed.

Lemma calculate_similarity_unfold a b :
  calculate_similarity a b
  = if bool_decide (keyword_set a = ∅) || bool_decide (keyword_set b = ∅)
    then 0%Q else jaccard (keyword_set a) (keyword_set b).
Proof.
  unfold calculate_similarity, jaccard, keyword_set.
  destruct (bool_decide (list_to_set (keywords_of a) = ∅)) eqn:Ea; [done|].
  destruct (bool_decide (list_to_set (keywords_of b) = ∅)) eqn:Eb; [done|].
  cbn [orb]. rewrite bool_decide_false; [done|].
  apply bool_decide_eq_false in Ea. set_solver.
Qed.

Lemma jaccard_bounds A B : (0 <= jaccard A B /\ jaccard A B <= 1)%Q.
Proof.
  unfold jaccard.
  destruct (decide (A ∪ B = ∅)) as [He|Hne].
  - assert (A ∩ B = ∅) as Hi by set_solver. rewrite Hi, He, size_empty.
    by compute.
  - apply ratio_bounds.
    + apply subseteq_size. set_solver.
    + by apply gset_size_pos.
Qed.

Lemma jaccard_empty_l B : (jaccard ∅ B == 0)%Q.
Proof.
  unfold jaccard. assert (∅ ∩ B = (∅ : gset string)) as -> by set_solver.
  rewrite size_empty. apply ratio_zero.
Qed.

Lemma jaccard_empty_r A : (jaccard A ∅ == 0)%Q.
Proof.
  unfold jaccard. assert (A ∩ ∅ = (∅ : gset string)) as -> by set_solver.
  rewrite size_empty. apply ratio_zero.
Qed.

Lemma jaccard_self A : A <> ∅ -> (jaccard A A == 1)%Q.
Proof.
  intros Hne. unfold jaccard.
  assert (A ∩ A = A) as -> by set_solver.
  assert (A ∪ A = A) as -> by set_solver.
  by apply ratio_self, gset_size_pos.
Qed.

Lemma calculate_similarity_bounds a b :
  (0 <= calculate_similarity a b /\ calculate_similarity a b <= 1)%Q.
Proof.
  rewrite calculate_similarity_unfold.
  destruct (_ || _); [by compute|apply jaccard_bounds].
Qed.
End SimilarityFacts.

(** C3.  [calculate_similarity text1 text2] is the Jaccard index of the
    deduplicated keyword sets of the two texts and lies between 0 and 1; it
    is 0.0 as soon as one of the texts has no keyword, and the similarity of
    a text with itself is 1.0 when the text has a keyword. *)
Theorem calculate_similarity_is_jaccard (text1 text2 : string) :
  (TextProcessor.calculate_similarity text1 text2
   == jaccard (keyword_set text1) (keyword_set text2))%Q
  /\ (0 <= TextProcessor.calculate_similarity text1 text2)%Q
  /\ (TextProcessor.calculate_similarity text1 text2 <= 1)%Q
  /\ (TextProcessor.keywords_of text1 = [] \/ TextProcessor.keywords_of text2 = [] ->
      TextProcessor.calculate_similarity text1 text2 = 0%Q)
  /\ (TextProcessor.keywords_of text1 <> [] ->
      (TextProcessor.calculate_similarity text1 text1 == 1)%Q).
Proof.
  split; [|split; [|split; [|split]]].
  - rewrite calculate_similarity_unfold.
    destruct (bool_decide (keyword_set text1 = ∅)) eqn:Ea.
    { apply bool_decide_eq_true in Ea. rewrite Ea. cbn [orb].
      symmetry. apply jaccard_empty_l. }
    destruct (bool_decide (keyword_set text2 = ∅)) eqn:Eb.
    { apply bool_decide_eq_true in Eb. rewrite Eb. cbn [orb].
      symmetry. apply jaccard_empty_r. }
    reflexivity.
  - apply calculate_similarity_bounds.
  - apply calculate_similarity_bounds.
  - intros H. rewrite calculate_similarity_unfold. unfold keyword_set.
    destruct H as [-> | ->]; cbn [list_to_set foldr].
    + by rewrite bool_decide_true.
    + rewrite (bool_decide_true (∅ = ∅)) by done. by rewrite orb_true_r.
  - intros H. rewrite calculate_similarity_unfold.
    assert (keyword_set text1 <> ∅) as Hne.
    { unfold keyword_set. destruct (TextProcessor.keywords_of text1) as [|w ws]; [done|].
      set_solver. }
    rewrite bool_decide_false by done. cbn [orb].
    by apply jaccard_self.
Qed.

(** ** Ticket references *)

Section RegexFacts.
Import TextProcessor.

Lemma match_here_many_cons a r c s :
  match_here (Many1 a :: r) (String c s)
  = if atom_matches a c then
      match match_here (Many1 a :: r) s with
      | Some m => Some (String c m)
      | None => String c <$> match_here r s
      end
    else None.
Proof. reflexivity. Qed.

Lemma match_here_many_nil a r : match_here (Many1 a :: r) "" = None.
Proof. reflexivity. Qed.

(** What the matcher returns is a prefix of the text and belongs to the
    language of the pattern. *)
Lemma match_here_sound r s m :
  match_here r s = Some m -> Matches r m /\ exists post, s = m +:+ post.
Proof.
  revert s m. induction r as [|[a|a] r IH]; intros s m.
  - intros [= <-]. split; [constructor|]. by exists s.
  - cbn [match_here]. destruct s as [|c s]; [done|].
    destruct (atom_matches a c) eqn:Ea; [|done].
    destruct (match_here r s) as [m'|] eqn:Em; [|done].
    intros [= <-]. destruct (IH _ _ Em) as [HM [post ->]].
    split; [by constructor|]. by exists post.
  - revert m. induction s as [|c s IHs]; intros m; [done|].
    rewrite match_here_many_cons.
    destruct (atom_matches a c) eqn:Ea; [|done].
    destruct (match_here (Many1 a :: r) s) as [m'|] eqn:Em.
    + intros [= <-]. destruct (IHs _ eq_refl) as [HM [post ->]].
      split; [|by exists post].
      inversion HM as [| |a' w r' m0 Hw Hall Hm0]; subst.
      change (String c (w +:+ m0)) with (String c w +:+ m0).
      constructor; [done| |done]. simpl. by rewrite Ea, Hall.
    + destruct (match_here r s) as [m'|] eqn:Em'; [|done].
      intros [= <-]. destruct (IH _ _ Em') as [HM [post ->]].
      split; [|by exists post].
      change (String c m') with (String c "" +:+ m').
      constructor; [done| |done]. simpl. by rewrite Ea.
Qed.

(** Backtracking loses no match: where the pattern can match, the matcher
    finds a match. *)
Lemma match_here_complete r m post :
  Matches r m -> is_Some (match_here r (m +:+ post)).
Proof.
  induction 1 as [|a c r m Ha HM IH|a w r m Hne Hall HM IH].
  - by eexists.
  - rewrite app_cons. cbn [match_here]. rewrite Ha.
    destruct IH as [m' ->]. by eexists.
  - rewrite app_assoc_str.
    induction w as [|c w IHw]; [done|].
    simpl in Hall. apply andb_true_iff in Hall as [Hc Hall].
    rewrite app_cons, match_here_many_cons, Hc.
    destruct w as [|d w].
    + rewrite app_empty_l.
      destruct (match_here (Many1 a :: r) (m +:+ post)); [by eexists|].
      destruct IH as [m' ->]. by eexists.
    + destruct IHw as [m' ->]; [done|done|]. by eexists.
Qed.

(** [search] returns a match at the leftmost offset that has one. *)
Lemma search_Some r text m :
  search r text = Some m ->
  exists n, MatchAt r text n m
            /\ forall n' m', MatchAt r text n' m' -> (n <= n')%nat.
Proof.
  revert m. induction text as [|c text IH]; intros m; cbn [search].
  - destruct (match_here r "") as [m'|] eqn:Em; [|done].
    intros [= <-]. destruct (match_here_sound _ _ _ Em) as [HM [post Hp]].
    exists 0%nat. split; [|lia]. by exists "", post.
  - destruct (match_here r (String c text)) as [m'|] eqn:Em.
    + intros [= <-]. destruct (match_here_sound _ _ _ Em) as [HM [post Hp]].
      exists 0%nat. split; [|lia]. by exists "", post.
    + intros Hs. destruct (IH _ Hs) as (n & (pre & post & -> & <- & HM) & Hmin).
      exists (S (len pre)). split.
      * exists (String c pre), post. by rewrite app_cons.
      * intros n' m' (pre' & post' & Heq & <- & HM').
        destruct pre' as [|c' pre'].
        { rewrite app_empty_l in Heq.
          destruct (match_here_complete r m' post' HM') as [x Hx].
          rewrite <- Heq in Hx. congruence. }
        rewrite app_cons in Heq. injection Heq as <- Heq.
        assert (len pre <= len pre')%nat; [|unfold len in *; simpl; lia].
        apply (Hmin _ m'). by exists pre', post'.
Qed.

Lemma search_None r text : search r text = None <-> ~ Occurs r text.
Proof.
  split.
  - induction text as [|c text IH]; cbn [search].
    + destruct (match_here r "") eqn:Em; [done|]. intros _.
      intros (n & m & pre & post & Heq & _ & HM).
      destruct pre; [|done]. rewrite app_empty_l in Heq.
      destruct (match_here_complete r m post HM) as [x Hx].
      rewrite <- Heq in Hx. congruence.
    + destruct (match_here r (String c text)) eqn:Em; [done|]. intros Hs.
      intros (n & m & pre & post & Heq & _ & HM).
      destruct pre as [|c' pre].
      * rewrite app_empty_l in Heq.
        destruct (match_here_complete r m post HM) as [x Hx].
        rewrite <- Heq in Hx. congruence.
      * rewrite app_cons in Heq. injection Heq as <- Heq.
        apply (IH Hs). by exists (len pre), m, pre, post.
  - intros Hno. destruct (search r text) as [m|] eqn:Es; [|done].
    destruct (search_Some _ _ _ Es) as (n & HM & _).
    exfalso. apply Hno. by exists n, m.
Qed.

(** *** Case-insensitivity *)






(** *** The ['#'] of a match *)

Lemma atom_matches_not_hash a c :
  hash_free_atom a = true -> atom_matches a c = true -> not_hash c = true.
Proof.
  unfold hash_free_atom, not_hash.
  destruct (Ascii.eqb_spec c "#") as [->|]; [|done].
  intros H1 H2. by rewrite H2 in H1.
Qed.

Lemma Matches_hash_free r m :
  forallb hash_free_item r = true -> Matches r m ->
  all_chars not_hash m = true.
Proof.
  intros Hr HM. induction HM as [|a c r m Ha HM IH|a w r m Hne Hall HM IH];
    [done| |]; cbn [forallb hash_free_item] in Hr;
    apply andb_true_iff in Hr as [Ha' Hr].
  - simpl. rewrite (atom_matches_not_hash a c), IH; done.
  - rewrite all_chars_app, IH by done. rewrite andb_true_r.
    eapply all_chars_impl; [|exact Hall].
    intros c. by apply atom_matches_not_hash.
Qed.

Lemma remove_char_hash_free m :
  all_chars not_hash m = true -> remove_char "#" m = m.
Proof.
  induction m as [|c m IH]; [done|]. simpl. unfold not_hash at 1.
  rewrite andb_true_iff, negb_true_iff. intros [-> Hm]. by rewrite IH.
Qed.


End RegexFacts.

Section ExtractFacts.
Import TextProcessor.


End ExtractFacts.


(** ** Ranking by a rational score *)

Section ScoreOrder.
Context {A : Type}.
Variable key : A -> Q.

Lemma Qltb_lt x y : Qltb x y = true <-> (x < y)%Q.
Proof.
  unfold Qltb. rewrite negb_true_iff. split.
  - intros H. apply Qnot_le_lt. intros Hle.
    apply Qle_bool_iff in Hle. congruence.
  - intros H. destruct (Qle_bool y x) eqn:E; [|done].
    apply Qle_bool_iff in E. by apply Qlt_not_le in H.
Qed.

Lemma Qltb_ge x y : Qltb x y = false <-> (y <= x)%Q.
Proof.
  unfold Qltb. rewrite negb_false_iff. apply Qle_bool_iff.
Qed.

Lemma key_lt_asym a b : key_lt key a b = true -> key_lt key b a = false.
Proof.
  unfold key_lt. rewrite Qltb_lt, Qltb_ge. apply Qlt_le_weak.
Qed.

Lemma key_lt_negtrans a b c :
  key_lt key a b = false -> key_lt key b c = false -> key_lt key a c = false.
Proof.
  unfold key_lt. rewrite !Qltb_ge. intros H1 H2. by eapply Qle_trans.
Qed.

Lemma key_tieb a b : tieb (key_lt key) a b = true <-> (key a == key b)%Q.
Proof.
  unfold tieb, key_lt. rewrite andb_true_iff, !negb_true_iff, !Qltb_ge.
  split.
  - intros [H1 H2]. by apply Qle_antisym.
  - intros H. rewrite H. split; apply Qle_refl.
Qed.


(** In the sorted list the scores descend, and entries of equal score keep
    the order they had before the sort. *)
Lemma sort_desc_key_Before x y l :
  Before x y (sort_desc (key_lt key) l) ->
  (key y <= key x)%Q /\ ((key x == key y)%Q -> Before x y l).
Proof.
  intros Hb. split.
  - apply Qltb_ge.
    apply (sorted_Before (geq (key_lt key)) x y (sort_desc (key_lt key) l)); [|done].
    apply sort_desc_sorted; [apply key_lt_asym|apply key_lt_negtrans].
  - intros Heq.
    apply (Before_List_filter (tieb (key_lt key) x)) in Hb.
    + rewrite (sort_desc_stable (key_lt key) key_lt_negtrans) in Hb.
      by apply Before_of_List_filter in Hb.
    + by apply key_tieb.
    + by apply key_tieb.
Qed.

Lemma Before_slice_to x y stop (l : list A) :
  Before x y (slice_to stop l) -> Before x y l.
Proof.
  unfold Before, slice_to. intros H. etransitivity; [exact H|].
  destruct (0 <=? stop); apply sublist_take.
Qed.

Lemma In_slice_to x stop (l : list A) : In x (slice_to stop l) -> In x l.
Proof.
  unfold slice_to. rewrite <- !list_elem_of_In.
  destruct (0 <=? stop); intros H;
    (eapply elem_of_sublist; [exact H|apply sublist_take]).
Qed.

Lemma slice_to_nonneg stop (l : list A) :
  0 <= stop -> slice_to stop l = take (Z.to_nat stop) l.
Proof. intros H. unfold slice_to. apply Z.leb_le in H. by rewrite H. Qed.

Lemma slice_to_length stop (l : list A) :
  0 <= stop -> Z.of_nat (length (slice_to stop l)) <= stop.
Proof.
  intros H. rewrite slice_to_nonneg, length_take by done. lia.
Qed.
End ScoreOrder.

(** ** Ticket search *)

Section TicketSearchFacts.
Import TextProcessor TicketRetriever.

Lemma score_of_set t s : score_of (set_match_score t s) = s.
Proof. reflexivity. Qed.

Lemma matching_copies_spec query tickets :
  matching_copies query tickets
  = map (fun t => set_match_score t (ticket_score query t))
        (List.filter (fun t => Qltb 0 (ticket_score query t)) tickets).
Proof.
  induction tickets as [|t ts IH]; [done|]. cbn [matching_copies List.filter].
  destruct (Qltb 0 (ticket_score query t)); cbn [map]; by rewrite IH.
Qed.

Lemma keywords_of_lower text : keywords_of (lower text) = keywords_of text.
Proof.
  unfold keywords_of, extract_keywords. by rewrite lower_idemp.
Qed.




Lemma contains_empty s : contains "" s = true.
Proof. by destruct s. Qed.

Lemma calculate_similarity_empty_l b : calculate_similarity "" b = 0%Q.
Proof. reflexivity. Qed.

Lemma ticket_score_empty_query t : ticket_score "" t = 17%Q.
Proof.
  unfold ticket_score. cbn [lower]. rewrite !contains_empty.
  by rewrite calculate_similarity_empty_l.
Qed.

Lemma matching_copies_empty_query tickets :
  matching_copies "" tickets = map (fun t => set_match_score t 17) tickets.
Proof.
  induction tickets as [|t ts IH]; [done|]. cbn [matching_copies map].
  by rewrite ticket_score_empty_query, IH.
Qed.
End TicketSearchFacts.


(** C9.  [search_tickets] has no guard for the empty query.  The empty
    string occurs in every id, title and description and has no keyword, so
    every stored ticket scores exactly 17.0 and [search_tickets] returns the
    list of all tickets of the file, in stored order, cut to [max_results]:
    it is not empty when tickets are stored and [max_results] is positive.
    Article search returns the empty list for the empty query. *)
Theorem search_tickets_empty_query
    (self : TicketRetriever.retriever)
    (tickets : list TicketRetriever.ticket) (max_results : Z)
    (Hfile : TicketRetriever.file self = TicketRetriever.Stored tickets) :
  (forall t, TicketRetriever.ticket_score "" t = 17%Q)
  /\ TicketRetriever.search_tickets self "" max_results
     = slice_to max_results
         (map (fun t => TicketRetriever.set_match_score t 17) tickets)
  /\ (0 <= max_results ->
      TicketRetriever.search_tickets self "" max_results
      = take (Z.to_nat max_results)
          (map (fun t => TicketRetriever.set_match_score t 17) tickets))
  /\ (tickets <> [] -> 0 < max_results ->
      TicketRetriever.search_tickets self "" max_results <> [])
  /\ (forall cfg articles limit, KnowledgeBase.search cfg articles "" limit = []).
Proof.
  assert (TicketRetriever.search_tickets self "" max_results
          = slice_to max_results
              (map (fun t => TicketRetriever.set_match_score t 17) tickets))
    as Hres.
  { unfold TicketRetriever.search_tickets. rewrite Hfile.
    unfold TicketRetriever.search_stored.
    rewrite matching_copies_empty_query, sort_desc_all_tied; [done|].
    intros x y (a & <- & _)%in_map_iff (b & <- & _)%in_map_iff. reflexivity. }
  split; [apply ticket_score_empty_query|].
  split; [exact Hres|]. split; [|split].
  - intros H. by rewrite Hres, slice_to_nonneg.
  - intros Hne Hpos. rewrite Hres, slice_to_nonneg by lia.
    destruct tickets as [|t ts]; [done|].
    destruct (Z.to_nat max_results) eqn:E; [lia|done].
  - reflexivity.
Qed.

Lemma search_tickets_empty_query_witness :
  let self := seeded_retriever None None (fun _ => Raised (RequestException "offline")) in
  TicketRetriever.search_tickets self "" 2
  = [TicketRetriever.set_match_score TicketRetriever.ticket_1001 17;
     TicketRetriever.set_match_score TicketRetriever.ticket_1002 17]
  /\ TicketRetriever.search_tickets self "" 10 <> [].
Proof.
  intros self.
  destruct (search_tickets_empty_query self TicketRetriever.sample_tickets 2
              eq_refl) as (_ & _ & H2 & _).
  destruct (search_tickets_empty_query self TicketRetriever.sample_tickets 10
              eq_refl) as (_ & _ & _ & H10 & _).
  split; [apply H2; lia|apply H10; [discriminate|lia]].
Defined.

(** ** Ticket lookup *)

Section CleanTextFacts.
Import TextProcessor.

(** [clean_text] commutes with a change of case. *)
Variable f : ascii -> ascii.
Variable F : string -> string.
Hypothesis F_nil : F "" = "".
Hypothesis F_cons : forall c s, F (String c s) = String (f c) (F s).
Hypothesis f_space : forall c, is_space (f c) = is_space c.
Hypothesis f_blank : f " " = " "%char.

Lemma collapse_ws_case b s : collapse_ws b (F s) = F (collapse_ws b s).
Proof.
  revert b. induction s as [|c s IH]; intros b.
  - by rewrite F_nil.
  - rewrite F_cons. cbn [collapse_ws]. rewrite f_space.
    destruct (is_space c).
    + destruct b; [apply IH|]. by rewrite F_cons, f_blank, IH.
    + by rewrite F_cons, IH.
Qed.

Lemma lstrip_case s : lstrip (F s) = F (lstrip s).
Proof.
  induction s as [|c s IH]; [by rewrite F_nil|].
  rewrite F_cons. cbn [lstrip]. rewrite f_space.
  destruct (is_space c); [exact IH|by rewrite F_cons].
Qed.

Lemma rstrip_case s : rstrip (F s) = F (rstrip s).
Proof.
  induction s as [|c s IH]; [by rewrite F_nil|].
  rewrite F_cons. cbn [rstrip]. rewrite IH, f_space.
  destruct (rstrip s) as [|d r].
  - rewrite F_nil. destruct (is_space c); [done|]. by rewrite F_cons, F_nil.
  - by rewrite !F_cons.
Qed.

Lemma clean_text_case s : clean_text (F s) = F (clean_text s).
Proof.
  destruct s as [|c s]; [by rewrite F_nil|].
  rewrite F_cons. unfold clean_text, strip. rewrite <- F_cons.
  by rewrite collapse_ws_case, lstrip_case, rstrip_case.
Qed.
End CleanTextFacts.

Section GetTicketFacts.
Import TextProcessor TicketRetriever.

Local Ltac logged := unfold warning_or_error; simpl; auto.





(** The local lookup returns what the file holds and logs only when the
    file cannot be read. *)
Lemma get_ticket_from_local_run self ticket_id log :
  exists entries,
    _get_ticket_from_local self ticket_id log
    = (Returned (local_lookup self ticket_id), log ++ entries)
    /\ Forall warning_or_error entries.
Proof.
  unfold _get_ticket_from_local, local_lookup.
  destruct (file self) as [|e|tickets].
  - exists []. by rewrite app_nil_r.
  - eexists [_]. split; [reflexivity|]. constructor; [logged|constructor].
  - exists []. by rewrite app_nil_r.
Qed.

(** Each shape of remote failure ends in [None] with one log line. *)
Lemma fetch_ticket_from_api_failure self ticket_id log :
  remote_failure self ticket_id ->
  exists entry,
    _fetch_ticket_from_api self ticket_id log = (Returned None, log ++ [entry])
    /\ warning_or_error entry.
Proof.
  intros Hfail. unfold _fetch_ticket_from_api.
  destruct (falsy_str (username self) || falsy_str (api_token self)) eqn:Ecred.
  { eexists. split; [reflexivity|]. logged. }
  destruct Hfail as [Hc|resp Hresp Hstatus|e He]; [congruence| |].
  - fold (issue_url self ticket_id).
    unfold try_except, mbind, M_bind, lift. rewrite Hresp.
    apply Z.eqb_neq in Hstatus. rewrite Hstatus.
    eexists. split; [reflexivity|]. logged.
  - fold (issue_url self ticket_id).
    unfold try_except, mbind, M_bind, lift. rewrite He.
    eexists. split; [reflexivity|]. logged.
Qed.

Lemma get_ticket_local_hit self ticket_id log :
  let id_ := upper (clean_text ticket_id) in
  truthy (local_lookup self id_) = true ->
  get_ticket self ticket_id log
  = (Returned (local_lookup self id_),
     log ++ [(INFO, "Retrieved ticket " +:+ id_ +:+ " from local storage")]).
Proof.
  intros id_ Hhit. unfold get_ticket. fold id_.
  unfold local_lookup in *. unfold _get_ticket_from_local.
  destruct (file self) as [|e|tickets]; [done|done|].
  unfold mbind, M_bind, mret, M_ret. by rewrite Hhit.
Qed.

Lemma get_ticket_failure self ticket_id log :
  let id_ := upper (clean_text ticket_id) in
  truthy (local_lookup self id_) = false ->
  remote_failure self id_ ->
  exists entries,
    get_ticket self ticket_id log = (Returned None, log ++ entries)
    /\ In (WARNING, "Ticket " +:+ id_ +:+ " not found") entries
    /\ Forall warning_or_error entries.
Proof.
  intros id_ Hmiss Hfail. unfold get_ticket. fold id_.
  destruct (get_ticket_from_local_run self id_ log) as (e1 & Hrun1 & Hall1).
  destruct (fetch_ticket_from_api_failure self id_ (log ++ e1) Hfail)
    as (e2 & Hrun2 & Hw2).
  unfold mbind at 1. unfold M_bind at 1. rewrite Hrun1, Hmiss.
  unfold mbind at 1. unfold M_bind at 1. rewrite Hrun2.
  cbn [truthy].
  exists (e1 ++ [e2; (WARNING, "Ticket " +:+ id_ +:+ " not found")]).
  split; [|split].
  - unfold mbind, M_bind, logger, mret, M_ret.
    by rewrite <- !app_assoc.
  - apply in_or_app. right. right. by left.
  - apply Forall_app. split; [done|].
    constructor; [done|]. constructor; [logged|constructor].
Qed.

End GetTicketFacts.


(** The three shapes of failure on the seeded store, and a response with
    status 200 whose body cannot be transformed, which is none of them. *)
Example get_ticket_without_credentials :
  TicketRetriever.get_ticket
    (seeded_retriever None None (fun _ => Raised (OtherException "not called")))
    "proj-1009" []
  = (Returned None,
     [(WARNING, "API credentials not configured. Using local tickets only.");
      (WARNING, "Ticket PROJ-1009 not found")]).
Proof. vm_compute. reflexivity. Qed.

Example get_ticket_status_404 :
  TicketRetriever.get_ticket
    (seeded_retriever (Some "user") (Some "token")
       (fun _ => Returned
                   {| TicketRetriever.status_code := 404;
                      TicketRetriever.json_ticket :=
                        Raised (OtherException "not evaluated") |}))
    "proj-1009" []
  = (Returned None,
     [(ERROR, "API request failed with status 404");
      (WARNING, "Ticket PROJ-1009 not found")]).
Proof. vm_compute. reflexivity. Qed.

Example get_ticket_connection_error :
  TicketRetriever.get_ticket
    (seeded_retriever (Some "user") (Some "token")
       (fun _ => Raised (RequestException "timed out")))
    "proj-1009" []
  = (Returned None,
     [(ERROR, "Error fetching ticket from API: timed out");
      (WARNING, "Ticket PROJ-1009 not found")]).
Proof. vm_compute. reflexivity. Qed.

Example get_ticket_body_not_transformed :
  TicketRetriever.get_ticket
    (seeded_retriever (Some "user") (Some "token")
       (fun _ => Returned
                   {| TicketRetriever.status_code := 200;
                      TicketRetriever.json_ticket :=
                        Raised (OtherException "AttributeError") |}))
    "proj-1009" []
  = (Raised (OtherException "AttributeError"), []).
Proof. vm_compute. reflexivity. Qed.

(** ** Article search *)

Section ArticleSearchFacts.
Import TextProcessor KnowledgeBase.

Lemma score_of_set_relevance a s : score_of (set_relevance_score a s) = s.
Proof. reflexivity. Qed.

Lemma scored_copies_spec query articles :
  scored_copies query articles
  = map (fun a => set_relevance_score a (article_score query a))
        (List.filter (fun a => Qltb 0 (article_score query a)) articles).
Proof.
  induction articles as [|a l IH]; [done|]. cbn [scored_copies List.filter].
  destruct (Qltb 0 (article_score query a)); cbn [map]; by rewrite IH.
Qed.

Lemma scored_copies_sublist query articles :
  scored_copies query articles
  `sublist_of` map (fun a => set_relevance_score a (article_score query a)) articles.
Proof.
  rewrite scored_copies_spec.
  change (map ?f ?l) with (f <$> l).
  apply fmap_sublist, List_filter_sublist.
Qed.

Lemma scored_copies_app query l1 l2 :
  scored_copies query (l1 ++ l2)
  = scored_copies query l1 ++ scored_copies query l2.
Proof. by rewrite !scored_copies_spec, List.filter_app, map_app. Qed.

(** [search] on a non-empty query. *)
Lemma search_unfold cfg articles query max_results :
  query <> "" ->
  search cfg articles query max_results
  = slice_to (int_or max_results (MAX_SEARCH_RESULTS cfg))
      (List.filter
         (fun r => Qle_bool (SIMILARITY_THRESHOLD cfg) (score_of r))
         (sort_desc score_lt (scored_copies query articles))).
Proof. by destruct query. Qed.

Lemma search_In cfg articles query max_results r :
  In r (search cfg articles query max_results) ->
  (SIMILARITY_THRESHOLD cfg <= score_of r)%Q
  /\ exists a, In a articles /\ (0 < article_score query a)%Q
               /\ r = set_relevance_score a (article_score query a).
Proof.
  destruct (decide (query = "")) as [->|Hq]; [done|].
  rewrite search_unfold by done.
  intros [Hr Hthr]%In_slice_to%filter_In.
  split; [by apply Qle_bool_iff|].
  apply sort_desc_In in Hr. rewrite scored_copies_spec in Hr.
  apply in_map_iff in Hr as (a & <- & [Ha Hpos]%filter_In).
  exists a. split; [done|]. split; [by apply Qltb_lt|done].
Qed.

Lemma search_Before cfg articles query max_results r1 r2 :
  Before r1 r2 (search cfg articles query max_results) ->
  (score_of r2 <= score_of r1)%Q
  /\ ((score_of r1 == score_of r2)%Q ->
      Before r1 r2
        (map (fun a => set_relevance_score a (article_score query a)) articles)).
Proof.
  destruct (decide (query = "")) as [->|Hq].
  { intros H. by apply sublist_nil_r in H. }
  rewrite search_unfold by done.
  intros Hb%Before_slice_to%Before_of_List_filter.
  apply (sort_desc_key_Before score_of) in Hb as [Hle Htie].
  split; [done|]. intros Heq. unfold Before in *.
  etransitivity; [by apply Htie|]. apply scored_copies_sublist.
Qed.

Lemma search_length cfg articles query max_results :
  0 <= int_or max_results (MAX_SEARCH_RESULTS cfg) ->
  Z.of_nat (length (search cfg articles query max_results))
  <= int_or max_results (MAX_SEARCH_RESULTS cfg).
Proof.
  intros Hlim. destruct (decide (query = "")) as [->|Hq]; [simpl; lia|].
  rewrite search_unfold by done. by apply slice_to_length.
Qed.
End ArticleSearchFacts.

(** C1.  The limit of [search] is documented as the "Maximum number of
    results to return", and the claim promises at most [max_results]
    entries.  With [max_results = 0] the line
    [max_results = max_results or Config.MAX_SEARCH_RESULTS] takes the 0 for
    a missing limit: the search then is the search with the configured
    default, and on a store with one matching article it returns that
    article.  The sibling [search_tickets] cuts with [[:max_results]] alone
    and returns nothing for the limit 0. *)
Theorem search_max_results_zero :
  let store :=
    KnowledgeBase.add_article [] "Reset password" "go reset it" "auth" None in
  map KnowledgeBase.ident
      (KnowledgeBase.search default_config store "password" (Some 0))
  = [Some "KB-1"]
  /\ ~ (Z.of_nat (length (KnowledgeBase.search default_config store
                            "password" (Some 0))) <= 0)
  /\ (forall cfg articles query,
        KnowledgeBase.search cfg articles query (Some 0)
        = KnowledgeBase.search cfg articles query None)
  /\ (forall self query, TicketRetriever.search_tickets self query 0 = []).
Proof.
  split; [by vm_compute|]. split; [vm_compute; intros H; by apply H|].
  split; [done|].
  intros self query. unfold TicketRetriever.search_tickets.
  by destruct (TicketRetriever.file self).
Qed.

(** For a positive [max_results] the guarantees hold on the scores of the
    model, which are exact: every entry that [search] returns is a scored
    copy of a stored article whose score is at least the configured
    threshold, there are at most [max_results] entries, the scores descend,
    entries of equal score stand in the order of the store, and the empty
    query returns the empty list at once, without allocating a single copy.
    The program compares the doubles that it computed: two scores that are
    equal here can differ there in the last place, and such a pair is then
    ordered by its doubles. *)
Lemma search_postcondition
    (cfg : Config) (articles : list KnowledgeBase.article)
    (query : string) (max_results : Z) (Hpos : 0 < max_results) :
  let result := KnowledgeBase.search cfg articles query (Some max_results) in
  let scored :=
    map (fun a => KnowledgeBase.set_relevance_score a
                    (KnowledgeBase.article_score query a)) articles in
  (forall r, In r result ->
     (SIMILARITY_THRESHOLD cfg <= KnowledgeBase.score_of r)%Q /\ In r scored)
  /\ Z.of_nat (length result) <= max_results
  /\ (forall r1 r2, Before r1 r2 result ->
        (KnowledgeBase.score_of r2 <= KnowledgeBase.score_of r1)%Q
        /\ ((KnowledgeBase.score_of r1 == KnowledgeBase.score_of r2)%Q ->
            Before r1 r2 scored))
  /\ KnowledgeBase.search cfg articles "" (Some max_results) = []
  /\ (forall s, KnowledgeBase.search_obj cfg s "" (Some max_results) = (s, [])).
Proof.
  intros result scored.
  assert (int_or (Some max_results) (MAX_SEARCH_RESULTS cfg) = max_results)
    as Hlim.
  { unfold int_or. destruct (Z.eqb_spec max_results 0); [lia|done]. }
  split; [|split; [|split; [|split]]].
  - intros r Hr. apply search_In in Hr as [Hthr (a & Ha & _ & ->)].
    split; [done|]. apply in_map_iff. by exists a.
  - pose proof (search_length cfg articles query (Some max_results)) as H.
    rewrite Hlim in H. apply H. lia.
  - intros r1 r2. apply search_Before.
  - reflexivity.
  - reflexivity.
Qed.

(** ** Adding an article and searching for it *)

Section RoundTripFacts.
Import TextProcessor KnowledgeBase.

(** A keyword is its own only keyword. *)
Lemma keywords_of_keyword text kw :
  In kw (keywords_of text) -> keywords_of kw = [kw].
Proof.
  intros Hin. unfold keywords_of in *.
  apply extract_keywords_members in Hin.
  pose proof (keywords_kept _ _ _ Hin) as (Htok & Hlow & Hlen & Hstop).
  change kw with (join " " [kw]) at 1.
  apply extract_keywords_join.
  - repeat constructor. by intros [].
  - intros w [<-|[]]. split; [done|]. split; [done|].
    unfold keep_word. apply Z.leb_le in Hlen. by rewrite Hlen, Hstop.
Qed.

Lemma keyword_nonempty text kw : In kw (keywords_of text) -> kw <> "".
Proof.
  intros Hin%extract_keywords_members%keywords_kept. by destruct Hin as [[? _] _].
Qed.

(** The keywords of the content are keywords of [title + " " + content]. *)
Lemma keywords_of_content title_ content_ kw :
  In kw (keywords_of content_) ->
  In kw (keywords_of (title_ +:+ " " +:+ content_)).
Proof.
  unfold keywords_of. rewrite !extract_keywords_members.
  rewrite !lower_app. change (lower " ") with " ".
  rewrite findall_words_space, List.filter_app. intros H.
  apply in_or_app. by right.
Qed.

Lemma Qplus_nonneg_if (b : bool) (s w : Q) :
  (0 <= w)%Q -> (s <= (if b then s + w else s))%Q.
Proof.
  intros Hw. destruct b; lra.
Qed.

(** An article that has the query, a single keyword, among its keywords
    scores at least 3. *)
Lemma article_score_keyword text kw a :
  In kw (keywords_of text) ->
  In kw (default [] (keywords a)) ->
  (3 <= article_score kw a)%Q.
Proof.
  intros Hkw Ha. unfold article_score.
  rewrite (keywords_of_keyword _ _ Hkw).
  set (qk := list_to_set [kw] : gset string).
  set (ak := list_to_set (default [] (keywords a)) : gset string).
  assert (qk ∩ ak = {[kw]}) as Hinter.
  { subst qk ak. apply set_eq. intros x.
    rewrite elem_of_intersection, !elem_of_list_to_set, elem_of_singleton.
    rewrite list_elem_of_In. cbn [In].
    split; [intros [[<-|[]] _]; done|].
    intros ->. split; [by left|]. by apply list_elem_of_In. }
  assert (qk = {[kw]}) as Hqk by (subst qk; set_solver).
  assert (bool_decide (qk = ∅) = false) as ->.
  { apply bool_decide_eq_false. rewrite Hqk. set_solver. }
  assert (bool_decide (ak = ∅) = false) as ->.
  { apply bool_decide_eq_false. intros He.
    assert (kw ∈ ak) as Hin
      by (subst ak; rewrite elem_of_list_to_set; by apply list_elem_of_In).
    rewrite He in Hin. set_solver. }
  cbn [negb andb]. rewrite Hinter, Hqk, size_singleton.
  cbn [Nat.max Z.of_nat].
  set (s1 := if contains _ (lower (default "" (title a))) then _ else _).
  set (sim := calculate_similarity _ _).
  assert (0 <= s1)%Q as H1 by (subst s1; by destruct (contains _ _)).
  assert (0 <= sim)%Q as Hsim by apply calculate_similarity_bounds.
  set (s3 := (s1 + sim * 5 + inject_Z 1 / inject_Z 1 * 3)%Q).
  assert (3 <= s3)%Q as H3.
  { subst s3. change (inject_Z 1 / inject_Z 1 * 3)%Q with 3%Q. lra. }
  eapply Qle_trans; [exact H3|].
  eapply Qle_trans; [|apply Qplus_nonneg_if; by compute].
  apply Qplus_nonneg_if. by compute.
Qed.

(** An entry that passes the threshold and has fewer than [stop] entries
    before it survives the filter and the cut. *)
Lemma In_slice_filter {A} (p : A -> bool) stop s1 x s2 :
  p x = true -> Z.of_nat (length s1) < stop ->
  In x (slice_to stop (List.filter p (s1 ++ x :: s2))).
Proof.
  intros Hp Hlen. rewrite slice_to_nonneg by lia.
  rewrite List.filter_app. cbn [List.filter]. rewrite Hp.
  apply list_elem_of_In, list_elem_of_lookup.
  exists (length (List.filter p s1)).
  rewrite lookup_take_lt.
  - by rewrite lookup_app_r, Nat.sub_diag by lia.
  - pose proof (List.filter_length_le p s1). lia.
Qed.

Lemma length_filter_le {A} (p q : A -> bool) l :
  (forall x, In x l -> p x = true -> q x = true) ->
  (length (List.filter p l) <= length (List.filter q l))%nat.
Proof.
  induction l as [|x l IH]; intros H; [done|]. cbn [List.filter].
  assert (length (List.filter p l) <= length (List.filter q l))%nat
    by (apply IH; intros; apply H; [by right|done]).
  destruct (p x) eqn:Ep.
  - rewrite (H x) by (done || by left). simpl. lia.
  - destruct (q x); simpl; lia.
Qed.

(** The entries that the new one does not beat come from stored articles
    that score at least as much. *)
Lemma count_not_below query x articles :
  (length (List.filter (fun r => negb (key_lt score_of r x))
                       (scored_copies query articles))
   <= length (List.filter
                (fun a => Qle_bool (score_of x) (article_score query a))
                articles))%nat.
Proof.
  induction articles as [|a l IH]; [done|].
  cbn [scored_copies List.filter].
  destruct (Qltb 0 (article_score query a)).
  - cbn [List.filter]. unfold key_lt at 1, Qltb at 1.
    rewrite negb_involutive, score_of_set_relevance.
    destruct (Qle_bool _ _); simpl; lia.
  - destruct (Qle_bool _ _); simpl; lia.
Qed.

Lemma add_then_search cfg articles title_ content_ category_ tags_ kw max_results :
  let new := new_article (length articles) title_ content_ category_ tags_ in
  let limit := int_or max_results (MAX_SEARCH_RESULTS cfg) in
  In kw (keywords_of content_) ->
  (SIMILARITY_THRESHOLD cfg <= 3)%Q ->
  Z.of_nat (length (List.filter
                      (fun a => Qle_bool (article_score kw new) (article_score kw a))
                      articles)) < limit ->
  In (set_relevance_score new (article_score kw new))
     (search cfg (add_article articles title_ content_ category_ tags_)
             kw max_results).
Proof.
  intros new limit Hkw Hthr Hcount.
  assert (3 <= article_score kw new)%Q as Hscore.
  { apply (article_score_keyword content_); [done|].
    by apply keywords_of_content. }
  rewrite search_unfold by (by eapply keyword_nonempty).
  unfold add_article. fold new. rewrite scored_copies_app.
  cbn [scored_copies].
  assert (Qltb 0 (article_score kw new) = true) as ->.
  { apply Qltb_lt. eapply Qlt_le_trans; [|exact Hscore]. by compute. }
  change score_lt with (key_lt score_of).
  rewrite (sort_desc_snoc (key_lt score_of)) by apply key_lt_negtrans.
  apply In_slice_filter.
  - rewrite score_of_set_relevance. apply Qle_bool_iff.
    by eapply Qle_trans.
  - fold limit. eapply Z.le_lt_trans; [|exact Hcount].
    apply inj_le. rewrite sort_desc_length.
    etransitivity; [apply count_not_below|].
    by rewrite score_of_set_relevance.
Qed.
End RoundTripFacts.

(** C6, as stated, fails: five stored articles whose title contains the query
    as a substring outrank the new article, which is cut off by the default
    limit of five results although the keyword occurs in no other article. *)
Lemma add_then_search_counterexample :
  let add := fun l => KnowledgeBase.add_article l "Passwords" "x" "general" None in
  let old := add (add (add (add (add [])))) in
  let store := KnowledgeBase.add_article old "Login" "password help" "general" None in
  let new := KnowledgeBase.new_article (length old) "Login" "password help" "general" None in
  In "password" (TextProcessor.keywords_of "password help")
  /\ (forall a, In a old -> ~ In "password" (default [] (KnowledgeBase.keywords a)))
  /\ ~ In (KnowledgeBase.set_relevance_score new
             (KnowledgeBase.article_score "password" new))
          (KnowledgeBase.search default_config store "password" None)
  /\ ~ (exists r, In r (KnowledgeBase.search default_config store "password" None)
                  /\ KnowledgeBase.ident r = Some "KB-6").
Proof.
  vm_compute. split; [by left|]. split; [|split].
  - intros a Ha Hin.
    destruct Ha as [<-|[<-|[<-|[<-|[<-|[]]]]]];
      destruct Hin as [Hin|[]]; discriminate Hin.
  - intros H.
    destruct H as [H|[H|[H|[H|[H|[]]]]]]; discriminate H.
  - intros (r & H & Hid).
    destruct H as [<-|[<-|[<-|[<-|[<-|[]]]]]]; discriminate Hid.
Qed.

(** C6 (amended).  [add_article] gives the new article the identifier
    KB-<count+1> and the keywords of [title + " " + content] and appends it
    to the store.  A [search] for a keyword of its content that follows
    returns the new article whenever the configured threshold is at most 3.0
    and fewer stored articles than the limit of results ([max_results], or
    the configured default) score at least as much as the new article. *)
Theorem add_then_search_returns_article
    (cfg : Config) (articles : list KnowledgeBase.article)
    (title_ content_ category_ : string) (tags_ : option (list string))
    (kw : string) (max_results : option Z) :
  let new :=
    KnowledgeBase.new_article (length articles) title_ content_ category_ tags_ in
  let store :=
    KnowledgeBase.add_article articles title_ content_ category_ tags_ in
  In kw (TextProcessor.keywords_of content_) ->
  (SIMILARITY_THRESHOLD cfg <= 3)%Q ->
  Z.of_nat (length (List.filter
                      (fun a => Qle_bool (KnowledgeBase.article_score kw new)
                                         (KnowledgeBase.article_score kw a))
                      articles))
  < int_or max_results (MAX_SEARCH_RESULTS cfg) ->
  store = articles ++ [new]
  /\ KnowledgeBase.ident new = Some ("KB-" +:+ pretty (length articles + 1)%nat)
  /\ KnowledgeBase.keywords new
     = Some (TextProcessor.keywords_of (title_ +:+ " " +:+ content_))
  /\ In (KnowledgeBase.set_relevance_score new
           (KnowledgeBase.article_score kw new))
        (KnowledgeBase.search cfg store kw max_results).
Proof.
  intros new store Hkw Hthr Hcount.
  split; [done|]. split; [done|]. split; [done|].
  by apply add_then_search.
Qed.

Lemma add_then_search_returns_article_witness :
  let new := KnowledgeBase.new_article 0 "Login" "password help" "general" None in
  In (KnowledgeBase.set_relevance_score new
        (KnowledgeBase.article_score "password" new))
     (KnowledgeBase.search default_config
        (KnowledgeBase.add_article [] "Login" "password help" "general" None)
        "password" None).
Proof.
  apply (add_then_search_returns_article default_config []
           "Login" "password help" "general" None "password" None).
  - vm_compute. by left.
  - vm_compute. discriminate.
  - vm_compute. reflexivity.
Defined.

(** ** The article store as objects *)

Section HeapFacts.
Import TextProcessor KnowledgeBase.
Implicit Types h : gmap loc obj.

Lemma List_filter_map {A B} (p : B -> bool) (f : A -> B) l :
  List.filter p (map f l) = map f (List.filter (fun a => p (f a)) l).
Proof.
  induction l as [|a l IH]; [done|]. cbn [map List.filter].
  destruct (p (f a)); cbn [map]; by rewrite IH.
Qed.

Lemma slice_to_map {A B} (f : A -> B) stop l :
  slice_to stop (map f l) = map f (slice_to stop l).
Proof.
  unfold slice_to. rewrite length_map.
  change (map f) with (fmap (M := list) f).
  destruct (0 <=? stop); by rewrite fmap_take.
Qed.

Lemma score_at_deref h l : score_at h l = score_of (deref h l).
Proof. unfold score_at, deref. by destruct (dict_of h l). Qed.

Lemma dict_of_insert_ne h c o l :
  l <> c -> dict_of (<[c := o]> h) l = dict_of h l.
Proof. intros Hne. unfold dict_of. by rewrite lookup_insert_ne. Qed.

Lemma dicts_of_insert_fresh h c o ls :
  h !! c = None -> Forall (fun l => l ∈ dom h) ls ->
  dicts_of (<[c := o]> h) ls = dicts_of h ls.
Proof.
  intros Hc Hls. unfold dicts_of.
  induction Hls as [|l ls Hl _ IH]; [done|]. cbn [omap list_omap].
  rewrite dict_of_insert_ne, IH; [done|].
  intros ->. apply elem_of_dom in Hl as [? ?]. congruence.
Qed.

Lemma dicts_of_cons h l ls :
  dicts_of h (l :: ls)
  = match dict_of h l with
    | Some d => d :: dicts_of h ls
    | None => dicts_of h ls
    end.
Proof. reflexivity. Qed.

(** The loop of [search] only allocates: the heap grows, every copy is a
    new dict carrying a score, and the copies are the scored copies of the
    stored articles. *)
Lemma copy_loop_spec query items :
  forall h h' rs,
    Forall (fun l => l ∈ dom h) items ->
    copy_loop query h items = (h', rs) ->
    h ⊆ h'
    /\ Forall (fun r => h !! r = None
                        /\ exists d, h' !! r = Some (DictObj d)
                                     /\ is_Some (relevance_score d)) rs
    /\ map (deref h') rs = scored_copies query (dicts_of h items).
Proof.
  induction items as [|l rest IH]; intros h h' rs Hdom Hrun.
  - injection Hrun as <- <-. by repeat split.
  - apply Forall_cons in Hdom as [Hl Hrest].
    cbn [copy_loop] in Hrun. rewrite dicts_of_cons.
    destruct (dict_of h l) as [a|] eqn:Ed; [|by apply IH].
    cbn [scored_copies].
    destruct (Qltb 0 (article_score query a)) eqn:Epos; [|by apply IH].
    unfold alloc in Hrun.
    set (c := fresh (dom h)) in *.
    assert (h !! c = None) as Hc by (apply not_elem_of_dom, is_fresh).
    rewrite insert_insert_eq in Hrun.
    set (a' := set_relevance_score a (article_score query a)) in *.
    destruct (copy_loop query (<[c := DictObj a']> h) rest)
      as [h2 rs'] eqn:Erec.
    injection Hrun as <- <-.
    assert (h ⊆ <[c := DictObj a']> h) as Hsub by (by apply insert_subseteq).
    destruct (IH _ _ _ (Forall_impl _ _ _ Hrest
                          (fun x Hx => subseteq_dom _ _ Hsub x Hx)) Erec)
      as (Hsub2 & Hfresh & Hmap).
    assert (h2 !! c = Some (DictObj a')) as Hc2.
    { eapply lookup_weaken; [|exact Hsub2]. apply lookup_insert_eq. }
    split; [by etransitivity|]. split.
    + constructor.
      * split; [done|]. exists a'. split; [done|]. by eexists.
      * eapply Forall_impl; [exact Hfresh|].
        intros r [Hr Hd]. split; [|done].
        destruct (h !! r) eqn:Ehr; [|done].
        eapply lookup_weaken in Ehr; [|exact Hsub]. congruence.
    + cbn [map]. rewrite Hmap, dicts_of_insert_fresh by done.
      f_equal. unfold deref, dict_of. by rewrite Hc2.
Qed.

Lemma stored_preserved h h' items :
  h ⊆ h' -> Forall (fun l => l ∈ dom h) items ->
  dicts_of h' items = dicts_of h items.
Proof.
  intros Hsub Hitems. unfold dicts_of.
  induction Hitems as [|l ls Hl _ IH]; [done|]. cbn [omap list_omap].
  rewrite IH. apply elem_of_dom in Hl as [o Ho].
  unfold dict_of. by rewrite Ho, (lookup_weaken _ _ _ _ Ho Hsub).
Qed.

Lemma search_obj_spec cfg s query max_results s' results :
  no_dangling s ->
  search_obj cfg s query max_results = (s', results) ->
  heap s ⊆ heap s'
  /\ _articles s' = _articles s
  /\ stored s' = stored s
  /\ Forall (fun r => heap s !! r = None
                      /\ exists d, heap s' !! r = Some (DictObj d)
                                   /\ is_Some (relevance_score d)) results
  /\ map (deref (heap s')) results = search cfg (stored s) query max_results.
Proof.
  intros [Hart Hitems] Hrun. unfold search_obj in Hrun.
  destruct (decide (query = "")) as [->|Hq].
  { injection Hrun as <- <-. by repeat split. }
  assert (exists c q', query = String c q') as (c & q' & Hquery)
    by (destruct query; [done|by eauto]).
  rewrite Hquery in Hrun. rewrite <- Hquery in Hrun. clear c q' Hquery.
  destruct (copy_loop query (heap s) (items_of (heap s) (_articles s)))
    as [h copies] eqn:Eloop.
  injection Hrun as <- <-. cbn [heap _articles].
  destruct (copy_loop_spec _ _ _ _ _ Hitems Eloop) as (Hsub & Hfresh & Hmap).
  assert (items_of h (_articles s) = items_of (heap s) (_articles s)) as Hsame.
  { apply elem_of_dom in Hart as [o Ho]. unfold items_of.
    by rewrite Ho, (lookup_weaken _ _ _ _ Ho Hsub). }
  split; [done|]. split; [done|]. split; [|split].
  - unfold stored. cbn [heap _articles]. rewrite Hsame.
    by apply stored_preserved.
  - rewrite List.Forall_forall in Hfresh |- *.
    intros r Hr. apply Hfresh.
    apply In_slice_to, filter_In in Hr as [Hr _]. by apply sort_desc_In in Hr.
  - rewrite search_unfold by done.
    rewrite <- slice_to_map. f_equal.
    rewrite (List.filter_ext _
               (fun r => Qle_bool (SIMILARITY_THRESHOLD cfg)
                           (score_of (deref h r))))
      by (intros r; by rewrite score_at_deref).
    rewrite <- (List_filter_map
                  (fun d => Qle_bool (SIMILARITY_THRESHOLD cfg) (score_of d))).
    f_equal. unfold stored. rewrite <- Hmap.
    apply sort_desc_map. intros a b _ _.
    unfold score_lt. by rewrite !score_at_deref.
Qed.

(** [add_article] keeps the store free of dangling references and, when
    the items are article dicts, appends the new article to the stored
    values. *)
Lemma add_article_obj_no_dangling s title_ content_ category_ tags_ :
  no_dangling s ->
  no_dangling (add_article_obj s title_ content_ category_ tags_).
Proof.
  intros [Hart Hitems]. unfold add_article_obj, alloc.
  set (items := items_of (heap s) (_articles s)) in *.
  set (l := fresh (dom (heap s))).
  split; cbn [heap _articles].
  - rewrite dom_insert_L. set_solver.
  - unfold items_of. rewrite lookup_insert_eq.
    apply Forall_app. split.
    + eapply Forall_impl; [exact Hitems|].
      intros x Hx. rewrite !dom_insert_L. set_solver.
    + constructor; [|constructor]. rewrite !dom_insert_L. set_solver.
Qed.

Lemma dicts_of_insert_others h art l o1 o2 xs :
  Forall (fun x => x <> art /\ x <> l) xs ->
  dicts_of (<[art := o1]> (<[l := o2]> h)) xs = dicts_of h xs.
Proof.
  unfold dicts_of. induction 1 as [|x xs [Ha Hl] _ IH]; [done|].
  cbn [omap list_omap]. rewrite IH. unfold dict_of.
  by rewrite !lookup_insert_ne.
Qed.

Lemma add_article_obj_stored s title_ content_ category_ tags_ :
  no_dangling s ->
  Forall (fun l => is_Some (dict_of (heap s) l))
         (items_of (heap s) (_articles s)) ->
  stored (add_article_obj s title_ content_ category_ tags_)
  = add_article (stored s) title_ content_ category_ tags_.
Proof.
  intros [Hart Hitems] Hdicts. unfold add_article_obj, alloc, stored, add_article.
  set (items := items_of (heap s) (_articles s)) in *.
  set (l := fresh (dom (heap s))).
  assert (heap s !! l = None) as Hl by (apply not_elem_of_dom, is_fresh).
  assert (l <> _articles s) as Hne.
  { intros He. apply elem_of_dom in Hart as [? ?]. congruence. }
  cbn [heap _articles].
  assert (length (dicts_of (heap s) items) = length items) as ->.
  { unfold dicts_of. clear -Hdicts.
    induction Hdicts as [|x xs [d Hd] _ IH]; [done|].
    cbn [omap list_omap]. rewrite Hd. simpl. by rewrite IH. }
  set (a := new_article (length items) title_ content_ category_ tags_).
  unfold items_of at 1. rewrite lookup_insert_eq.
  assert (Forall (fun x => x <> _articles s /\ x <> l) items) as Hothers.
  { apply List.Forall_forall. intros x Hx.
    rewrite List.Forall_forall in Hdicts, Hitems.
    destruct (Hdicts x Hx) as [d Hd]. split.
    - intros ->. subst items. unfold items_of, dict_of in *.
      destruct (heap s !! _articles s) as [[]|]; done.
    - intros ->. unfold dict_of in Hd. by rewrite Hl in Hd. }
  unfold dicts_of at 1. rewrite omap_app.
  fold (dicts_of (<[_articles s := ListObj (items ++ [l])]>
                    (<[l := DictObj a]> (heap s))) items).
  rewrite dicts_of_insert_others by done. f_equal.
  cbn [omap list_omap]. unfold dict_of.
  by rewrite lookup_insert_ne, lookup_insert_eq.
Qed.

Lemma get_all_articles_spec s s2 l :
  no_dangling s ->
  get_all_articles s = (s2, l) ->
  heap s !! l = None
  /\ l <> _articles s
  /\ heap s ⊆ heap s2
  /\ _articles s2 = _articles s
  /\ items_of (heap s2) l = items_of (heap s) (_articles s)
  /\ forall f,
       let s3 := mutate_list s2 l f in
       _articles s3 = _articles s
       /\ items_of (heap s3) l = f (items_of (heap s) (_articles s))
       /\ items_of (heap s3) (_articles s3) = items_of (heap s) (_articles s)
       /\ stored s3 = stored s.
Proof.
  intros [Hart Hitems] Hrun. unfold get_all_articles, alloc in Hrun.
  injection Hrun as <- <-. cbn [heap _articles].
  set (l := fresh (dom (heap s))).
  set (items := items_of (heap s) (_articles s)) in *.
  assert (heap s !! l = None) as Hl by (apply not_elem_of_dom, is_fresh).
  assert (l <> _articles s) as Hne.
  { intros He. apply elem_of_dom in Hart as [? ?]. congruence. }
  split; [done|]. split; [done|].
  split; [by apply insert_subseteq|]. split; [done|]. split.
  { unfold items_of. by rewrite lookup_insert_eq. }
  intros f. unfold mutate_list. cbn [heap _articles].
  rewrite lookup_insert_eq. cbn [heap _articles].
  rewrite insert_insert_eq.
  split; [done|]. split; [|split].
  - unfold items_of. by rewrite lookup_insert_eq.
  - unfold items_of. by rewrite lookup_insert_ne.
  - unfold stored. cbn [heap _articles].
    assert (items_of (<[l := ListObj (f items)]> (heap s)) (_articles s) = items)
      as -> by (unfold items_of; by rewrite lookup_insert_ne).
    by apply dicts_of_insert_fresh.
Qed.
End HeapFacts.

(** C10.  [search] does not change the store: every object that existed
    before the call (the list [self._articles] and each stored article dict)
    is the same object with the same content afterwards, so the stored
    collection is elementwise identical; the entries returned are new dict
    objects, and only they carry the key [relevance_score] added by the
    call.  The values returned are those of the search on the stored
    articles.  [get_all_articles] returns a new list object with the items of
    [self._articles]; whatever the caller does to that list (appending,
    reordering, ...) leaves [self._articles] and the stored articles
    unchanged. *)
Theorem search_preserves_store
    (cfg : Config) (s : KnowledgeBase.kb) (query : string)
    (max_results : option Z) (Hwf : no_dangling s) :
  let s' := (KnowledgeBase.search_obj cfg s query max_results).1 in
  let results := (KnowledgeBase.search_obj cfg s query max_results).2 in
  let s2 := (KnowledgeBase.get_all_articles s).1 in
  let copy := (KnowledgeBase.get_all_articles s).2 in
  (forall l o, KnowledgeBase.heap s !! l = Some o ->
               KnowledgeBase.heap s' !! l = Some o)
  /\ KnowledgeBase._articles s' = KnowledgeBase._articles s
  /\ KnowledgeBase.items_of (KnowledgeBase.heap s') (KnowledgeBase._articles s')
     = KnowledgeBase.items_of (KnowledgeBase.heap s) (KnowledgeBase._articles s)
  /\ KnowledgeBase.stored s' = KnowledgeBase.stored s
  /\ (forall r, In r results ->
        KnowledgeBase.heap s !! r = None
        /\ exists d, KnowledgeBase.heap s' !! r = Some (KnowledgeBase.DictObj d)
                     /\ is_Some (KnowledgeBase.relevance_score d))
  /\ map (deref (KnowledgeBase.heap s')) results
     = KnowledgeBase.search cfg (KnowledgeBase.stored s) query max_results
  /\ KnowledgeBase.heap s !! copy = None
  /\ copy <> KnowledgeBase._articles s
  /\ KnowledgeBase.items_of (KnowledgeBase.heap s2) copy
     = KnowledgeBase.items_of (KnowledgeBase.heap s) (KnowledgeBase._articles s)
  /\ (forall f,
        let s3 := KnowledgeBase.mutate_list s2 copy f in
        KnowledgeBase.items_of (KnowledgeBase.heap s3) copy
        = f (KnowledgeBase.items_of (KnowledgeBase.heap s) (KnowledgeBase._articles s))
        /\ KnowledgeBase.items_of (KnowledgeBase.heap s3) (KnowledgeBase._articles s3)
           = KnowledgeBase.items_of (KnowledgeBase.heap s) (KnowledgeBase._articles s)
        /\ KnowledgeBase.stored s3 = KnowledgeBase.stored s).
Proof.
  intros s' results s2 copy.
  destruct (KnowledgeBase.search_obj cfg s query max_results) as [t rs] eqn:Es.
  destruct (KnowledgeBase.get_all_articles s) as [t2 c] eqn:Eg.
  subst s' results s2 copy. cbn [fst snd].
  destruct (search_obj_spec _ _ _ _ _ _ Hwf Es)
    as (Hsub & Hart & Hstored & Hfresh & Hval).
  destruct (get_all_articles_spec _ _ _ Hwf Eg)
    as (Hc & Hne & _ & _ & Hitems & Hmut).
  split; [intros l o Hl; by eapply lookup_weaken|].
  split; [done|]. split.
  { rewrite Hart. destruct Hwf as [[o Ho]%elem_of_dom _].
    unfold KnowledgeBase.items_of.
    by rewrite Ho, (lookup_weaken _ _ _ _ Ho Hsub). }
  split; [done|]. split.
  { intros r Hr. rewrite List.Forall_forall in Hfresh. by apply Hfresh. }
  split; [done|]. split; [done|]. split; [done|]. split; [done|].
  intros f. destruct (Hmut f) as (_ & H1 & H2 & H3). done.
Qed.

Lemma search_preserves_store_witness :
  let s0 :=
    {| KnowledgeBase.heap := {[ 1%positive := KnowledgeBase.ListObj [] ]};
       KnowledgeBase._articles := 1%positive |} in
  let s :=
    KnowledgeBase.add_article_obj
      (KnowledgeBase.add_article_obj s0 "Reset password" "go reset it" "auth" None)
      "Login trouble" "password wrong" "auth" None in
  KnowledgeBase.stored (KnowledgeBase.search_obj default_config s "password" None).1
  = KnowledgeBase.stored s.
Proof.
  apply (search_preserves_store default_config _ "password" None).
  split; [by vm_compute|].
  vm_compute. repeat constructor.
Defined.

(** ** The relevant-information block of a response *)

Section ResponseFacts.
Import TextProcessor.

Lemma len_take_str n s : len (take_str n s) = Nat.min n (len s).
Proof.
  unfold take_str, len. revert s.
  induction n as [|n IH]; intros [|c s]; simpl; try done.
  by rewrite IH.
Qed.

Lemma take_str_all n s : (len s <= n)%nat -> take_str n s = s.
Proof.
  unfold take_str, len. revert s.
  induction n as [|n IH]; intros [|c s]; simpl; try done; [lia|].
  intros H. rewrite IH; [done|lia].
Qed.

Lemma len_repeat_char n c : len (repeat_char n c) = n.
Proof. unfold len. induction n as [|n IH]; simpl; [done|]. by rewrite IH. Qed.

(** The lines of one article: the marker is there as soon as the content
    has 300 characters. *)
Lemma article_lines_spec idx a :
  CustomerSupportAgent.article_lines idx a
  = [ CustomerSupportAgent.nl +:+ pretty idx +:+ ". **"
        +:+ default "Untitled" (KnowledgeBase.title a)
        +:+ "** (" +:+ default "general" (KnowledgeBase.category a) +:+ ")";
      "   " +:+ take_str 300 (default "" (KnowledgeBase.content a)) ]
    ++ (if (300 <=? len (default "" (KnowledgeBase.content a)))%nat
        then ["   ..."] else []).
Proof.
  unfold CustomerSupportAgent.article_lines.
  set (content_ := default "" (KnowledgeBase.content a)).
  rewrite len_take_str. f_equal.
  destruct (Nat.leb_spec 300 (len content_)) as [H|H].
  - by rewrite Nat.min_l.
  - rewrite Nat.min_r by lia.
    destruct (Nat.leb_spec 300 (len content_)); [lia|done].
Qed.

(** The sibling [format_response] appends the marker only to a text that
    it has cut. *)
Lemma format_response_marker response max_length :
  format_response response max_length
  = if max_length <? Z.of_nat (len (clean_text response))
    then slice_str max_length (clean_text response) +:+ "..."
    else clean_text response.
Proof. reflexivity. Qed.
End ResponseFacts.

(** C8.  The relevant-information block lists the first three articles, each
    with its title, its category and the first 300 characters of its content.
    The marker line is appended when the content has at least 300 characters:
    a content of exactly 300 characters is shown in full, nothing is cut, and
    the marker is appended all the same, where the claim asks for the marker
    only when the content exceeds 300 characters. *)
Theorem article_marker_at_300 :
  let content_ := repeat_char 300 "a" in
  (forall results,
     results <> [] ->
     CustomerSupportAgent.knowledge_block results
     = ["**Relevant Information:**"]
       ++ CustomerSupportAgent.articles_lines 1 (take 3 results) ++ [""])
  /\ (forall idx a,
        CustomerSupportAgent.article_lines idx a
        = [ CustomerSupportAgent.nl +:+ pretty idx +:+ ". **"
              +:+ default "Untitled" (KnowledgeBase.title a)
              +:+ "** (" +:+ default "general" (KnowledgeBase.category a) +:+ ")";
            "   " +:+ TextProcessor.take_str 300 (default "" (KnowledgeBase.content a)) ]
          ++ (if (300 <=? TextProcessor.len (default "" (KnowledgeBase.content a)))%nat
              then ["   ..."] else []))
  /\ TextProcessor.len content_ = 300%nat
  /\ TextProcessor.take_str 300 content_ = content_
  /\ CustomerSupportAgent.article_lines 1 (article_with_content content_)
     = [ CustomerSupportAgent.nl +:+ "1. **Untitled** (general)"; "   " +:+ content_; "   ..." ].
Proof.
  intros content_.
  assert (TextProcessor.len content_ = 300%nat) as Hlen by apply len_repeat_char.
  split; [by intros [|r rs]|]. split; [apply article_lines_spec|].
  split; [done|]. split; [apply take_str_all; lia|].
  rewrite article_lines_spec.
  change (default "" (KnowledgeBase.content (article_with_content content_)))
    with content_.
  rewrite Hlen, take_str_all by lia. reflexivity.
Qed.

(** * Further properties *)

(** ** Cleaning and formatting text *)

Section CleanFacts.
Import TextProcessor.

Lemma collapse_ws_spaced b s : spaced b (collapse_ws b s) = true.
Proof.
  revert b. induction s as [|c s IH]; intros b; [done|].
  cbn [collapse_ws]. destruct (is_space c) eqn:Ec.
  - destruct b; [apply IH|]. cbn [spaced]. by rewrite IH.
  - cbn [spaced]. by rewrite Ec, IH.
Qed.

Lemma spaced_weaken b s : spaced true s = true -> spaced b s = true.
Proof.
  destruct s as [|c s]; [done|]. cbn [spaced].
  destruct (is_space c); [|done]. by rewrite andb_false_r.
Qed.

Lemma lstrip_fixed s : spaced true s = true -> lstrip s = s.
Proof.
  destruct s as [|c s]; [done|]. cbn [spaced lstrip].
  destruct (is_space c); [|done]. by rewrite andb_false_r.
Qed.

Lemma lstrip_spaced b s : spaced b s = true -> spaced true (lstrip s) = true.
Proof.
  destruct s as [|c s]; [done|]. cbn [spaced lstrip].
  destruct (is_space c) eqn:Ec.
  - rewrite !andb_true_iff. intros [_ Hs]. by rewrite lstrip_fixed.
  - intros Hs. cbn [spaced]. by rewrite Ec.
Qed.

Lemma rstrip_nil_inv s : rstrip s = "" -> all_chars is_space s = true.
Proof.
  induction s as [|c s IH]; [done|]. cbn [rstrip all_chars].
  destruct (rstrip s) as [|d r]; [|done].
  destruct (is_space c); [|done]. intros _. by rewrite IH.
Qed.

Lemma rstrip_spaced b s : spaced b s = true -> spaced b (rstrip s) = true.
Proof.
  revert b. induction s as [|c s IH]; intros b; [done|].
  cbn [spaced rstrip]. destruct (rstrip s) as [|d r] eqn:Er.
  - destruct (is_space c) eqn:Ec; [done|]. intros _. cbn [spaced]. by rewrite Ec.
  - cbn [spaced]. destruct (is_space c).
    + rewrite !andb_true_iff. intros [? Hs]. split; [done|]. by apply (IH true).
    + apply (IH false).
Qed.

Lemma rstrip_last s : last_is_space (rstrip s) = false.
Proof.
  induction s as [|c s IH]; [done|]. cbn [rstrip].
  destruct (rstrip s) as [|d r] eqn:Er.
  - by destruct (is_space c) eqn:Ec; cbn; rewrite ?Ec.
  - exact IH.
Qed.

Lemma collapse_ws_fixed b s : spaced b s = true -> collapse_ws b s = s.
Proof.
  revert b. induction s as [|c s IH]; intros b; [done|].
  cbn [spaced collapse_ws]. destruct (is_space c).
  - rewrite !andb_true_iff, negb_true_iff.
    intros [[Hc ->] Hs]. apply Ascii.eqb_eq in Hc as ->. by rewrite IH.
  - intros Hs. by rewrite IH.
Qed.

Lemma rstrip_fixed s : last_is_space s = false -> rstrip s = s.
Proof.
  induction s as [|c s IH]; [done|]. cbn [rstrip].
  destruct s as [|d s].
  - cbn. by intros ->.
  - intros H. rewrite IH by exact H. by destruct (String d s).
Qed.

Lemma clean_text_is_clean s : is_clean (clean_text s) = true.
Proof.
  destruct s as [|c s]; [done|]. unfold clean_text, strip, is_clean.
  rewrite rstrip_last, andb_true_r.
  apply rstrip_spaced, (lstrip_spaced false), collapse_ws_spaced.
Qed.

Lemma clean_text_fixed s : is_clean s = true -> clean_text s = s.
Proof.
  unfold is_clean. rewrite andb_true_iff, negb_true_iff. intros [Hs Hl].
  destruct s as [|c s]; [done|]. unfold clean_text, strip.
  rewrite collapse_ws_fixed by (by apply spaced_weaken).
  by rewrite lstrip_fixed, rstrip_fixed.
Qed.

Lemma no_space_spaced b s : all_chars not_space s = true -> spaced b s = true.
Proof.
  revert b. induction s as [|c s IH]; intros b H; [done|].
  simpl in H. apply andb_true_iff in H as [Hc Hs].
  unfold not_space in Hc. apply negb_true_iff in Hc.
  cbn [spaced]. rewrite Hc. by apply IH.
Qed.

Lemma no_space_last s : all_chars not_space s = true -> last_is_space s = false.
Proof.
  induction s as [|c s IH]; intros H; [done|].
  simpl in H. apply andb_true_iff in H as [Hc Hs].
  unfold not_space in Hc. apply negb_true_iff in Hc.
  destruct s as [|d s]; [done|]. by apply IH.
Qed.

Lemma no_space_is_clean s : all_chars not_space s = true -> is_clean s = true.
Proof.
  intros H. unfold is_clean.
  by rewrite no_space_spaced, no_space_last.
Qed.

(** *** Tokens of a cleaned text *)

Lemma findall_collapse_ws s :
  (forall cur, findall_go cur (collapse_ws false s) = findall_go cur s)
  /\ findall_words (collapse_ws true s) = findall_words s.
Proof.
  unfold findall_words. induction s as [|c s [IH1 IH2]]; [done|].
  cbn [collapse_ws]. destruct (is_space c) eqn:Ec.
  - pose proof (space_not_word c Ec) as Hw. split.
    + intros cur. cbn [findall_go]. rewrite Hw.
      assert (is_word " " = false) as -> by done. by rewrite IH2.
    + cbn [findall_go]. rewrite Hw. exact IH2.
  - split.
    + intros cur. cbn [findall_go]. destruct (is_word c); by rewrite IH1.
    + cbn [findall_go]. destruct (is_word c); by rewrite IH1.
Qed.

Lemma findall_lstrip s : findall_words (lstrip s) = findall_words s.
Proof.
  unfold findall_words. induction s as [|c s IH]; [done|].
  cbn [lstrip]. destruct (is_space c) eqn:Ec; [|done].
  cbn [findall_go]. by rewrite (space_not_word c Ec).
Qed.

Lemma findall_rstrip s cur : findall_go cur (rstrip s) = findall_go cur s.
Proof.
  revert cur. induction s as [|c s IH]; intros cur; [done|].
  cbn [rstrip]. destruct (rstrip s) as [|d r] eqn:Er.
  - destruct (is_space c) eqn:Ec.
    + cbn [findall_go]. rewrite (space_not_word c Ec), <- IH.
      cbn. by rewrite app_nil_r.
    + cbn [findall_go]. destruct (is_word c); by rewrite <- IH.
  - cbn [findall_go]. destruct (is_word c); by rewrite <- IH.
Qed.

Lemma findall_words_clean_text s :
  findall_words (clean_text s) = findall_words s.
Proof.
  destruct s as [|c s]; [done|]. unfold clean_text, strip.
  unfold findall_words at 1. rewrite findall_rstrip.
  fold (findall_words (lstrip (collapse_ws false (String c s)))).
  rewrite findall_lstrip. apply (proj1 (findall_collapse_ws _)).
Qed.

Lemma lower_upper s : lower (upper s) = lower s.
Proof.
  induction s as [|c s IH]; [done|]. simpl. rewrite IH. f_equal.
  by destruct c as [[] [] [] [] [] [] [] []].
Qed.
End CleanFacts.

(** X1.  [clean_text] returns a cleaned text (words separated by single
    blanks, no other whitespace, none at either end), leaves a cleaned text
    as it is, and is therefore idempotent. *)
Theorem clean_text_normal_form (text : string) :
  is_clean (TextProcessor.clean_text text) = true
  /\ (is_clean text = true -> TextProcessor.clean_text text = text)
  /\ TextProcessor.clean_text (TextProcessor.clean_text text)
     = TextProcessor.clean_text text.
Proof.
  split; [apply clean_text_is_clean|]. split; [apply clean_text_fixed|].
  apply clean_text_fixed, clean_text_is_clean.
Qed.

(** X2.  Cleaning a text or putting it in lower case does not change its
    keywords: [extract_keywords] returns the same list, in the same order.
    The same holds for the upper case of a text of ASCII characters (outside
    ASCII [str.upper] can change the letters of a word, as in "straße"). *)
Theorem extract_keywords_clean_case (text : string) (min_length : Z) :
  TextProcessor.extract_keywords (TextProcessor.clean_text text) min_length
  = TextProcessor.extract_keywords text min_length
  /\ TextProcessor.extract_keywords (TextProcessor.lower text) min_length
     = TextProcessor.extract_keywords text min_length
  /\ (ascii_text text = true ->
      TextProcessor.extract_keywords (TextProcessor.upper text) min_length
      = TextProcessor.extract_keywords text min_length).
Proof.
  unfold TextProcessor.extract_keywords. split; [|split].
  - rewrite <- (clean_text_case TextProcessor.lower_char TextProcessor.lower);
      try done; [|apply is_space_lower_char].
    by rewrite findall_words_clean_text.
  - by rewrite lower_idemp.
  - intros _. by rewrite lower_upper.
Qed.

(** X3.  [format_response] returns the cleaned text when it has at most
    [max_length] characters.  Otherwise it returns the cleaned text cut by
    the slice [[:max_length]] and followed by three dots: for a limit that
    is not negative these are the first [max_length] characters and the
    result has [max_length + 3] characters, so that no result is longer
    than that; a negative limit cuts every text, also the empty one, and
    drops its last [-max_length] characters. *)
Theorem format_response_bound (response : string) (max_length : Z) :
  let cleaned := TextProcessor.clean_text response in
  let n := Z.of_nat (TextProcessor.len cleaned) in
  let out := TextProcessor.format_response response max_length in
  (n <= max_length -> out = cleaned)
  /\ (0 <= max_length < n ->
      out = TextProcessor.take_str (Z.to_nat max_length) cleaned +:+ "..."
      /\ Z.of_nat (TextProcessor.len out) = max_length + 3)
  /\ (max_length < 0 ->
      out = TextProcessor.take_str
              (TextProcessor.len cleaned - Z.to_nat (- max_length)) cleaned
            +:+ "..."
      /\ Z.of_nat (TextProcessor.len out) = Z.max 0 (n + max_length) + 3)
  /\ (0 <= max_length -> Z.of_nat (TextProcessor.len out) <= max_length + 3).
Proof.
  intros cleaned n out. subst out. rewrite format_response_marker.
  fold cleaned. fold n. unfold TextProcessor.slice_str.
  destruct (Z.ltb_spec max_length n) as [Hlt|Hge].
  - destruct (Z.leb_spec 0 max_length) as [Hpos|Hneg].
    + assert (Z.of_nat (TextProcessor.len
                (TextProcessor.take_str (Z.to_nat max_length) cleaned +:+ "..."))
              = max_length + 3) as Hlen.
      { rewrite len_app, len_take_str. subst n.
        change (TextProcessor.len "...") with 3%nat. lia. }
      split; [lia|]. split; [done|]. split; [lia|]. lia.
    + split; [lia|]. split; [lia|]. split; [|lia]. intros _. split; [done|].
      rewrite len_app, len_take_str. subst n.
      change (TextProcessor.len "...") with 3%nat. lia.
  - split; [done|]. split; [lia|]. split; [subst n; lia|]. subst n. lia.
Qed.

(** ** The shape of a ticket reference *)

Section ReferenceFacts.
Import TextProcessor.

Lemma MatchAt_tail a r m text n :
  MatchAt (One a :: r) text n m -> Occurs r text.
Proof.
  intros (pre & post & -> & Hn & HM).
  inversion HM as [|a' d r' m' Ha HM'|]; subst.
  exists (len (pre +:+ String d "")), m', (pre +:+ String d ""), post.
  split; [|done]. by rewrite !app_assoc_str.
Qed.

Lemma Occurs_hash_jira text : Occurs pat_hash_jira text -> Occurs pat_jira text.
Proof. intros (n & m & H). by apply MatchAt_tail in H. Qed.

Lemma is_alpha_lower_char c : is_alpha (lower_char c) = is_alpha c.
Proof. by destruct c as [[] [] [] [] [] [] [] []]. Qed.

Lemma lit_letter_alpha l c :
  is_alpha l = true -> atom_matches (Lit l) c = true -> is_alpha c = true.
Proof.
  cbn [atom_matches]. intros Hl Hc. apply Ascii.eqb_eq in Hc.
  by rewrite <- is_alpha_lower_char, Hc, is_alpha_lower_char.
Qed.

Lemma Matches_ticket_jira m : Matches pat_ticket m -> Matches pat_jira m.
Proof.
  unfold pat_ticket, pat_jira. cbn [lits String.list_ascii_of_string map app].
  intros H.
  inversion H as [|? c1 ? m1 H1 M1|]; subst; clear H.
  inversion M1 as [|? c2 ? m2 H2 M2|]; subst; clear M1.
  inversion M2 as [|? c3 ? m3 H3 M3|]; subst; clear M2.
  inversion M3 as [|? c4 ? m4 H4 M4|]; subst; clear M3.
  inversion M4 as [|? c5 ? m5 H5 M5|]; subst; clear M4.
  inversion M5 as [|? c6 ? m6 H6 M6|]; subst; clear M5.
  inversion M6 as [|? c7 ? m7 H7 M7|]; subst; clear M6.
  change (String c1 (String c2 (String c3 (String c4 (String c5 (String c6
            (String c7 m7)))))))
    with (String c1 (String c2 (String c3 (String c4 (String c5 (String c6 ""))))) +:+ String c7 m7).
  constructor; [done| |by constructor].
  cbn [all_chars atom_matches].
  rewrite (lit_letter_alpha "T" c1), (lit_letter_alpha "I" c2),
    (lit_letter_alpha "C" c3), (lit_letter_alpha "K" c4),
    (lit_letter_alpha "E" c5), (lit_letter_alpha "T" c6); done.
Qed.

Lemma Occurs_ticket_jira text : Occurs pat_ticket text -> Occurs pat_jira text.
Proof.
  intros (n & m & pre & post & Heq & Hn & HM).
  exists n, m, pre, post. split; [done|]. split; [done|].
  by apply Matches_ticket_jira.
Qed.

(** The second and the third pattern never decide the result. *)
Lemma extract_two_patterns text :
  extract_ticket_reference text
  = extract_loop [pat_jira; pat_hash_number] text.
Proof.
  unfold extract_ticket_reference, patterns. cbn [extract_loop].
  destruct (search pat_jira text) as [m|] eqn:E1; [done|].
  apply search_None in E1.
  assert (search pat_hash_jira text = None) as ->.
  { apply search_None. intros H. by apply E1, Occurs_hash_jira. }
  assert (search pat_ticket text = None) as ->.
  { apply search_None. intros H. by apply E1, Occurs_ticket_jira. }
  done.
Qed.

Lemma upper_app s t : upper (s +:+ t) = upper s +:+ upper t.
Proof.
  induction s as [|c s IH]; [done|]. rewrite app_cons. simpl. by rewrite IH.
Qed.

Lemma upper_alpha w :
  all_chars is_alpha w = true -> all_chars is_upper (upper w) = true.
Proof.
  induction w as [|c w IH]; [done|]. simpl.
  rewrite !andb_true_iff. intros [Hc Hw]. split; [|by apply IH].
  revert Hc. by destruct c as [[] [] [] [] [] [] [] []].
Qed.

Lemma upper_digits w : all_chars is_digit w = true -> upper w = w.
Proof.
  induction w as [|c w IH]; [done|]. simpl.
  rewrite andb_true_iff. intros [Hc Hw]. rewrite IH by done. f_equal.
  revert Hc. by destruct c as [[] [] [] [] [] [] [] []].
Qed.

Lemma Matches_digits m :
  Matches [Many1 Digit] m -> m <> "" /\ all_chars is_digit m = true.
Proof.
  intros H. inversion H as [| |a w r m' Hne Hall HM]; subst.
  inversion HM; subst. rewrite app_empty_r. done.
Qed.

Lemma upper_of_jira_match m :
  Matches pat_jira m -> is_jira_reference (upper (remove_char "#" m)).
Proof.
  intros HM.
  rewrite remove_char_hash_free by (by eapply Matches_hash_free; [|exact HM]).
  inversion HM as [| |a w r m1 Hne Hall HM1]; subst.
  inversion HM1 as [|a c r m2 Hc HM2|]; subst.
  apply Matches_digits in HM2 as [Hne2 Hd].
  cbn [atom_matches] in Hall, Hc.
  assert (c = "-"%char) as ->.
  { revert Hc. by destruct c as [[] [] [] [] [] [] [] []]. }
  exists (upper w), m2. rewrite upper_app. cbn [upper].
  rewrite (upper_digits m2) by done.
  split; [done|]. split; [by destruct w|]. split; [done|].
  split; [by apply upper_alpha|done].
Qed.

Lemma upper_of_number_match m :
  Matches pat_hash_number m -> is_number_reference (upper (remove_char "#" m)).
Proof.
  intros HM. inversion HM as [|a c r m1 Hc HM1|]; subst.
  apply Matches_digits in HM1 as [Hne Hd].
  cbn [atom_matches] in Hc.
  assert (c = "#"%char) as ->.
  { revert Hc. by destruct c as [[] [] [] [] [] [] [] []]. }
  cbn [remove_char Ascii.eqb Bool.eqb].
  rewrite remove_char_hash_free.
  - rewrite upper_digits by done. done.
  - eapply all_chars_impl; [|exact Hd].
    intros d. by destruct d as [[] [] [] [] [] [] [] []].
Qed.

Lemma search_Matches r text m : search r text = Some m -> Matches r m.
Proof.
  intros H. apply search_Some in H as (n & (pre & post & _ & _ & HM) & _). done.
Qed.

Lemma extract_shape text :
  let r := extract_ticket_reference text in
  (r = "" /\ ~ Occurs pat_jira text /\ ~ Occurs pat_hash_number text)
  \/ (is_jira_reference r /\ Occurs pat_jira text)
  \/ (is_number_reference r /\ ~ Occurs pat_jira text
      /\ Occurs pat_hash_number text).
Proof.
  cbn zeta. rewrite extract_two_patterns. cbn [extract_loop].
  destruct (search pat_jira text) as [m|] eqn:E1.
  - right. left. split; [by apply upper_of_jira_match, (search_Matches _ text)|].
    apply search_Some in E1 as (n & H & _). by exists n, m.
  - apply search_None in E1.
    destruct (search pat_hash_number text) as [m|] eqn:E2.
    + right. right.
      split; [by apply upper_of_number_match, (search_Matches _ text)|].
      split; [done|]. apply search_Some in E2 as (n & H & _). by exists n, m.
    + left. apply search_None in E2. done.
Qed.

Lemma jira_reference_plain r :
  is_jira_reference r ->
  all_chars not_space r = true /\ upper r = r /\ all_chars not_hash r = true
  /\ all_chars (fun c => negb (is_lower c)) r = true.
Proof.
  intros (w & d & -> & _ & _ & Hw & Hd).
  assert (forall p : ascii -> bool,
            (forall c, is_upper c = true -> p c = true) ->
            (forall c, is_digit c = true -> p c = true) ->
            p "-"%char = true ->
            all_chars p (w +:+ "-" +:+ d) = true) as Hall.
  { intros p Hu Hdg Hdash. rewrite !all_chars_app. cbn [all_chars].
    rewrite (all_chars_impl _ _ _ Hu Hw), (all_chars_impl _ _ _ Hdg Hd), Hdash.
    done. }
  split; [|split; [|split]].
  - apply Hall; [| |done]; intros c; by destruct c as [[] [] [] [] [] [] [] []].
  - rewrite !upper_app, (upper_digits d) by done. cbn [upper]. f_equal.
    clear -Hw. induction w as [|c w IH]; [done|]. simpl in *.
    apply andb_true_iff in Hw as [Hc Hw]. rewrite IH by done. f_equal.
    revert Hc. by destruct c as [[] [] [] [] [] [] [] []].
  - apply Hall; [| |done]; intros c; by destruct c as [[] [] [] [] [] [] [] []].
  - apply Hall; [| |done]; intros c; by destruct c as [[] [] [] [] [] [] [] []].
Qed.

Lemma number_reference_plain r :
  is_number_reference r ->
  all_chars not_space r = true /\ upper r = r /\ all_chars not_hash r = true
  /\ all_chars (fun c => negb (is_lower c)) r = true.
Proof.
  intros [_ Hd]. split; [|split; [|split]].
  - eapply all_chars_impl; [|exact Hd].
    intros c; by destruct c as [[] [] [] [] [] [] [] []].
  - by apply upper_digits.
  - eapply all_chars_impl; [|exact Hd].
    intros c; by destruct c as [[] [] [] [] [] [] [] []].
  - eapply all_chars_impl; [|exact Hd].
    intros c; by destruct c as [[] [] [] [] [] [] [] []].
Qed.
End ReferenceFacts.

(** X4.  The second and the third pattern of [extract_ticket_reference]
    never decide the result: wherever [#LETTERS-DIGITS] or [TICKET-DIGITS]
    matches, [LETTERS-DIGITS] matches too, and the function returns what the
    loop over the first and the fourth pattern alone returns. *)
Theorem extract_ticket_reference_two_patterns (text : string) :
  (Occurs TextProcessor.pat_hash_jira text -> Occurs TextProcessor.pat_jira text)
  /\ (Occurs TextProcessor.pat_ticket text -> Occurs TextProcessor.pat_jira text)
  /\ TextProcessor.extract_ticket_reference text
     = TextProcessor.extract_loop
         [TextProcessor.pat_jira; TextProcessor.pat_hash_number] text.
Proof.
  split; [apply Occurs_hash_jira|]. split; [apply Occurs_ticket_jira|].
  apply extract_two_patterns.
Qed.

(** X5.  The reference that [extract_ticket_reference] returns is empty (when
    neither [LETTERS-DIGITS] nor [#DIGITS] occurs in the text), or has the
    shape LETTERS-DIGITS with the letters in upper case (when
    [LETTERS-DIGITS] occurs), or is a bare number (otherwise).  It contains
    no ['#'], no lower-case letter and no whitespace. *)
Theorem extract_ticket_reference_shape (text : string) :
  let r := TextProcessor.extract_ticket_reference text in
  ((r = "" /\ ~ Occurs TextProcessor.pat_jira text
    /\ ~ Occurs TextProcessor.pat_hash_number text)
   \/ (is_jira_reference r /\ Occurs TextProcessor.pat_jira text)
   \/ (is_number_reference r /\ ~ Occurs TextProcessor.pat_jira text
       /\ Occurs TextProcessor.pat_hash_number text))
  /\ all_chars not_hash r = true
  /\ all_chars (fun c => negb (TextProcessor.is_lower c)) r = true
  /\ all_chars not_space r = true.
Proof.
  intros r. pose proof (extract_shape text) as H. fold r in H.
  split; [exact H|].
  destruct H as [[-> _]|[[H _]|[H _]]]; [done| |].
  - by destruct (jira_reference_plain r H) as (? & ? & ? & ?).
  - by destruct (number_reference_plain r H) as (? & ? & ? & ?).
Qed.

(** X6.  The normalization of [get_ticket] leaves an extracted reference as
    it is: the id that [process_query] looks up is the reference that
    [extract_ticket_reference] returned. *)
Theorem extracted_reference_is_normalized (text : string) :
  TextProcessor.upper
    (TextProcessor.clean_text (TextProcessor.extract_ticket_reference text))
  = TextProcessor.extract_ticket_reference text.
Proof.
  pose proof (extract_shape text) as H. cbn zeta in H.
  destruct H as [[-> _]|[[H _]|[H _]]]; [done| |].
  - destruct (jira_reference_plain _ H) as (Hs & Hu & _).
    by rewrite clean_text_fixed by (by apply no_space_is_clean).
  - destruct (number_reference_plain _ H) as (Hs & Hu & _).
    by rewrite clean_text_fixed by (by apply no_space_is_clean).
Qed.

(** ** Similarity *)

(** X7.  [calculate_similarity] is symmetric, and putting a text in lower
    case does not change it; neither does putting a text of ASCII characters
    in upper case. *)
Theorem calculate_similarity_symmetric (text1 text2 : string) :
  TextProcessor.calculate_similarity text1 text2
  = TextProcessor.calculate_similarity text2 text1
  /\ TextProcessor.calculate_similarity (TextProcessor.lower text1) text2
     = TextProcessor.calculate_similarity text1 text2
  /\ (ascii_text text1 = true ->
      TextProcessor.calculate_similarity (TextProcessor.upper text1) text2
      = TextProcessor.calculate_similarity text1 text2).
Proof.
  split; [|split].
  - rewrite !calculate_similarity_unfold, orb_comm. unfold jaccard.
    by rewrite (comm_L (∩) (keyword_set text1)), (comm_L (∪) (keyword_set text1)).
  - unfold TextProcessor.calculate_similarity. by rewrite keywords_of_lower.
  - intros _. unfold TextProcessor.calculate_similarity, TextProcessor.keywords_of.
    unfold TextProcessor.extract_keywords. by rewrite lower_upper.
Qed.

(** ** Scores *)

Section ScoreBounds.
Import TextProcessor.

Lemma bonus_bounds (b : bool) (s w lo hi : Q) :
  (0 <= w)%Q -> (lo <= s)%Q -> (s <= hi)%Q ->
  (lo <= (if b then s + w else s))%Q /\ ((if b then s + w else s) <= hi + w)%Q.
Proof. intros. destruct b; split; lra. Qed.

Lemma overlap_ratio_bounds (qk ak : gset string) :
  (0 <= inject_Z (Z.of_nat (size (qk ∩ ak)))
        / inject_Z (Z.of_nat (Nat.max (size qk) 1))
   /\ inject_Z (Z.of_nat (size (qk ∩ ak)))
      / inject_Z (Z.of_nat (Nat.max (size qk) 1)) <= 1)%Q.
Proof.
  apply ratio_bounds; [|lia].
  etransitivity; [apply (subseteq_size (qk ∩ ak) qk); set_solver|lia].
Qed.

Lemma article_score_bounds query a :
  (0 <= KnowledgeBase.article_score query a
   /\ KnowledgeBase.article_score query a <= 21)%Q.
Proof.
  unfold KnowledgeBase.article_score.
  set (sim := calculate_similarity _ _).
  pose proof (calculate_similarity_bounds query
                (default "" (KnowledgeBase.title a) +:+ " "
                 +:+ default "" (KnowledgeBase.content a))) as [Hs0 Hs1].
  fold sim in Hs0, Hs1.
  set (qk := list_to_set (keywords_of query) : gset string).
  set (ak := list_to_set (default [] (KnowledgeBase.keywords a)) : gset string).
  pose proof (overlap_ratio_bounds qk ak) as [Hk0 Hk1].
  set (kw := (inject_Z (Z.of_nat (size (qk ∩ ak)))
              / inject_Z (Z.of_nat (Nat.max (size qk) 1)))%Q) in *.
  destruct (contains (lower query) (lower (default "" (KnowledgeBase.title a))));
    destruct (negb (bool_decide (qk = ∅)) && negb (bool_decide (ak = ∅)));
    destruct (contains (lower query)
                (join " " (map lower (default [] (KnowledgeBase.tags a)))));
    destruct (contains (lower query)
                (lower (default "" (KnowledgeBase.category a))));
    split; lra.
Qed.

Lemma ticket_score_bounds query t :
  (0 <= TicketRetriever.ticket_score query t
   /\ TicketRetriever.ticket_score query t <= 20)%Q.
Proof.
  unfold TicketRetriever.ticket_score.
  set (sim := calculate_similarity _ _).
  assert (0 <= sim /\ sim <= 1)%Q as [Hs0 Hs1]
    by apply calculate_similarity_bounds.
  destruct (contains (lower query) (lower (default "" (TicketRetriever.ident t))));
    destruct (contains (lower query) (lower (default "" (TicketRetriever.title t))));
    destruct (contains (lower query)
                (lower (default "" (TicketRetriever.description t))));
    split; lra.
Qed.
End ScoreBounds.

(** X8.  The relevance score of an article lies between 0 and 21
    (10 + 5 + 3 + 2 + 1), and so does the score that every result of
    [search] carries. *)
Theorem article_score_range
    (cfg : Config) (articles : list KnowledgeBase.article)
    (query : string) (max_results : option Z) :
  (forall a, (0 <= KnowledgeBase.article_score query a)%Q
             /\ (KnowledgeBase.article_score query a <= 21)%Q)
  /\ (forall r, In r (KnowledgeBase.search cfg articles query max_results) ->
        (0 < KnowledgeBase.score_of r)%Q
        /\ (KnowledgeBase.score_of r <= 21)%Q
        /\ is_Some (KnowledgeBase.relevance_score r)).
Proof.
  split; [intros a; apply article_score_bounds|].
  intros r Hr. apply search_In in Hr as [_ (a & _ & Hpos & ->)].
  rewrite score_of_set_relevance. split; [done|].
  split; [apply article_score_bounds|by eexists].
Qed.

(** X9.  The match score of a ticket lies between 0 and 20 (10 + 5 + 2 + 3),
    and every result of [search_tickets] carries a score in that range that
    is not 0. *)
Theorem ticket_score_range
    (tickets : list TicketRetriever.ticket) (query : string) (max_results : Z) :
  (forall t, (0 <= TicketRetriever.ticket_score query t)%Q
             /\ (TicketRetriever.ticket_score query t <= 20)%Q)
  /\ (forall r, In r (TicketRetriever.search_stored tickets query max_results) ->
        (0 < TicketRetriever.score_of r)%Q
        /\ (TicketRetriever.score_of r <= 20)%Q
        /\ is_Some (TicketRetriever.match_score r)).
Proof.
  split; [intros t; apply ticket_score_bounds|].
  intros r Hr. unfold TicketRetriever.search_stored in Hr.
  apply In_slice_to, sort_desc_In in Hr. rewrite matching_copies_spec in Hr.
  apply in_map_iff in Hr as (t & <- & [_ Hpos]%filter_In).
  rewrite score_of_set. split; [by apply Qltb_lt|].
  split; [apply ticket_score_bounds|by eexists].
Qed.

(** ** The case of a query *)

Section QueryCase.
Import TextProcessor.

Lemma keywords_of_upper text : keywords_of (upper text) = keywords_of text.
Proof. unfold keywords_of, extract_keywords. by rewrite lower_upper. Qed.

Lemma calculate_similarity_upper_l a b :
  calculate_similarity (upper a) b = calculate_similarity a b.
Proof. unfold calculate_similarity. by rewrite keywords_of_upper. Qed.

Lemma calculate_similarity_lower_l a b :
  calculate_similarity (lower a) b = calculate_similarity a b.
Proof. unfold calculate_similarity. by rewrite keywords_of_lower. Qed.

Lemma article_score_lower query a :
  KnowledgeBase.article_score (lower query) a = KnowledgeBase.article_score query a.
Proof.
  unfold KnowledgeBase.article_score.
  by rewrite lower_idemp, keywords_of_lower, calculate_similarity_lower_l.
Qed.

Lemma article_score_upper query a :
  KnowledgeBase.article_score (upper query) a = KnowledgeBase.article_score query a.
Proof.
  unfold KnowledgeBase.article_score.
  by rewrite lower_upper, keywords_of_upper, calculate_similarity_upper_l.
Qed.

Lemma scored_copies_ext q1 q2 articles :
  (forall a, KnowledgeBase.article_score q1 a = KnowledgeBase.article_score q2 a) ->
  KnowledgeBase.scored_copies q1 articles = KnowledgeBase.scored_copies q2 articles.
Proof.
  intros H. induction articles as [|a l IH]; [done|].
  cbn [KnowledgeBase.scored_copies]. by rewrite H, IH.
Qed.

Lemma search_ext cfg articles q1 q2 max_results :
  (q1 = "" <-> q2 = "") ->
  (forall a, KnowledgeBase.article_score q1 a = KnowledgeBase.article_score q2 a) ->
  KnowledgeBase.search cfg articles q1 max_results
  = KnowledgeBase.search cfg articles q2 max_results.
Proof.
  intros Hnil H. destruct (decide (q2 = "")) as [->|Hne].
  - by rewrite (proj2 Hnil eq_refl).
  - rewrite !search_unfold by tauto. by rewrite (scored_copies_ext q1 q2).
Qed.

Lemma ticket_score_lower query t :
  TicketRetriever.ticket_score (lower query) t = TicketRetriever.ticket_score query t.
Proof.
  unfold TicketRetriever.ticket_score.
  by rewrite lower_idemp, calculate_similarity_lower_l.
Qed.

Lemma ticket_score_upper query t :
  TicketRetriever.ticket_score (upper query) t = TicketRetriever.ticket_score query t.
Proof.
  unfold TicketRetriever.ticket_score.
  by rewrite lower_upper, calculate_similarity_upper_l.
Qed.

Lemma search_stored_ext tickets q1 q2 max_results :
  (forall t, TicketRetriever.ticket_score q1 t = TicketRetriever.ticket_score q2 t) ->
  TicketRetriever.search_stored tickets q1 max_results
  = TicketRetriever.search_stored tickets q2 max_results.
Proof.
  intros H. unfold TicketRetriever.search_stored. do 2 f_equal.
  induction tickets as [|t l IH]; [done|].
  cbn [TicketRetriever.matching_copies]. by rewrite H, IH.
Qed.

Lemma lower_nil s : lower s = "" <-> s = "".
Proof. by destruct s. Qed.

Lemma upper_nil s : upper s = "" <-> s = "".
Proof. by destruct s. Qed.
End QueryCase.

(** X10.  Article search reads the query in lower case only: the query in
    lower case gives the same results with the same scores, and so does a
    query of ASCII characters in upper case. *)
Theorem search_query_case
    (cfg : Config) (articles : list KnowledgeBase.article)
    (query : string) (max_results : option Z) :
  KnowledgeBase.search cfg articles (TextProcessor.lower query) max_results
  = KnowledgeBase.search cfg articles query max_results
  /\ (ascii_text query = true ->
      KnowledgeBase.search cfg articles (TextProcessor.upper query) max_results
      = KnowledgeBase.search cfg articles query max_results).
Proof.
  split; [|intros _]; apply search_ext.
  - apply lower_nil.
  - intros a. apply article_score_lower.
  - apply upper_nil.
  - intros a. apply article_score_upper.
Qed.

(** X11.  Ticket search reads the query in lower case only: the query in
    lower case gives the same results, and so does a query of ASCII
    characters in upper case. *)
Theorem search_tickets_query_case
    (self : TicketRetriever.retriever) (query : string) (max_results : Z) :
  TicketRetriever.search_tickets self (TextProcessor.lower query) max_results
  = TicketRetriever.search_tickets self query max_results
  /\ (ascii_text query = true ->
      TicketRetriever.search_tickets self (TextProcessor.upper query) max_results
      = TicketRetriever.search_tickets self query max_results).
Proof.
  unfold TicketRetriever.search_tickets.
  destruct (TicketRetriever.file self) as [|e|tickets]; [done|done|].
  split; [|intros _]; apply search_stored_ext; intros t.
  - apply ticket_score_lower.
  - apply ticket_score_upper.
Qed.

(** ** Limits and identifiers of the article store *)

Section StoreFacts.
Import TextProcessor KnowledgeBase.

Lemma slice_to_take {A} (l1 l2 : Z) (l : list A) :
  0 <= l1 <= l2 -> slice_to l1 l = take (Z.to_nat l1) (slice_to l2 l).
Proof.
  intros H. rewrite !slice_to_nonneg by lia.
  rewrite take_take. f_equal. lia.
Qed.

Lemma get_article_by_id_app l1 l2 id_ :
  get_article_by_id (l1 ++ l2) id_
  = match get_article_by_id l1 id_ with
    | Some a => Some a
    | None => get_article_by_id l2 id_
    end.
Proof.
  induction l1 as [|a l IH]; [done|]. cbn [app get_article_by_id].
  by destruct (bool_decide (ident a = Some id_)).
Qed.

Lemma get_article_by_id_Some l id_ a :
  get_article_by_id l id_ = Some a -> In a l /\ ident a = Some id_.
Proof.
  induction l as [|b l IH]; [done|]. cbn [get_article_by_id].
  destruct (bool_decide (ident b = Some id_)) eqn:E.
  - intros [= <-]. apply bool_decide_eq_true in E. split; [by left|done].
  - intros H. destruct (IH H). split; [by right|done].
Qed.

Lemma get_article_by_id_None l id_ :
  get_article_by_id l id_ = None <-> forall a, In a l -> ident a <> Some id_.
Proof.
  induction l as [|b l IH]; [done|]. cbn [get_article_by_id].
  destruct (bool_decide (ident b = Some id_)) eqn:E.
  - apply bool_decide_eq_true in E. split; [done|].
    intros H. exfalso. by apply (H b); [left|].
  - apply bool_decide_eq_false in E. rewrite IH. split.
    + intros H a [<-|Ha]; [done|by apply H].
    + intros H a Ha. apply H. by right.
Qed.

(** The lookup returns the first article that has the id. *)
Lemma get_article_by_id_first l id_ a :
  get_article_by_id l id_ = Some a
  <-> exists older newer,
        l = older ++ a :: newer
        /\ ident a = Some id_
        /\ forall b, In b older -> ident b <> Some id_.
Proof.
  split.
  - revert a. induction l as [|b l IH]; [done|]. intros a.
    cbn [get_article_by_id].
    destruct (bool_decide (ident b = Some id_)) eqn:E.
    + intros [= <-]. apply bool_decide_eq_true in E.
      exists [], l. split; [done|]. split; [done|]. by intros ? [].
    + intros (older & newer & -> & Hid & Hold)%IH.
      apply bool_decide_eq_false in E.
      exists (b :: older), newer. split; [done|]. split; [done|].
      intros c [<-|Hc]; [done|by apply Hold].
  - intros (older & newer & -> & Hid & Hold).
    rewrite get_article_by_id_app.
    apply get_article_by_id_None in Hold. rewrite Hold.
    cbn [get_article_by_id]. by rewrite bool_decide_true.
Qed.

Lemma kb_id_inj n m : kb_id n = kb_id m -> n = m.
Proof.
  unfold kb_id. intros H. apply (inj (String.app "KB-")) in H.
  by apply (inj pretty) in H.
Qed.

Lemma add_articles_snoc articles specs a :
  add_articles articles (specs ++ [a])
  = add_article (add_articles articles specs) (spec_title a) (spec_content a)
                (spec_category a) (spec_tags a).
Proof. unfold add_articles. by rewrite fold_left_app. Qed.

Lemma add_articles_length articles specs :
  length (add_articles articles specs) = (length articles + length specs)%nat.
Proof.
  induction specs as [|a specs IH] using rev_ind.
  - simpl. lia.
  - rewrite add_articles_snoc. unfold add_article.
    rewrite !length_app, IH. simpl. lia.
Qed.

(** The articles added to an empty store, in order. *)
Lemma add_articles_lookup specs k a :
  specs !! k = Some a ->
  add_articles [] specs !! k
  = Some (new_article k (spec_title a) (spec_content a)
                      (spec_category a) (spec_tags a)).
Proof.
  revert k a. induction specs as [|b specs IH] using rev_ind; intros k a Hk.
  - done.
  - rewrite add_articles_snoc. unfold add_article.
    pose proof (add_articles_length [] specs) as Hlen. simpl in Hlen.
    destruct (decide (k < length specs)%nat) as [Hlt|Hge].
    + rewrite lookup_app_l in Hk by done.
      rewrite lookup_app_l by lia. by apply IH.
    + rewrite lookup_app_r in Hk by lia.
      rewrite lookup_app_r by lia. rewrite Hlen.
      destruct (k - length specs)%nat eqn:E; [|done].
      injection Hk as ->. simpl. do 2 f_equal. lia.
Qed.

Lemma add_articles_idents specs a :
  In a (add_articles [] specs) ->
  exists k, (k < length specs)%nat /\ ident a = Some (kb_id (k + 1)).
Proof.
  intros Ha. apply list_elem_of_In, list_elem_of_lookup in Ha as [k Hk].
  pose proof (lookup_lt_Some _ _ _ Hk) as Hlt.
  rewrite add_articles_length in Hlt. simpl in Hlt.
  destruct (lookup_lt_is_Some_2 specs k Hlt) as [b Hb].
  rewrite (add_articles_lookup _ _ _ Hb) in Hk. injection Hk as <-.
  by exists k.
Qed.
End StoreFacts.

(** X12.  A smaller limit gives a prefix of the results of a larger limit:
    for limits [0 <= l1 <= l2] (each the given [max_results], or the
    configured default when it is absent or 0), the results under [l1] are
    the first [l1] results under [l2].  In particular the three results that
    [process_query] keeps are the results of a search limited to 3. *)
Theorem search_limit_prefix
    (cfg : Config) (articles : list KnowledgeBase.article) (query : string)
    (max1 max2 : option Z)
    (Hlimits : 0 <= int_or max1 (MAX_SEARCH_RESULTS cfg)
               <= int_or max2 (MAX_SEARCH_RESULTS cfg)) :
  KnowledgeBase.search cfg articles query max1
  = take (Z.to_nat (int_or max1 (MAX_SEARCH_RESULTS cfg)))
         (KnowledgeBase.search cfg articles query max2).
Proof.
  destruct (decide (query = "")) as [->|Hq].
  - unfold KnowledgeBase.search. by rewrite take_nil.
  - rewrite !search_unfold by done. by apply slice_to_take.
Qed.

Lemma search_limit_prefix_witness :
  KnowledgeBase.search default_config
    (add_articles [] [ {| spec_title := "Reset password";
                          spec_content := "go reset it";
                          spec_category := "auth"; spec_tags := None |} ])
    "password" (Some 3)
  = take 3 (KnowledgeBase.search default_config
              (add_articles [] [ {| spec_title := "Reset password";
                                    spec_content := "go reset it";
                                    spec_category := "auth"; spec_tags := None |} ])
              "password" None).
Proof.
  apply (search_limit_prefix default_config _ "password" (Some 3) None).
  vm_compute. split; discriminate.
Defined.

(** X13.  [get_article_by_id] returns the first stored article that has the
    id (it has the id and no article stored before it has), and nothing when
    no stored article has it.  After [add_article] the lookup of an id that
    an older article has still returns the older article; the new article is
    found under its id KB-<count+1> exactly when no older article has that
    id. *)
Theorem get_article_by_id_after_add
    (articles : list KnowledgeBase.article)
    (title_ content_ category_ : string) (tags_ : option (list string))
    (article_id : string) :
  let new :=
    KnowledgeBase.new_article (length articles) title_ content_ category_ tags_ in
  let store :=
    KnowledgeBase.add_article articles title_ content_ category_ tags_ in
  (forall a, KnowledgeBase.get_article_by_id articles article_id = Some a
             <-> exists older newer,
                   articles = older ++ a :: newer
                   /\ KnowledgeBase.ident a = Some article_id
                   /\ forall b, In b older ->
                                KnowledgeBase.ident b <> Some article_id)
  /\ (KnowledgeBase.get_article_by_id articles article_id = None <->
      forall a, In a articles -> KnowledgeBase.ident a <> Some article_id)
  /\ KnowledgeBase.get_article_by_id store article_id
     = match KnowledgeBase.get_article_by_id articles article_id with
       | Some a => Some a
       | None =>
           if bool_decide (article_id = KnowledgeBase.kb_id (length articles + 1))
           then Some new else None
       end.
Proof.
  intros new store. split; [intros a; apply get_article_by_id_first|].
  split; [apply get_article_by_id_None|].
  subst store. unfold KnowledgeBase.add_article.
  rewrite get_article_by_id_app. fold new.
  destruct (KnowledgeBase.get_article_by_id articles article_id); [done|].
  cbn [KnowledgeBase.get_article_by_id KnowledgeBase.new_article
       KnowledgeBase.ident new].
  destruct (decide (article_id = KnowledgeBase.kb_id (length articles + 1)))
    as [->|Hne].
  - by rewrite !bool_decide_true.
  - rewrite !bool_decide_false; [done|done|]. intros [= H]. by apply Hne.
Qed.

(** X14.  In a store filled by [add_article] alone, starting empty, the
    article added by the call number [k+1] has the identifier KB-<k+1>, the
    identifiers are pairwise distinct, and [get_article_by_id] finds each
    article under its identifier. *)
Theorem add_articles_ids (specs : list article_spec) :
  let store := add_articles [] specs in
  length store = length specs
  /\ List.NoDup (map KnowledgeBase.ident store)
  /\ (forall k a, specs !! k = Some a ->
        let added :=
          KnowledgeBase.new_article k (spec_title a) (spec_content a)
                                    (spec_category a) (spec_tags a) in
        store !! k = Some added
        /\ KnowledgeBase.ident added = Some ("KB-" +:+ pretty (k + 1)%nat)
        /\ KnowledgeBase.get_article_by_id store (KnowledgeBase.kb_id (k + 1))
           = Some added).
Proof.
  intros store.
  assert (forall i j x y, store !! i = Some x -> store !! j = Some y ->
            KnowledgeBase.ident x = KnowledgeBase.ident y -> i = j) as Hinj.
  { intros i j x y Hi Hj Hid.
    pose proof (lookup_lt_Some _ _ _ Hi) as Hli.
    pose proof (lookup_lt_Some _ _ _ Hj) as Hlj.
    subst store. rewrite add_articles_length in Hli, Hlj. simpl in Hli, Hlj.
    destruct (lookup_lt_is_Some_2 specs i Hli) as [a Ha].
    destruct (lookup_lt_is_Some_2 specs j Hlj) as [b Hb].
    rewrite (add_articles_lookup _ _ _ Ha) in Hi.
    rewrite (add_articles_lookup _ _ _ Hb) in Hj.
    injection Hi as <-. injection Hj as <-.
    cbn [KnowledgeBase.ident KnowledgeBase.new_article] in Hid.
    apply (inj Some), kb_id_inj in Hid. lia. }
  split; [apply (add_articles_length [] specs)|]. split.
  - apply NoDup_ListNoDup, NoDup_alt. intros i j x Hi Hj.
    rewrite list_lookup_fmap in Hi, Hj.
    destruct (store !! i) as [a|] eqn:Ea; [|done].
    destruct (store !! j) as [b|] eqn:Eb; [|done].
    cbn in Hi, Hj. apply (Hinj i j a b); congruence.
  - intros k a Hk added.
    pose proof (add_articles_lookup _ _ _ Hk) as Hlook. fold store added in Hlook.
    split; [done|]. split; [done|].
    destruct (KnowledgeBase.get_article_by_id store (KnowledgeBase.kb_id (k + 1)))
      as [x|] eqn:Eg.
    + apply get_article_by_id_Some in Eg as [Hin Hid].
      apply list_elem_of_In, list_elem_of_lookup in Hin as [i Hi].
      assert (i = k) as -> by (by apply (Hinj i k x added)).
      congruence.
    + exfalso. apply (proj1 (get_article_by_id_None _ _) Eg added); [|done].
      apply list_elem_of_In, list_elem_of_lookup. by exists k.
Qed.

(** ** Loading and growing the article store *)

Section LoadFacts.
Import KnowledgeBase.

Lemma load_file_run acc path content log :
  load_file acc path content log
  = (Returned (acc ++ file_articles content),
     log ++ [file_log_entry (path, content)]).
Proof.
  destruct content; cbn; by rewrite ?app_nil_r.
Qed.

Lemma load_loop_run files :
  forall acc log,
    load_loop acc files log
    = (Returned (acc ++ flat_map (fun f => file_articles f.2) files),
       log ++ map file_log_entry files).
Proof.
  induction files as [|[path content] files IH]; intros acc log.
  - cbn. by rewrite !app_nil_r.
  - cbn [load_loop]. unfold mbind, M_bind. rewrite load_file_run, IH.
    cbn [flat_map map snd]. by rewrite <- !app_assoc.
Qed.

Lemma flat_map_skip_unparseable files :
  flat_map (fun f => file_articles f.2)
           (List.filter (fun f => negb (is_unparseable f.2)) files)
  = flat_map (fun f : string * json_file => file_articles f.2) files.
Proof.
  induction files as [|[path content] files IH]; [done|].
  cbn [List.filter flat_map snd]. destruct content; cbn; by rewrite IH.
Qed.
End LoadFacts.

(** X15.  [_load_articles] never raises.  It returns the articles of the
    files in the order in which the directory yields them, a JSON array
    contributing its elements, a JSON object itself and any other file
    nothing; a file that cannot be read or parsed is skipped, so that the
    store is the one loaded without such files, and exactly these files are
    reported at level ERROR. *)
Theorem load_articles_skips_bad_files
    (files : list (string * KnowledgeBase.json_file))
    (log : list (level * string)) :
  let loaded := flat_map (fun f => file_articles f.2) files in
  KnowledgeBase._load_articles files log
  = (Returned loaded, log ++ map file_log_entry files)
  /\ (KnowledgeBase._load_articles
        (List.filter (fun f => negb (is_unparseable f.2)) files) log).1
     = Returned loaded
  /\ (forall f, In f files ->
        (is_unparseable f.2 = true <-> (file_log_entry f).1 = ERROR)).
Proof.
  intros loaded. unfold KnowledgeBase._load_articles.
  rewrite !load_loop_run. cbn [app fst].
  split; [done|]. split; [by rewrite flat_map_skip_unparseable|].
  intros [path content] _. unfold file_log_entry. by destruct content.
Qed.

(** X16.  On objects, [add_article] appends a reference to one new dict to
    the list [self._articles], which stays the same list object; every other
    object of the heap is unchanged, the store keeps holding no dangling
    reference, and the stored articles are the former ones followed by the
    new article. *)
Theorem add_article_appends_object
    (s : KnowledgeBase.kb) (title_ content_ category_ : string)
    (tags_ : option (list string))
    (Hwf : no_dangling s)
    (Hdicts : Forall (fun l => is_Some (KnowledgeBase.dict_of (KnowledgeBase.heap s) l))
                (KnowledgeBase.items_of (KnowledgeBase.heap s)
                                        (KnowledgeBase._articles s))) :
  let s' := KnowledgeBase.add_article_obj s title_ content_ category_ tags_ in
  KnowledgeBase._articles s' = KnowledgeBase._articles s
  /\ no_dangling s'
  /\ KnowledgeBase.stored s'
     = KnowledgeBase.stored s
       ++ [KnowledgeBase.new_article (length (KnowledgeBase.stored s))
             title_ content_ category_ tags_]
  /\ (forall l o, l <> KnowledgeBase._articles s ->
        KnowledgeBase.heap s !! l = Some o ->
        KnowledgeBase.heap s' !! l = Some o).
Proof.
  intros s'. split; [done|]. split; [by apply add_article_obj_no_dangling|].
  split; [by apply add_article_obj_stored|].
  intros l o Hne Hl. subst s'. unfold KnowledgeBase.add_article_obj, KnowledgeBase.alloc.
  cbn [KnowledgeBase.heap]. rewrite lookup_insert_ne by done.
  rewrite lookup_insert_ne; [done|].
  intros <-. pose proof (is_fresh (dom (KnowledgeBase.heap s))) as Hf.
  apply Hf, elem_of_dom. by eexists.
Qed.

Lemma add_article_appends_object_witness :
  let s0 :=
    {| KnowledgeBase.heap := {[ 1%positive := KnowledgeBase.ListObj [] ]};
       KnowledgeBase._articles := 1%positive |} in
  let s1 := KnowledgeBase.add_article_obj s0 "Reset password" "go reset it" "auth" None in
  KnowledgeBase.stored
    (KnowledgeBase.add_article_obj s1 "Login trouble" "password wrong" "auth" None)
  = KnowledgeBase.stored s1
    ++ [KnowledgeBase.new_article (length (KnowledgeBase.stored s1))
          "Login trouble" "password wrong" "auth" None].
Proof.
  apply add_article_appends_object.
  - split; [by vm_compute|]. vm_compute. repeat constructor.
  - vm_compute. repeat constructor; by eexists.
Defined.

(** ** The remote schema *)

Section TransformFacts.
Import TicketRetriever.

Lemma transform_comments_ok cs :
  forallb (fun c => not_null (jira_comment_author c)) cs = true ->
  exists cs', transform_comments cs = Returned cs' /\ length cs' = length cs.
Proof.
  induction cs as [|c cs IH]; [by exists []|]. cbn [forallb].
  rewrite andb_true_iff. intros [Hc Hcs]. destruct (IH Hcs) as (cs' & Hcs' & Hlen).
  cbn [transform_comments]. unfold transform_comment.
  destruct (jira_comment_author c); [|done|]; cbn; rewrite Hcs'; cbn;
    eexists; (split; [reflexivity|]); simpl; by rewrite Hlen.
Qed.

Lemma transform_comments_null cs :
  forallb (fun c => not_null (jira_comment_author c)) cs = false ->
  transform_comments cs = Raised attribute_error.
Proof.
  induction cs as [|c cs IH]; [done|]. cbn [forallb].
  rewrite andb_false_iff. cbn [transform_comments]. unfold transform_comment.
  destruct (jira_comment_author c); cbn; intros [?|Hcs]; try done;
    rewrite (IH Hcs); done.
Qed.

Lemma get_object_not_null {A} (f : json_field A) dflt :
  not_null f = true -> exists a, get_object f dflt = Returned a.
Proof. destruct f; [by eexists|done|by eexists]. Qed.

Lemma transform_ok d :
  issue_ok d = true ->
  exists t, _transform_jira_response d = Returned t
            /\ complete_ticket t
            /\ ident t = Some (default "" (jira_key d))
            /\ match_score t = None
            /\ truthy (Some t) = true.
Proof.
  unfold issue_ok, _transform_jira_response. intros Hok.
  assert (exists f, get_object (jira_issue_fields d) no_fields = Returned f
                    /\ fields_ok f = true) as (f & -> & Hf).
  { destruct (jira_issue_fields d); [by eexists|done|by eexists]. }
  unfold fields_ok in Hf. rewrite !andb_true_iff in Hf.
  destruct Hf as [[[[H1 H2] H3] H4] H5].
  destruct (get_object_not_null _ no_name H1) as (x1 & E1).
  destruct (get_object_not_null _ no_name H2) as (x2 & E2).
  destruct (get_object_not_null _ no_user H3) as (x3 & E3).
  destruct (get_object_not_null _ no_user H4) as (x4 & E4).
  cbn [mbind outcome_bind]. rewrite E1. cbn [mbind outcome_bind].
  rewrite E2. cbn [mbind outcome_bind]. rewrite E3. cbn [mbind outcome_bind].
  rewrite E4. cbn [mbind outcome_bind].
  assert (exists cs', (page ← get_object (jira_comment_field f) no_comment_page;
                       raw ← get_iterable (jira_comments page);
                       transform_comments raw) = Returned cs') as (cs' & Ecs).
  { unfold comment_page_ok, comments_ok in H5.
    destruct (jira_comment_field f) as [| |page]; [by eexists|done|].
    cbn. destruct (jira_comments page) as [| |cs]; [by eexists|done|].
    cbn. destruct (transform_comments_ok cs H5) as (cs' & -> & _). by eexists. }
  destruct (get_object (jira_comment_field f) no_comment_page) as [page|] eqn:Ep;
    [|done].
  cbn [mbind outcome_bind] in Ecs |- *.
  destruct (get_iterable (jira_comments page)) as [raw|] eqn:Er; [|done].
  cbn [mbind outcome_bind] in Ecs |- *. rewrite Ecs. cbn.
  eexists. split; [reflexivity|]. cbn. unfold complete_ticket. cbn.
  repeat split; by eexists.
Qed.

Lemma transform_null d :
  issue_ok d = false ->
  exists msg, _transform_jira_response d = Raised (OtherException msg).
Proof.
  unfold issue_ok, _transform_jira_response. intros Hok.
  destruct (jira_issue_fields d) as [| |f]; [done|by eexists|].
  cbn [get_object mbind outcome_bind].
  unfold fields_ok in Hok.
  destruct (jira_status f); cbn; [|by eexists|];
    (destruct (jira_priority f); cbn; [|by eexists|]);
    (destruct (jira_assignee f); cbn; [|by eexists|]);
    (destruct (jira_reporter f); cbn; [|by eexists|]);
    cbn in Hok;
    (destruct (jira_comment_field f) as [| |page]; cbn in *;
       [done|by eexists|]);
    (destruct (jira_comments page) as [| |cs]; cbn in *;
       [done|by eexists|]);
    rewrite (transform_comments_null cs Hok); by eexists.
Qed.
End TransformFacts.

(** X17.  [_transform_jira_response] returns a ticket exactly when no object
    that it reads is [null].  The ticket then has every key of the internal
    shape (an absent remote key becoming the empty string or the empty
    list), carries the remote key as id and no match score, and is a
    non-empty dict.  With a [null] object (an unassigned issue has
    ["assignee": null]) it raises an [AttributeError] or a [TypeError], never
    a [RequestException]. *)
Theorem transform_jira_response_total_without_null
    (jira_data : TicketRetriever.jira_issue) :
  (issue_ok jira_data = true ->
   exists t,
     TicketRetriever._transform_jira_response jira_data = Returned t
     /\ complete_ticket t
     /\ TicketRetriever.ident t
        = Some (default "" (TicketRetriever.jira_key jira_data))
     /\ TicketRetriever.match_score t = None
     /\ TicketRetriever.truthy (Some t) = true)
  /\ (issue_ok jira_data = false ->
      exists msg,
        TicketRetriever._transform_jira_response jira_data
        = Raised (OtherException msg))
  /\ issue_ok unassigned_issue = false.
Proof.
  split; [apply transform_ok|]. split; [apply transform_null|]. reflexivity.
Qed.

(** ** Ticket lookup: the local file and the remote body *)

Section LookupFacts.
Import TextProcessor TicketRetriever.

Lemma find_local_Some tickets id_ t :
  find_local tickets id_ = Some t ->
  In t tickets /\ upper (default "" (ident t)) = id_.
Proof.
  induction tickets as [|x l IH]; [done|]. cbn [find_local].
  destruct (String.eqb_spec (upper (default "" (ident x))) id_) as [He|Hne].
  - intros [= <-]. split; [by left|done].
  - intros H. destruct (IH H). split; [by right|done].
Qed.

Lemma find_local_None tickets id_ :
  find_local tickets id_ = None <->
  forall t, In t tickets -> upper (default "" (ident t)) <> id_.
Proof.
  induction tickets as [|x l IH]; [done|]. cbn [find_local].
  destruct (String.eqb_spec (upper (default "" (ident x))) id_) as [He|Hne].
  - split; [done|]. intros H. exfalso. by apply (H x); [left|].
  - rewrite IH. split.
    + intros H t [<-|Ht]; [done|by apply H].
    + intros H t Ht. apply H. by right.
Qed.

(** After a local miss the outcome is the outcome of the remote fetch. *)
Lemma get_ticket_after_miss self ticket_id log :
  let id_ := upper (clean_text ticket_id) in
  truthy (local_lookup self id_) = false ->
  exists entries,
    get_ticket self ticket_id log
    = match _fetch_ticket_from_api self id_ (log ++ entries) with
      | (Returned ticket, log') =>
          if truthy ticket
          then (Returned ticket,
                log' ++ [(INFO, "Retrieved ticket " +:+ id_ +:+ " from API")])
          else (Returned None,
                log' ++ [(WARNING, "Ticket " +:+ id_ +:+ " not found")])
      | (Raised e, log') => (Raised e, log')
      end.
Proof.
  intros id_ Hmiss. unfold get_ticket. fold id_.
  destruct (get_ticket_from_local_run self id_ log) as (e1 & Hrun1 & _).
  exists e1. unfold mbind at 1. unfold M_bind at 1. rewrite Hrun1, Hmiss.
  unfold mbind at 1. unfold M_bind at 1.
  destruct (_fetch_ticket_from_api self id_ (log ++ e1)) as [[t|e] log'];
    [|done].
  by destruct (truthy t).
Qed.

Lemma fetch_with_credentials self id_ log :
  falsy_str (username self) || falsy_str (api_token self) = false ->
  _fetch_ticket_from_api self id_ log
  = match requests_get self (issue_url self id_) with
    | Returned resp =>
        if status_code resp =? 200 then
          match json_ticket resp with
          | Returned t => (Returned (Some t), log)
          | Raised (RequestException e) =>
              (Returned None,
               log ++ [(ERROR, "Error fetching ticket from API: " +:+ e)])
          | Raised (OtherException e) => (Raised (OtherException e), log)
          end
        else (Returned None,
              log ++ [(ERROR, "API request failed with status "
                              +:+ pretty (status_code resp))])
    | Raised (RequestException e) =>
        (Returned None,
         log ++ [(ERROR, "Error fetching ticket from API: " +:+ e)])
    | Raised (OtherException e) => (Raised (OtherException e), log)
    end.
Proof.
  intros Hcred. unfold _fetch_ticket_from_api. rewrite Hcred.
  fold (issue_url self id_). unfold try_except, mbind, M_bind, lift.
  destruct (requests_get self (issue_url self id_)) as [resp|[e|e]]; [|done|done].
  destruct (status_code resp =? 200); [|done].
  by destruct (json_ticket resp) as [t|[e|e]].
Qed.
End LookupFacts.

(** X18.  After a local miss, with credentials configured, only a
    [RequestException] is turned into "not found": any other exception
    raised by the request or while the body of a response with status 200 is
    decoded and transformed comes out of [get_ticket].  For a body that the
    remote schema describes, [get_ticket] returns the transformed ticket when
    no object in it is [null] and raises otherwise. *)
Theorem get_ticket_remote_body
    (self : TicketRetriever.retriever) (ticket_id : string)
    (log : list (level * string))
    (Hmiss : TicketRetriever.truthy
               (local_lookup self
                  (TextProcessor.upper (TextProcessor.clean_text ticket_id)))
             = false)
    (Hcred : TicketRetriever.falsy_str (TicketRetriever.username self)
             || TicketRetriever.falsy_str (TicketRetriever.api_token self)
             = false) :
  let id_ := TextProcessor.upper (TextProcessor.clean_text ticket_id) in
  let reply := TicketRetriever.requests_get self (issue_url self id_) in
  let outcome_ := (TicketRetriever.get_ticket self ticket_id log).1 in
  (forall e, reply = Raised (OtherException e) ->
             outcome_ = Raised (OtherException e))
  /\ (forall resp e,
        reply = Returned resp -> TicketRetriever.status_code resp = 200 ->
        TicketRetriever.json_ticket resp = Raised (OtherException e) ->
        outcome_ = Raised (OtherException e))
  /\ (forall resp e,
        reply = Returned resp -> TicketRetriever.status_code resp = 200 ->
        TicketRetriever.json_ticket resp = Raised (RequestException e) ->
        outcome_ = Returned None)
  /\ (forall d,
        reply = Returned (TicketRetriever.jira_response 200 (Returned d)) ->
        if issue_ok d
        then exists t,
               TicketRetriever._transform_jira_response d = Returned t
               /\ outcome_ = Returned (Some t)
        else exists msg, outcome_ = Raised (OtherException msg)).
Proof.
  intros id_ reply outcome_. subst outcome_.
  destruct (get_ticket_after_miss self ticket_id log Hmiss) as (e1 & ->).
  fold id_. rewrite fetch_with_credentials by done. fold reply.
  split; [|split; [|split]].
  - by intros e ->.
  - intros resp e -> Hs Hj. by rewrite Hs, Hj.
  - intros resp e -> Hs Hj. by rewrite Hs, Hj.
  - intros d ->. cbn [TicketRetriever.jira_response TicketRetriever.status_code
                      TicketRetriever.json_ticket Z.eqb Pos.eqb mbind outcome_bind].
    destruct (issue_ok d) eqn:Hok.
    + destruct (transform_ok d Hok) as (t & Ht & _ & _ & _ & Htruthy).
      exists t. split; [done|]. by rewrite Ht, Htruthy.
    + destruct (transform_null d Hok) as (msg & Ht). exists msg. by rewrite Ht.
Qed.

Lemma get_ticket_remote_body_witness :
  exists msg,
    (TicketRetriever.get_ticket
       (seeded_retriever (Some "user") (Some "token")
          (fun _ => Returned (TicketRetriever.jira_response 200
                                (Returned unassigned_issue))))
       "proj-2001" []).1
    = Raised (OtherException msg).
Proof.
  destruct (get_ticket_remote_body
              (seeded_retriever (Some "user") (Some "token")
                 (fun _ => Returned (TicketRetriever.jira_response 200
                                       (Returned unassigned_issue))))
              "proj-2001" [] eq_refl eq_refl) as (_ & _ & _ & H).
  exact (H unassigned_issue eq_refl).
Defined.

(** X19.  Without credentials [get_ticket] answers from the local file
    alone and never raises.  A ticket that it returns is a stored ticket
    whose id, in upper case, is the normalized id asked for, and it is a
    non-empty dict; when no stored ticket has that id the answer is
    [None]. *)
Theorem get_ticket_local_only
    (self : TicketRetriever.retriever) (tickets : list TicketRetriever.ticket)
    (ticket_id : string) (log : list (level * string))
    (Hfile : TicketRetriever.file self = TicketRetriever.Stored tickets)
    (Hcred : TicketRetriever.falsy_str (TicketRetriever.username self)
             || TicketRetriever.falsy_str (TicketRetriever.api_token self)
             = true) :
  let id_ := TextProcessor.upper (TextProcessor.clean_text ticket_id) in
  let outcome_ := (TicketRetriever.get_ticket self ticket_id log).1 in
  (exists answer, outcome_ = Returned answer)
  /\ (forall t, outcome_ = Returned (Some t) ->
        In t tickets
        /\ TextProcessor.upper (default "" (TicketRetriever.ident t)) = id_
        /\ TicketRetriever.is_empty_dict t = false)
  /\ ((forall t, In t tickets ->
         TextProcessor.upper (default "" (TicketRetriever.ident t)) <> id_) ->
      outcome_ = Returned None).
Proof.
  intros id_ outcome_.
  assert (local_lookup self id_ = TicketRetriever.find_local tickets id_) as Hlook
    by (unfold local_lookup; by rewrite Hfile).
  assert (outcome_
          = Returned (if TicketRetriever.truthy (local_lookup self id_)
                      then local_lookup self id_ else None)) as Hout.
  { subst outcome_.
    destruct (TicketRetriever.truthy (local_lookup self id_)) eqn:Ehit.
    - by rewrite get_ticket_local_hit.
    - destruct (get_ticket_failure self ticket_id log Ehit
                  (missing_credentials self id_ Hcred)) as (entries & -> & _).
      done. }
  rewrite Hout, Hlook. split; [by eexists|]. split.
  - intros t [= Ht].
    destruct (TicketRetriever.truthy (TicketRetriever.find_local tickets id_))
      eqn:Ehit; [|done].
    rewrite Ht in Ehit. apply find_local_Some in Ht as [Hin Hid].
    split; [done|]. split; [done|]. cbn in Ehit. by apply negb_true_iff.
  - intros Hnone. apply find_local_None in Hnone. by rewrite Hnone.
Qed.

Lemma get_ticket_local_only_witness :
  exists answer,
    (TicketRetriever.get_ticket
       (seeded_retriever None None (fun _ => Raised (OtherException "down")))
       "proj-1002" []).1
    = Returned answer.
Proof.
  destruct (get_ticket_local_only
              (seeded_retriever None None (fun _ => Raised (OtherException "down")))
              TicketRetriever.sample_tickets "proj-1002" [] eq_refl eq_refl)
    as (H & _).
  exact H.
Defined.

(** ** Queries, responses and the conversation history *)

Section AgentFacts.
Import TextProcessor CustomerSupportAgent.

Lemma append_String c s t : String c s +:+ t = String c (s +:+ t).
Proof. reflexivity. Qed.

Lemma append_assoc (s t u : string) : (s +:+ t) +:+ u = s +:+ t +:+ u.
Proof. induction s as [|c s IH]; [done|]. by rewrite !append_String, IH. Qed.

Lemma join_cons sep x y l :
  join sep (x :: y :: l) = x +:+ sep +:+ join sep (y :: l).
Proof. reflexivity. Qed.

Lemma join_head sep c s l : exists s', join sep (String c s :: l) = String c s'.
Proof.
  destruct l as [|y l]; [by exists s|].
  rewrite join_cons, append_String. eauto.
Qed.

Lemma join_app_suffix sep l m :
  m <> [] -> exists body, join sep (l ++ m) = body +:+ join sep m.
Proof.
  intros Hm. induction l as [|x l [body IH]]; [by exists ""|].
  exists (x +:+ sep +:+ body).
  destruct (l ++ m) as [|y r] eqn:E.
  { by apply app_eq_nil in E as [_ ?]. }
  cbn [app]. rewrite E, join_cons, IH. by rewrite !append_assoc.
Qed.

(** Step 1 follows the lookup: it returns what [get_ticket] returns, with the
    ticket's source, and raises what [get_ticket] raises. *)
Lemma retrieve_ticket_empty self log :
  retrieve_ticket self "" log = (Returned (None, []), log).
Proof. reflexivity. Qed.

Lemma retrieve_ticket_returned self ticket_ref log t log' :
  ticket_ref <> "" ->
  TR.get_ticket (ticket_retriever self) ticket_ref
    (log ++ [(INFO, "Extracted ticket reference: " +:+ ticket_ref)])
  = (Returned t, log') ->
  exists entries,
    retrieve_ticket self ticket_ref log
    = (Returned (t, ticket_source ticket_ref t), log' ++ entries).
Proof.
  intros Href Hrun. destruct ticket_ref as [|c s]; [done|].
  unfold retrieve_ticket, ticket_source.
  unfold mbind at 1. unfold M_bind at 1. unfold logger at 1.
  unfold mbind at 1. unfold M_bind at 1. rewrite Hrun.
  destruct t as [d|].
  - destruct (TR.truthy (Some d)).
    + exists []. by rewrite app_nil_r.
    + eexists [_]. reflexivity.
  - eexists [_]. reflexivity.
Qed.

Lemma retrieve_ticket_raised self ticket_ref log e log' :
  ticket_ref <> "" ->
  TR.get_ticket (ticket_retriever self) ticket_ref
    (log ++ [(INFO, "Extracted ticket reference: " +:+ ticket_ref)])
  = (Raised e, log') ->
  retrieve_ticket self ticket_ref log = (Raised e, log').
Proof.
  intros Href Hrun. destruct ticket_ref as [|c s]; [done|].
  unfold retrieve_ticket.
  unfold mbind at 1. unfold M_bind at 1. unfold logger at 1.
  unfold mbind at 1. unfold M_bind at 1. by rewrite Hrun.
Qed.

(** What a returning call of step 1 hands on. *)
Lemma retrieve_ticket_inv self ticket_ref log t srcs log' :
  retrieve_ticket self ticket_ref log = (Returned (t, srcs), log') ->
  srcs = ticket_source ticket_ref t /\ (ticket_ref = "" -> t = None).
Proof.
  destruct ticket_ref as [|c s].
  { by intros [= <- <- _]. }
  unfold retrieve_ticket.
  unfold mbind at 1. unfold M_bind at 1. unfold logger at 1.
  unfold mbind at 1. unfold M_bind at 1.
  destruct (TR.get_ticket _ _ _) as [[t0|e] l]; [|done].
  unfold ticket_source.
  destruct t0 as [d|]; [destruct (TR.truthy (Some d)) eqn:Ht|].
  - intros [= <- <- _]. by rewrite Ht.
  - unfold mbind, M_bind, logger, mret, M_ret. intros [= <- <- _].
    by rewrite Ht.
  - unfold mbind, M_bind, logger, mret, M_ret. by intros [= <- <- _].
Qed.

(** What a returning call of [process_query] returns and leaves behind. *)
Lemma process_query_inv cfg now self query cid log r self' log' :
  process_query cfg now self query cid log = (Returned (r, self'), log') ->
  exists t,
    r = answer cfg now self query cid t
    /\ self' = {| knowledge_base := knowledge_base self;
                  ticket_retriever := ticket_retriever self;
                  conversation_history :=
                    conversation_history self ++ [entry_of query r] |}
    /\ (extract_ticket_reference query = "" -> t = None).
Proof.
  unfold process_query.
  unfold mbind at 1. unfold M_bind at 1. unfold logger at 1.
  unfold mbind at 1. unfold M_bind at 1.
  destruct (retrieve_ticket self _ _) as [[[t srcs]|e] l] eqn:Hret; [|done].
  apply retrieve_ticket_inv in Hret as [-> Hnone].
  unfold mbind, M_bind, logger, mret, M_ret. intros [= <- <- _].
  by exists t.
Qed.
End AgentFacts.

Section ResponseShape.
Import TextProcessor CustomerSupportAgent.

Lemma response_parts_first n query t ks :
  n <> 0%nat ->
  exists c s l, response_parts n query t ks = String c s :: l /\ c <> "H"%char.
Proof.
  intros Hn. destruct n as [|n]; [done|]. unfold response_parts.
  cbn [Nat.eqb app].
  destruct t as [d|]; [destruct (TR.truthy (Some d)) eqn:Ht|].
  { unfold ticket_block. cbv zeta. cbn [app].
    eexists _, _, _. split; [reflexivity|done]. }
  all: cbn [TR.truthy negb andb app].
  all: destruct ks as [|k ks];
    [|unfold knowledge_block; cbn [app];
      eexists _, _, _; split; [reflexivity|done]].
  all: cbn [knowledge_block app].
  all: match goal with
       | |- context [_create_contextual_response ?q ?t ?k] =>
           destruct (_create_contextual_response q t k)
       end.
  all: cbn [app]; rewrite ?append_String;
    eexists _, _, _; (split; [reflexivity|done]).
Qed.

Lemma prefix_other_head c s :
  c <> "H"%char -> String.prefix greeting (String c s) = false.
Proof.
  intros Hc. unfold greeting. cbn [String.prefix].
  destruct (ascii_dec "H" c) as [E|]; [congruence|reflexivity].
Qed.

Lemma prefix_append s t : String.prefix s (s +:+ t) = true.
Proof.
  induction s as [|c s IH]; [by destruct t|].
  rewrite append_String. cbn [String.prefix].
  by destruct (ascii_dec c c).
Qed.

Lemma prefix_refl s : String.prefix s s = true.
Proof.
  induction s as [|c s IH]; [done|]. cbn [String.prefix].
  by destruct (ascii_dec c c).
Qed.

Lemma contextual_nonempty_with_articles query t k ks :
  _create_contextual_response query t (k :: ks) <> "".
Proof.
  unfold _create_contextual_response. cbv zeta.
  destruct t as [d|].
  - destruct (contains "status" (lower query) && TR.truthy (Some d)); [done|].
    destruct (contains "progress" (lower query) && TR.truthy (Some d)).
    + destruct (last (default [] (TR.comments d))); [done|].
      destruct (contains "resolve" (lower query) || contains "fix" (lower query));
        [done|].
      by destruct ((contains "error" (lower query) || contains "issue" (lower query))
                   && TR.truthy (Some d)).
    + destruct (contains "resolve" (lower query) || contains "fix" (lower query));
        [done|].
      by destruct ((contains "error" (lower query) || contains "issue" (lower query))
                   && TR.truthy (Some d)).
  - by destruct (contains "resolve" (lower query) || contains "fix" (lower query)).
Qed.

Lemma contextual_without_ticket query t ks :
  TR.truthy t = false ->
  _create_contextual_response query t ks
  = if contains "resolve" (lower query) || contains "fix" (lower query)
    then match ks with
         | top_result :: _ =>
             "Based on our knowledge base, here's a potential solution: "
             +:+ take_str 200 (default "" (KB.content top_result))
         | [] =>
             "I'm looking into solutions for you. Please check the relevant information above."
         end
    else match ks with
         | _ :: _ =>
             "I've found some relevant information above that might help address your concern. "
             +:+ "Please review the details and let me know if you need further assistance."
         | [] => ""
         end.
Proof.
  intros Ht. unfold _create_contextual_response. cbv zeta.
  destruct t as [d|]; [|done]. rewrite Ht, !andb_false_r. done.
Qed.
Lemma generate_response_greeting history query t ks :
  String.prefix greeting (_generate_response history query t ks)
  = (history =? 0)%nat.
Proof.
  unfold _generate_response. destruct history as [|n].
  - unfold response_parts. cbn [Nat.eqb app].
    rewrite join_cons. apply prefix_append.
  - destruct (response_parts_first (S n) query t ks) as (c & s & l & -> & Hc);
      [done|].
    destruct (join_head nl c s l) as [s' ->].
    by apply prefix_other_head.
Qed.
End ResponseShape.

(** X24.  The response starts with the greeting exactly when the
    conversation history is empty: no other part that can come first begins
    with the greeting. *)
Theorem greeting_iff_history_empty
    (history : nat) (query : string)
    (t : option TicketRetriever.ticket) (ks : list KnowledgeBase.article) :
  String.prefix greeting
    (CustomerSupportAgent._generate_response history query t ks)
  = (history =? 0)%nat.
Proof.
  unfold CustomerSupportAgent._generate_response.
  destruct history as [|n].
  - unfold CustomerSupportAgent.response_parts. cbn [Nat.eqb app].
    rewrite join_cons. apply prefix_append.
  - destruct (response_parts_first (S n) query t ks) as (c & s & l & -> & Hc);
      [done|].
    destruct (join_head CustomerSupportAgent.nl c s l) as [s' ->].
    by apply prefix_other_head.
Qed.

(** X25.  Every response ends with the closing statement: a line of three
    dashes after an empty line, then the closing question. *)
Theorem response_ends_with_closing
    (history : nat) (query : string)
    (t : option TicketRetriever.ticket) (ks : list KnowledgeBase.article) :
  exists body,
    CustomerSupportAgent._generate_response history query t ks
    = body +:+ closing.
Proof.
  unfold CustomerSupportAgent._generate_response,
    CustomerSupportAgent.response_parts.
  rewrite !app_assoc.
  match goal with
  | |- context [TextProcessor.join _ (?l ++ ?m)] =>
      destruct (join_app_suffix CustomerSupportAgent.nl l m) as [body ->];
        [done|]
  end.
  by exists body.
Qed.

(** X26.  The contextual part of a response is empty only when no article
    was found and the query mentions neither "resolve" nor "fix"; whenever
    an article was found it is non-empty.  Without a ticket the converse
    holds too, so a query about a fix that finds nothing still gets the
    sentence that points to "the relevant information above". *)
Theorem contextual_response_empty
    (query : string) (t : option TicketRetriever.ticket)
    (ks : list KnowledgeBase.article) :
  let q := TextProcessor.lower query in
  let asks_fix :=
    TextProcessor.contains "resolve" q || TextProcessor.contains "fix" q in
  (CustomerSupportAgent._create_contextual_response query t ks = ""
   -> ks = [] /\ asks_fix = false)
  /\ (TicketRetriever.truthy t = false ->
      (CustomerSupportAgent._create_contextual_response query t ks = ""
       <-> ks = [] /\ asks_fix = false)
      /\ (ks = [] -> asks_fix = true ->
          CustomerSupportAgent._create_contextual_response query t ks
          = "I'm looking into solutions for you. Please check the relevant information above.")).
Proof.
  intros q asks_fix.
  assert (Hfwd : CustomerSupportAgent._create_contextual_response query t ks = ""
                 -> ks = [] /\ asks_fix = false).
  { intros He. destruct ks as [|k ks].
    - split; [done|]. revert He.
      unfold CustomerSupportAgent._create_contextual_response. cbv zeta.
      fold q. fold asks_fix. destruct asks_fix; [|done].
      destruct t as [d|]; [|done].
      destruct (TextProcessor.contains "status" q && _); [done|].
      destruct (TextProcessor.contains "progress" q && _); [|done].
      by destruct (last _).
    - by apply contextual_nonempty_with_articles in He. }
  split; [done|]. intros Ht. split; [split; [done|]|].
  - intros [-> Hfix]. rewrite contextual_without_ticket by done.
    fold q. fold asks_fix. by rewrite Hfix.
  - intros -> Hfix. rewrite contextual_without_ticket by done.
    fold q. fold asks_fix. by rewrite Hfix.
Qed.

Section HistoryFacts.
Import TextProcessor CustomerSupportAgent.

Lemma conversation_id_or_given c now :
  c <> "" -> conversation_id_or (Some c) now = c.
Proof. by destruct c. Qed.

Lemma get_conversation_history_filter self c :
  c <> "" ->
  get_conversation_history self (Some c)
  = List.filter (fun entry => String.eqb (conversation_id entry) c)
                (conversation_history self).
Proof. by destruct c. Qed.

Lemma filter_all {A} (f : A -> bool) l :
  List.Forall (fun x => f x = true) l -> List.filter f l = l.
Proof.
  induction 1 as [|x l Hx _ IH]; [done|]. cbn [List.filter]. by rewrite Hx, IH.
Qed.

Lemma filter_none {A} (f : A -> bool) l :
  List.Forall (fun x => f x = false) l -> List.filter f l = [].
Proof.
  induction 1 as [|x l Hx _ IH]; [done|]. cbn [List.filter]. by rewrite Hx, IH.
Qed.

(** A returning run of calls with one conversation id argument has appended
    one entry per call, in order. *)
Lemma process_queries_inv cfg cid calls :
  forall self log self' log',
    process_queries cfg self calls cid log = (Returned self', log') ->
    exists new,
      conversation_history self' = conversation_history self ++ new
      /\ map user_query new = map snd calls
      /\ map conversation_id new
         = map (fun call => conversation_id_or cid call.1) calls.
Proof.
  induction calls as [|[now query] calls IH]; intros self log self' log'.
  { intros [= <- _]. exists []. by rewrite app_nil_r. }
  cbn [process_queries]. unfold mbind at 1. unfold M_bind at 1.
  destruct (process_query cfg now self query cid log)
    as [[[r self1]|e] log1] eqn:Hrun; [|done].
  apply process_query_inv in Hrun as (t & -> & -> & _).
  cbn [snd]. intros (new & Hh & Hq & Hc)%IH.
  cbn [conversation_history] in Hh.
  exists (entry_of query (answer cfg now self query cid t) :: new).
  rewrite Hh, <- app_assoc. cbn [map fst snd]. by rewrite Hq, Hc.
Qed.
End HistoryFacts.

(** X20.  When [process_query] returns, it has appended exactly one entry
    to the conversation history: the query, the response text, the extracted
    ticket reference, and the conversation id and timestamp of the returned
    dict.  The conversation id is the one passed in unless that is missing
    or empty, when it is ["conv-"] followed by the clock's timestamp.  The
    response text is the one generated for the history as it was before the
    call, and the knowledge base and the retriever are not changed. *)
Theorem process_query_records_entry
    (cfg : Config) (now : CustomerSupportAgent.clock)
    (self self' : CustomerSupportAgent.agent) (query : string)
    (cid : option string) (log log' : list (level * string))
    (r : CustomerSupportAgent.response_data)
    (Hrun : CustomerSupportAgent.process_query cfg now self query cid log
            = (Returned (r, self'), log')) :
  CustomerSupportAgent.conversation_history self'
  = CustomerSupportAgent.conversation_history self ++ [entry_of query r]
  /\ CustomerSupportAgent.knowledge_base self'
     = CustomerSupportAgent.knowledge_base self
  /\ CustomerSupportAgent.ticket_retriever self'
     = CustomerSupportAgent.ticket_retriever self
  /\ CustomerSupportAgent.response_conversation_id r
     = match cid with
       | None | Some "" =>
           "conv-" +:+ CustomerSupportAgent.now_timestamp now
       | Some c => c
       end
  /\ CustomerSupportAgent.response_timestamp r
     = CustomerSupportAgent.now_isoformat now
  /\ CustomerSupportAgent.response r
     = CustomerSupportAgent._generate_response
         (length (CustomerSupportAgent.conversation_history self)) query
         (CustomerSupportAgent.ticket_details r)
         (KnowledgeBase.search cfg
            (CustomerSupportAgent.knowledge_base self) query None).
Proof.
  apply process_query_inv in Hrun as (t & -> & -> & _).
  repeat split. by destruct cid as [[|c s]|].
Qed.

Lemma process_query_records_entry_witness :
  exists r self' log',
    CustomerSupportAgent.process_query default_config noon fresh_agent
      "status of proj-1001 please" None []
    = (Returned (r, self'), log')
    /\ CustomerSupportAgent.conversation_history self'
       = [entry_of "status of proj-1001 please" r]
    /\ CustomerSupportAgent.response_conversation_id r = "conv-1705314600.0".
Proof.
  destruct (CustomerSupportAgent.process_query default_config noon fresh_agent
              "status of proj-1001 please" None [])
    as [[[r self']|e] log'] eqn:Hrun; [|by vm_compute in Hrun].
  exists r, self', log'. split; [reflexivity|].
  destruct (process_query_records_entry _ _ _ _ _ _ _ _ _ Hrun)
    as (Hh & _ & _ & Hc & _).
  split; [exact Hh|exact Hc].
Defined.

(** X21.  [process_query] has no handler of its own: an exception that
    [get_ticket] raises for the extracted reference comes out of
    [process_query], with the log as [get_ticket] left it; no response is
    produced. *)
Theorem process_query_propagates_exception
    (cfg : Config) (now : CustomerSupportAgent.clock)
    (self : CustomerSupportAgent.agent) (query : string)
    (cid : option string) (log log' : list (level * string)) (e : exn)
    (Href : TextProcessor.extract_ticket_reference query <> "")
    (Hrun : TicketRetriever.get_ticket
              (CustomerSupportAgent.ticket_retriever self)
              (TextProcessor.extract_ticket_reference query)
              (log ++ [(INFO, "Processing query: "
                              +:+ TextProcessor.take_str 100 query +:+ "...");
                       (INFO, "Extracted ticket reference: "
                              +:+ TextProcessor.extract_ticket_reference query)])
            = (Raised e, log')) :
  CustomerSupportAgent.process_query cfg now self query cid log
  = (Raised e, log').
Proof.
  unfold CustomerSupportAgent.process_query.
  unfold mbind at 1. unfold M_bind at 1. unfold logger at 1.
  unfold mbind at 1. unfold M_bind at 1.
  rewrite (retrieve_ticket_raised self _ _ e log' Href);
    [done|by rewrite <- app_assoc].
Qed.

Lemma process_query_propagates_exception_witness :
  (CustomerSupportAgent.process_query default_config noon remote_agent
     "where is PROJ-2001" None []).1
  = Raised TicketRetriever.attribute_error.
Proof.
  rewrite (process_query_propagates_exception default_config noon remote_agent
             "where is PROJ-2001" None []
             [(INFO, "Processing query: where is PROJ-2001...");
              (INFO, "Extracted ticket reference: PROJ-2001")]
             TicketRetriever.attribute_error);
    [reflexivity|by vm_compute|by vm_compute].
Defined.

(** X22.  When [process_query] returns, the sources of the returned dict are
    at most four: the ticket, when one was found, followed by one source per
    returned article in the order of the results.  The returned articles are
    the first three results of the article search, and the id and title of
    each article source are those of an article of the knowledge base.  A
    query without a ticket reference has no ticket. *)
Theorem process_query_sources
    (cfg : Config) (now : CustomerSupportAgent.clock)
    (self self' : CustomerSupportAgent.agent) (query : string)
    (cid : option string) (log log' : list (level * string))
    (r : CustomerSupportAgent.response_data)
    (Hrun : CustomerSupportAgent.process_query cfg now self query cid log
            = (Returned (r, self'), log')) :
  CustomerSupportAgent.sources r
  = ticket_source (TextProcessor.extract_ticket_reference query)
                  (CustomerSupportAgent.ticket_details r)
    ++ map CustomerSupportAgent.kb_source
           (CustomerSupportAgent.knowledge_base_results r)
  /\ (length (CustomerSupportAgent.sources r) <= 4)%nat
  /\ CustomerSupportAgent.knowledge_base_results r
     = take 3 (KnowledgeBase.search cfg
                 (CustomerSupportAgent.knowledge_base self) query None)
  /\ (forall k, In k (CustomerSupportAgent.knowledge_base_results r) ->
        exists a, In a (CustomerSupportAgent.knowledge_base self)
                  /\ CustomerSupportAgent.kb_source k
                     = CustomerSupportAgent.kb_source a)
  /\ (TextProcessor.extract_ticket_reference query = ""
      -> CustomerSupportAgent.ticket_details r = None).
Proof.
  apply process_query_inv in Hrun as (t & -> & -> & Hnone).
  cbn [answer CustomerSupportAgent.sources
       CustomerSupportAgent.knowledge_base_results
       CustomerSupportAgent.ticket_details].
  split; [done|]. split; [|split; [done|split; [|done]]].
  - rewrite length_app, length_map, length_take.
    assert (length (ticket_source
                      (TextProcessor.extract_ticket_reference query) t) <= 1)%nat.
    { unfold ticket_source. destruct t as [d|]; [|cbn; lia].
      destruct (TicketRetriever.truthy (Some d)); cbn; lia. }
    lia.
  - intros k Hk.
    assert (Hin : In k (KnowledgeBase.search cfg
                          (CustomerSupportAgent.knowledge_base self) query None)).
    { rewrite <- (take_drop 3). apply in_or_app. by left. }
    apply search_In in Hin as (_ & a & Ha & _ & ->).
    by exists a.
Qed.

Lemma process_query_sources_witness :
  exists r self' log',
    CustomerSupportAgent.process_query default_config noon fresh_agent
      "status of proj-1001 please" None []
    = (Returned (r, self'), log')
    /\ CustomerSupportAgent.sources r
       = [ {| CustomerSupportAgent.source_type := "ticket";
              CustomerSupportAgent.source_id := "PROJ-1001";
              CustomerSupportAgent.source_title :=
                "Unable to login to application" |} ].
Proof.
  destruct (CustomerSupportAgent.process_query default_config noon fresh_agent
              "status of proj-1001 please" None [])
    as [[[r self']|e] log'] eqn:Hrun; [|by vm_compute in Hrun].
  exists r, self', log'. split; [reflexivity|].
  destruct (process_query_sources _ _ _ _ _ _ _ _ _ Hrun) as (Hs & _).
  rewrite Hs. vm_compute in Hrun. by injection Hrun as <- _ _.
Defined.

(** X23.  After a run of calls of [process_query] that all return and all
    pass the same non-empty conversation id, the queries of the entries that
    [get_conversation_history] returns for that id are those of before
    followed by the queries of the calls, in the order of the calls; for any
    other non-empty id it returns what it returned before; and without an id
    it returns the whole history, which has grown by the number of calls. *)
Theorem conversation_history_by_id
    (cfg : Config) (self self' : CustomerSupportAgent.agent)
    (calls : list (CustomerSupportAgent.clock * string))
    (c : string) (log log' : list (level * string))
    (Hc : c <> "")
    (Hrun : process_queries cfg self calls (Some c) log = (Returned self', log')) :
  map CustomerSupportAgent.user_query
      (CustomerSupportAgent.get_conversation_history self' (Some c))
  = map CustomerSupportAgent.user_query
        (CustomerSupportAgent.get_conversation_history self (Some c))
    ++ map snd calls
  /\ (forall c', c' <> "" -> c' <> c ->
        CustomerSupportAgent.get_conversation_history self' (Some c')
        = CustomerSupportAgent.get_conversation_history self (Some c'))
  /\ length (CustomerSupportAgent.get_conversation_history self' None)
     = (length (CustomerSupportAgent.get_conversation_history self None)
        + length calls)%nat.
Proof.
  apply process_queries_inv in Hrun as (new & Hh & Hq & Hid).
  assert (Hall : List.Forall
                   (fun e => CustomerSupportAgent.conversation_id e = c) new).
  { apply List.Forall_forall. intros e He.
    apply (in_map CustomerSupportAgent.conversation_id) in He.
    rewrite Hid in He. apply in_map_iff in He as (call & <- & _).
    by apply conversation_id_or_given. }
  split; [|split].
  - rewrite !get_conversation_history_filter by done.
    rewrite Hh, List.filter_app, map_app. f_equal.
    rewrite filter_all; [done|].
    eapply List.Forall_impl; [|exact Hall].
    intros e He. by apply String.eqb_eq.
  - intros c' Hne Hc'. rewrite !get_conversation_history_filter by done.
    rewrite Hh, List.filter_app, (filter_none _ new); [by rewrite app_nil_r|].
    eapply List.Forall_impl; [|exact Hall].
    intros e He. apply String.eqb_neq. congruence.
  - cbn [CustomerSupportAgent.get_conversation_history].
    rewrite Hh, length_app. f_equal.
    by rewrite <- (length_map CustomerSupportAgent.user_query), Hq, length_map.
Qed.

Lemma conversation_history_by_id_witness :
  exists self' log',
    process_queries default_config fresh_agent
      [(noon, "hello there"); (noon, "status of proj-1001 please")]
      (Some "c1") []
    = (Returned self', log')
    /\ map CustomerSupportAgent.user_query
           (CustomerSupportAgent.get_conversation_history self' (Some "c1"))
       = ["hello there"; "status of proj-1001 please"].
Proof.
  assert (Hc : "c1" <> "") by discriminate.
  destruct (process_queries default_config fresh_agent
              [(noon, "hello there"); (noon, "status of proj-1001 please")]
              (Some "c1") [])
    as [[self'|e] log'] eqn:Hrun; [|by vm_compute in Hrun].
  exists self', log'. split; [reflexivity|].
  destruct (conversation_history_by_id _ _ _ _ _ _ _ Hc Hrun) as (Hq & _).
  exact Hq.
Defined.

(** X27.  The greeting goes with the history, not with the conversation id:
    when the call of [process_query] after [clear_conversation_history]
    returns, its response starts with the greeting, and when the call after
    that returns, its response does not, whatever conversation ids the two
    calls pass.  The history then holds the two queries. *)
Theorem greeting_after_clear
    (cfg : Config) (now1 now2 : CustomerSupportAgent.clock)
    (self self1 self2 : CustomerSupportAgent.agent) (query1 query2 : string)
    (cid1 cid2 : option string) (log log1 log2 : list (level * string))
    (r1 r2 : CustomerSupportAgent.response_data)
    (Hrun1 : CustomerSupportAgent.process_query cfg now1
               (CustomerSupportAgent.clear_conversation_history self)
               query1 cid1 log
             = (Returned (r1, self1), log1))
    (Hrun2 : CustomerSupportAgent.process_query cfg now2 self1 query2 cid2 log1
             = (Returned (r2, self2), log2)) :
  String.prefix greeting (CustomerSupportAgent.response r1) = true
  /\ String.prefix greeting (CustomerSupportAgent.response r2) = false
  /\ map CustomerSupportAgent.user_query
         (CustomerSupportAgent.conversation_history self2)
     = [query1; query2].
Proof.
  apply process_query_inv in Hrun1 as (t1 & -> & -> & _).
  apply process_query_inv in Hrun2 as (t2 & -> & -> & _).
  cbn [answer CustomerSupportAgent.response
       CustomerSupportAgent.conversation_history
       CustomerSupportAgent.clear_conversation_history].
  rewrite !generate_response_greeting. done.
Qed.

Lemma greeting_after_clear_witness :
  exists r1 self1 log1 r2 self2 log2,
    CustomerSupportAgent.process_query default_config noon
      (CustomerSupportAgent.clear_conversation_history fresh_agent)
      "hello there" None []
    = (Returned (r1, self1), log1)
    /\ CustomerSupportAgent.process_query default_config noon self1
         "status of proj-1001 please" (Some "c1") log1
       = (Returned (r2, self2), log2)
    /\ String.prefix greeting (CustomerSupportAgent.response r1) = true
    /\ String.prefix greeting (CustomerSupportAgent.response r2) = false.
Proof.
  destruct (CustomerSupportAgent.process_query default_config noon
              (CustomerSupportAgent.clear_conversation_history fresh_agent)
              "hello there" None [])
    as [[[r1 self1]|e] log1] eqn:Hrun1; [|by vm_compute in Hrun1].
  destruct (CustomerSupportAgent.process_query default_config noon self1
              "status of proj-1001 please" (Some "c1") log1)
    as [[[r2 self2]|e] log2] eqn:Hrun2.
  - exists r1, self1, log1, r2, self2, log2.
    destruct (greeting_after_clear _ _ _ _ _ _ _ _ _ _ _ _ _ _ _ Hrun1 Hrun2)
      as (G1 & G2 & _).
    repeat split; assumption.
  - exfalso. vm_compute in Hrun1. injection Hrun1 as <- <- <-.
    by vm_compute in Hrun2.
Defined.
